(** * biz-playbook-rag: the retrieval core, embedded and verified

    A shallow embedding of the chunkers ([lib/chunker.js], [chunkTextEnhanced]),
    the hybrid scored search, the index writer, the checksum status check
    ([lib/stores-enhanced.js]), the ingestion script and the [ask] handler,
    followed by the properties the specification states about them.

    Modelling conventions.
    - A JavaScript string is a [string] whose characters are read as code
      units 0..255 (Latin-1); white space and lower-casing follow ECMAScript
      on that range.
    - JavaScript numbers that hold scores are real numbers ([R]): the exact
      arithmetic that the IEEE doubles of the program approximate.  Counts are
      [nat]; indices that the program lets go negative are [Z].
    - The tokenizer (js-tiktoken), the embedding model and MD5 are external
      collaborators; they enter as type classes, as total functions.
    - A result of type [option _] is [None] when the JavaScript run throws (or
      runs out of the step budget given to a loop that may not terminate);
      the search returns [inl] of a [failure] when it throws or when its
      scores are NaN. *)

From Stdlib Require Import Reals Lra Lia ZArith List String Ascii Bool.
From Stdlib Require Import Sorting.Sorted Sorting.Permutation.
From stdpp Require Import gmap strings pretty.
Import ListNotations.
Open Scope string_scope.
Open Scope list_scope.

(** ** JavaScript strings and arrays *)

Module JS.

Definition code (c : ascii) : nat := nat_of_ascii c.

(** [\s] of a regular expression and the characters [trim] removes, on code
    units below 256: TAB, LF, VT, FF, CR, SPACE and NBSP. *)
Definition isSpace (c : ascii) : bool :=
  let n := code c in
  ((9 <=? n) && (n <=? 13) || (n =? 32) || (n =? 160))%nat.

Definition isNewline (c : ascii) : bool := (code c =? 10)%nat.

(** The class [[.!?]]. *)
Definition isTerminator (c : ascii) : bool :=
  let n := code c in ((n =? 46) || (n =? 33) || (n =? 63))%nat.

Definition lowerChar (c : ascii) : ascii :=
  let n := code c in
  if ((65 <=? n) && (n <=? 90) ||
      (192 <=? n) && (n <=? 222) && negb (n =? 215))%nat
  then ascii_of_nat (n + 32) else c.

Fixpoint toLowerCase (s : string) : string :=
  match s with
  | EmptyString => EmptyString
  | String c s' => String (lowerChar c) (toLowerCase s')
  end.

Fixpoint revOnto (s acc : string) : string :=
  match s with
  | EmptyString => acc
  | String c s' => revOnto s' (String c acc)
  end.

Definition reverse (s : string) : string := revOnto s EmptyString.

Fixpoint dropWhile (p : ascii -> bool) (s : string) : string :=
  match s with
  | EmptyString => EmptyString
  | String c s' => if p c then dropWhile p s' else s
  end.

(** [String.prototype.trim]. *)
Definition trim (s : string) : string :=
  reverse (dropWhile isSpace (reverse (dropWhile isSpace s))).

Fixpoint drop (n : nat) (s : string) : string :=
  match n, s with
  | O, _ => s
  | S _, EmptyString => EmptyString
  | S n', String _ s' => drop n' s'
  end.

(** The relative index of [slice]: a negative index counts from the end,
    and both ends are clamped to the length. *)
Definition relIndex (len i : Z) : Z :=
  if (i <? 0)%Z then Z.max (len + i) 0 else Z.min i len.

(** [s.slice(start)]. *)
Definition sliceFrom (start : Z) (s : string) : string :=
  drop (Z.to_nat (relIndex (Z.of_nat (String.length s)) start)) s.

(** [a.slice(start, stop)] on an array. *)
Definition sliceArr {A} (start stop : Z) (l : list A) : list A :=
  let len := Z.of_nat (List.length l) in
  let k := relIndex len start in
  let f := relIndex len stop in
  firstn (Z.to_nat (f - k)) (skipn (Z.to_nat k) l).

(** [s.includes(w)]. *)
Fixpoint includes (w s : string) : bool :=
  match s with
  | EmptyString => String.prefix w EmptyString
  | String _ s' => String.prefix w s || includes w s'
  end.

(** [s.endsWith(suffix)]. *)
Definition endsWith (suffix s : string) : bool :=
  String.prefix (reverse suffix) (reverse s).

(** Length of the longest prefix of [s] made of characters in [p]. *)
Fixpoint runLen (p : ascii -> bool) (s : string) : nat :=
  match s with
  | EmptyString => 0
  | String c s' => if p c then S (runLen p s') else 0
  end.

(** Position of the last line feed inside the white-space run that starts
    [s], if there is one. *)
Fixpoint lastNewlineInRun (s : string) : option nat :=
  match s with
  | EmptyString => None
  | String c s' =>
      if isSpace c then
        match lastNewlineInRun s' with
        | Some j => Some (S j)
        | None => if isNewline c then Some 0%nat else None
        end
      else None
  end.

(** A separator is given by the length of its match at the head of the rest
    of the string, 0 when it does not match there.  None of the three
    separators of the program matches the empty string. *)

(** [/[.!?]+/] *)
Definition sepTerminators (s : string) : nat := runLen isTerminator s.

(** [/\s+/] *)
Definition sepSpaces (s : string) : nat := runLen isSpace s.

(** [/\n\s*\n/]: a line feed, then white space backtracked to its last
    line feed. *)
Definition sepBlankLine (s : string) : nat :=
  match s with
  | String c s' =>
      if isNewline c then
        match lastNewlineInRun s' with
        | Some j => S (S j)
        | None => 0
        end
      else 0
  | EmptyString => 0
  end.

(** [s.split(sep)]: scan from the left; where the separator matches, close
    the current piece and skip the match; at the end close the last piece.
    [skip] counts the characters of a match still to pass, [cur] is the
    current piece, reversed. *)
Fixpoint splitGo (sep : string -> nat) (s : string) (skip : nat) (cur : string)
  : list string :=
  match s with
  | EmptyString => [reverse cur]
  | String c s' =>
      match skip with
      | S n => splitGo sep s' n cur
      | O =>
          match sep s with
          | O => splitGo sep s' 0 (String c cur)
          | S n => reverse cur :: splitGo sep s' n EmptyString
          end
      end
  end.

Definition split (sep : string -> nat) (s : string) : list string :=
  splitGo sep s 0 EmptyString.

End JS.

(** ** External collaborators *)

(** [encodingForModel("gpt-4o-mini")]: [enc.encode] and [enc.decode]. *)
Class Tokenizer := {
  encode : string -> list nat;
  decode : list nat -> string
}.

(** [embed([t])[0]] for one text: the model is applied text by text. *)
Class Embedder := { embedOne : string -> list R }.

(** [crypto.createHash('md5').update(text).digest('hex')]. *)
Class Hasher := { md5hex : string -> string }.

(** ** lib/chunker.js: the token-window chunker *)

Module Chunker.

Record chunk := { text : string; start : Z; stop : Z }.

Section WithTokenizer.
Context `{Tokenizer}.

(** One evaluation of the loop condition and, if it holds, of the body
    followed by the increment: [inr] when the loop is left. *)
Definition step (ids : list nat) (maxTokens overlapTokens : nat)
  (st : Z * list chunk) : (Z * list chunk) + list chunk :=
  let '(start, chunks) := st in
  let len := Z.of_nat (List.length ids) in
  if (start <? len)%Z then
    let stop := Z.min (start + Z.of_nat maxTokens) len in
    let sub := JS.sliceArr start stop ids in
    let chunks' := chunks ++ [{| text := decode sub; start := start; stop := stop |}] in
    if (stop =? len)%Z then inr chunks'
    else inl ((start + (Z.of_nat maxTokens - Z.of_nat overlapTokens))%Z, chunks')
  else inr chunks.

Fixpoint loop (fuel : nat) (ids : list nat) (maxTokens overlapTokens : nat)
  (st : Z * list chunk) : option (list chunk) :=
  match fuel with
  | O => None
  | S fuel' =>
      match step ids maxTokens overlapTokens st with
      | inr out => Some out
      | inl st' => loop fuel' ids maxTokens overlapTokens st'
      end
  end.

(** [chunkText(text, maxTokens, overlapTokens)] run for at most [fuel]
    evaluations of the loop condition. *)
Definition chunkText (fuel : nat) (text : string) (maxTokens overlapTokens : nat)
  : option (list chunk) :=
  loop fuel (encode text) maxTokens overlapTokens (0%Z, []).

End WithTokenizer.
End Chunker.

(** ** lib/stores-enhanced.js *)

Module Enhanced.

Definition newline : string := String (ascii_of_nat 10) EmptyString.

(** *** chunkTextEnhanced: the sentence-accumulating chunker *)

Record chunk := { text : string; start : nat; stop : nat; tokens : nat }.

(** The variables of the loop: the array [chunks], [currentChunk] and
    [currentTokens]. *)
Record acc := {
  chunks : list chunk;
  currentChunk : string;
  currentTokens : nat
}.

Definition closeChunk (a : acc) : chunk :=
  {| text := JS.trim (currentChunk a);
     start := List.length (chunks a);
     stop := List.length (chunks a) + 1;
     tokens := currentTokens a |}.

Section WithTokenizer.
Context `{Tokenizer}.

Definition countTokens (text : string) : nat := List.length (encode text).

(** The body of the inner loop, for one sentence. *)
Definition addSentence (maxTokens overlapTokens : nat) (a : acc) (sentence : string)
  : acc :=
  if (String.length (JS.trim sentence) =? 0)%nat then a
  else
    let sentenceTokens := countTokens sentence in
    if (maxTokens <? currentTokens a + sentenceTokens)%nat
       && (0 <? String.length (currentChunk a))%nat
    then
      let overlapText :=
        JS.sliceFrom (- Z.of_nat overlapTokens * 4)%Z (currentChunk a) in
      {| chunks := chunks a ++ [closeChunk a];
         currentChunk := overlapText +:+ sentence +:+ ". ";
         currentTokens := countTokens overlapText + sentenceTokens |}
    else
      {| chunks := chunks a;
         currentChunk := currentChunk a +:+ sentence +:+ ". ";
         currentTokens := currentTokens a + sentenceTokens |}.

(** The body of the outer loop, for one paragraph. *)
Definition addParagraph (maxTokens overlapTokens : nat) (a : acc) (paragraph : string)
  : acc :=
  if (String.length (JS.trim paragraph) =? 0)%nat then a
  else
    let a' := fold_left (addSentence maxTokens overlapTokens)
                (JS.split JS.sepTerminators paragraph) a in
    {| chunks := chunks a';
       currentChunk := currentChunk a' +:+ newline +:+ newline;
       currentTokens := currentTokens a' |}.

Definition chunkTextEnhanced (text : string) (maxTokens overlapTokens : nat)
  : list chunk :=
  let a := fold_left (addParagraph maxTokens overlapTokens)
             (JS.split JS.sepBlankLine text)
             {| chunks := []; currentChunk := ""; currentTokens := 0 |} in
  if (0 <? String.length (JS.trim (currentChunk a)))%nat
  then chunks a ++ [closeChunk a]
  else chunks a.

End WithTokenizer.

(** *** Scoring *)

Open Scope R_scope.

(** How a run of the search leaves the model: with [TypeError] a property
    of [undefined] is read and the run throws; with [NotANumber] an operand
    of the arithmetic is [undefined], so that the scores are NaN and no
    longer real numbers. *)
Inductive failure := TypeError | NotANumber.

(** The loop of [cosSim]: [None] when [b] is shorter than [a], where the
    program reads [undefined] and the sums become NaN. *)
Fixpoint cosLoop (a b : list R) (dot na nb : R) : option (R * R * R) :=
  match a with
  | [] => Some (dot, na, nb)
  | x :: a' =>
      match b with
      | [] => None
      | y :: b' => cosLoop a' b' (dot + x * y) (na + x * x) (nb + y * y)
      end
  end.

Definition cosSim (a b : list R) : failure + R :=
  match cosLoop a b 0 0 0 with
  | Some (dot, na, nb) => inr (dot / (sqrt na * sqrt nb + 1e-12))
  | None => inl NotANumber
  end.

(** [cosSim(q, vectors[idx])]: with [vectors[idx]] undefined the loop body
    throws at its first turn, and is not entered when [q] is empty. *)
Definition cosSimAt (q : list R) (v : option (list R)) : failure + R :=
  match v with
  | Some b => cosSim q b
  | None => match q with [] => cosSim [] [] | _ :: _ => inl TypeError end
  end.

(** One turn of the loop of [calculateTextRelevance]. *)
Definition addWord (textWords : list string) (score : R) (word : string) : R :=
  if (String.length word <? 3)%nat then score
  else
    let wordCount := List.length (List.filter (fun w => JS.includes word w) textWords) in
    let textLength := List.length textWords in
    if (0 <? wordCount)%nat
    then score + (INR wordCount / INR textLength)
                 * ln (1 + INR textLength / INR wordCount)
    else score.

Definition calculateTextRelevance (query text : string) : R :=
  let queryWords := JS.split JS.sepSpaces (JS.toLowerCase query) in
  let textWords := JS.split JS.sepSpaces (JS.toLowerCase text) in
  fold_left (addWord textWords) queryWords 0.

Close Scope R_scope.

(** *** The persisted index *)

(** [doc.metadata] of a document handed to [saveVectorStore]. *)
Record docMeta := {
  dm_source : string;
  dm_tags : list string;
  dm_section : string;
  dm_checksum : string
}.

Record inputDoc := { in_pageContent : string; in_metadata : docMeta }.

(** The metadata record of one chunk. *)
Record chunkMeta := {
  id : string;
  source : string;
  pageSpan : string;
  section : string;
  tags : list string;
  version : string;
  chunkIndex : nat;
  totalChunks : nat;
  originalLength : nat;
  m_tokens : nat;
  dateIngested : string;
  checksum : string
}.

Record document := { pageContent : string; metadata : chunkMeta }.

Record docEntry := {
  e_text : string;
  e_metadata : chunkMeta;
  e_vector : list R
}.

(** vectors.json ([ids], [vectors]), docs.json ([docsMap]) and meta.json. *)
Record store := {
  ids : list string;
  vectors : list (list R);
  docsMap : gmap string docEntry;
  meta : list chunkMeta
}.

Section WithModels.
Context `{Tokenizer} `{Embedder} `{Hasher}.

(** The clock: [now n] is what [new Date().toISOString()] returns when the
    chunk that receives the counter value [n] is built. *)
Variable now : nat -> string.

(** The callback of [chunks.forEach] for the chunk at index [i]; the state
    is [idCounter] and [processedDocs]. *)
Definition pushChunk (doc : inputDoc) (total : nat)
  (st : nat * list document) (ic : nat * chunk) : nat * list document :=
  let '(idCounter, processedDocs) := st in
  let '(i, c) := ic in
  let idCounter' := S idCounter in
  let m := {| id := pretty idCounter';
              source := dm_source (in_metadata doc);
              pageSpan := "Chunk " +:+ pretty (i + 1) +:+ "/" +:+ pretty total;
              section := dm_section (in_metadata doc);
              tags := dm_tags (in_metadata doc);
              version := "v3";
              chunkIndex := i;
              totalChunks := total;
              originalLength := String.length (in_pageContent doc);
              m_tokens := tokens c;
              dateIngested := now idCounter';
              checksum := md5hex (in_pageContent doc) |} in
  (idCounter', processedDocs ++ [{| pageContent := text c; metadata := m |}]).

Definition pushDoc (st : nat * list document) (doc : inputDoc) : nat * list document :=
  let cs := chunkTextEnhanced (in_pageContent doc) 800 120 in
  fold_left (pushChunk doc (List.length cs)) (combine (seq 0 (List.length cs)) cs) st.

Definition processDocs (docs : list inputDoc) : list document :=
  snd (fold_left pushDoc docs (0, [])).

(** [embed(texts)]. *)
Definition embed (texts : list string) : list (list R) := List.map embedOne texts.

(** The callback of [processedDocs.forEach] that fills [docsMap]:
    [docsMap[ids[i]] = {text, metadata, vector: vectors[i]}].  Both arrays
    are as long as [processedDocs], so the two reads are in range. *)
Definition putDoc (idsArr : list string) (vecs : list (list R))
  (m : gmap string docEntry) (id_ : nat * document) : gmap string docEntry :=
  let '(i, d) := id_ in
  match idsArr !! i, vecs !! i with
  | Some key, Some v =>
      <[ key := {| e_text := pageContent d; e_metadata := metadata d; e_vector := v |} ]> m
  | _, _ => m
  end.

(** [saveVectorStore(docs)]: what it leaves in the three files. *)
Definition saveVectorStore (docs : list inputDoc) : store :=
  let processedDocs := processDocs docs in
  let texts := List.map pageContent processedDocs in
  let vecs := embed texts in
  let idsArr := List.map (fun d => id (metadata d)) processedDocs in
  {| ids := idsArr;
     vectors := vecs;
     docsMap := fold_left (putDoc idsArr vecs)
                  (combine (seq 0 (List.length processedDocs)) processedDocs) ∅;
     meta := List.map metadata processedDocs |}.

End WithModels.

(** *** loadVectorStore().similaritySearchWithScore *)

Record scoreRec := {
  s_id : string;
  s_idx : nat;
  vectorScore : R;
  textScore : R
}.

(** What the search hands back for a chunk: [{pageContent, metadata}]. *)
Record resultDoc := { r_pageContent : string; r_metadata : chunkMeta }.

Record scoredDoc := { sd_id : string; score : R; doc : resultDoc }.

(** [Math.min(...xs)] and [Math.max(...xs)]; [None] stands for the
    infinity returned on an empty array. *)
Definition mathMin (xs : list R) : option R :=
  match xs with
  | [] => None
  | x :: t => Some (fold_left Rmin t x)
  end.

Definition mathMax (xs : list R) : option R :=
  match xs with
  | [] => None
  | x :: t => Some (fold_left Rmax t x)
  end.

(** The callback of the first [ids.map]: [cosSim] is called first, then
    [docsMap[id].text] is read, which throws when [docsMap[id]] is
    undefined. *)
Definition scoreOf (st : store) (query : string) (q : list R) (idx : nat) (i : string)
  : failure + scoreRec :=
  match cosSimAt q (vectors st !! idx) with
  | inl TypeError => inl TypeError
  | vs =>
      match docsMap st !! i with
      | None => inl TypeError
      | Some e =>
          match vs with
          | inl f => inl f
          | inr v =>
              inr {| s_id := i; s_idx := idx; vectorScore := v;
                     textScore := calculateTextRelevance query (e_text e) |}
          end
      end
  end.

(** [ids.map] from position [idx] on: a throw ends the run where it occurs;
    a NaN does not, so that a later throw still takes place. *)
Fixpoint scoresFrom (st : store) (query : string) (q : list R) (idx : nat)
  (l : list string) : failure + list scoreRec :=
  match l with
  | [] => inr []
  | i :: l' =>
      match scoreOf st query q idx i with
      | inl TypeError => inl TypeError
      | inl NotANumber =>
          match scoresFrom st query q (S idx) l' with
          | inl TypeError => inl TypeError
          | _ => inl NotANumber
          end
      | inr s =>
          match scoresFrom st query q (S idx) l' with
          | inl f => inl f
          | inr ss => inr (s :: ss)
          end
      end
  end.

(** The callback of [scores.map]: normalise, blend, attach the document;
    [None] when [docsMap[s.id]] is undefined and the callback throws. *)
Definition combine1 (st : store) (minVec maxVec minTxt maxTxt : R) (s : scoreRec)
  : option scoredDoc :=
  match docsMap st !! s_id s with
  | None => None
  | Some e =>
      let normVec := ((vectorScore s - minVec) / (maxVec - minVec + 1e-9))%R in
      let normTxt := ((textScore s - minTxt) / (maxTxt - minTxt + 1e-9))%R in
      let combinedScore := (normVec * 0.7 + normTxt * 0.3)%R in
      Some {| sd_id := s_id s; score := combinedScore;
              doc := {| r_pageContent := e_text e; r_metadata := e_metadata e |} |}
  end.

(** [scored.sort((a, b) => b.score - a.score)]: the sort is stable, so the
    result is the one an insertion from the right computes: an element goes
    behind every element of strictly higher score and before the others. *)
Fixpoint insertDesc (x : scoredDoc) (l : list scoredDoc) : list scoredDoc :=
  match l with
  | [] => [x]
  | y :: l' =>
      if Rlt_dec (score x) (score y) then y :: insertDesc x l' else x :: l
  end.

Definition sortDesc (l : list scoredDoc) : list scoredDoc :=
  fold_right insertDesc [] l.

Section WithEmbedder.
Context `{Embedder}.

Definition similaritySearchWithScore (st : store) (query : string) (k : Z)
  : failure + list (resultDoc * R) :=
  let q := embedOne query in
  match scoresFrom st query q 0 (ids st) with
  | inl f => inl f
  | inr scores =>
      let vectorScores := List.map vectorScore scores in
      let textScores := List.map textScore scores in
      let scored :=
        match mathMin vectorScores, mathMax vectorScores,
              mathMin textScores, mathMax textScores with
        | Some minVec, Some maxVec, Some minTxt, Some maxTxt =>
            mapM (combine1 st minVec maxVec minTxt maxTxt) scores
        | _, _, _, _ => Some []
        end in
      match scored with
      | None => inl TypeError
      | Some sc =>
          inr (List.map (fun s => (doc s, (1 - score s)%R))
                 (JS.sliceArr 0 k (sortDesc sc)))
      end
  end.

End WithEmbedder.

(** *** checkDocumentStatus *)

(** What the program sees of the docs directory: the names [readdirSync]
    lists ([None] when it throws), the text of a file read as UTF-8, the
    size and modification time [statSync] reports, and the text pdf-parse
    extracts.  [None] is a call that throws. *)
Record fileSystem := {
  readdir : option (list string);
  readText : string -> option string;
  statOf : string -> option (N * Z);
  pdfText : string -> option string
}.

(** A value of the [existingDocs] map. *)
Record existing := {
  ex_chunks : list chunkMeta;
  checksums : gset string;
  lastIngested : string
}.

Record status := {
  unchanged : list string;
  modified : list string;
  new : list string;
  deleted : list string
}.

(** [existingDocs] is a [Map]: it iterates in insertion order, so it is a
    list of bindings with distinct keys. *)
Fixpoint mapGet {V} (key : string) (m : list (string * V)) : option V :=
  match m with
  | [] => None
  | (k', v) :: m' => if String.eqb k' key then Some v else mapGet key m'
  end.

(** The callback of [meta.forEach]. *)
Fixpoint groupChunk (m : chunkMeta) (docs : list (string * existing))
  : list (string * existing) :=
  match docs with
  | [] => [(source m, {| ex_chunks := [m];
                         checksums := {[ checksum m ]};
                         lastIngested := dateIngested m |})]
  | (k', e) :: docs' =>
      if String.eqb k' (source m)
      then (k', {| ex_chunks := ex_chunks e ++ [m];
                   checksums := checksums e ∪ {[ checksum m ]};
                   lastIngested := lastIngested e |}) :: docs'
      else (k', e) :: groupChunk m docs'
  end.

Definition groupBySource (metaList : list chunkMeta) : list (string * existing) :=
  fold_left (fun docs m => groupChunk m docs) metaList [].

Definition isSourceFile (f : string) : bool :=
  JS.endsWith ".pdf" f || JS.endsWith ".txt" f || JS.endsWith ".md" f.

(** The text whose checksum stands for the file, [None] when reading or
    [statSync] throws. *)
Definition fingerprintText (fs : fileSystem) (filename : string) : option string :=
  if JS.endsWith ".pdf" filename then
    match statOf fs filename with
    | Some (size, mtime) => Some (filename +:+ "-" +:+ pretty size +:+ "-" +:+ pretty mtime)
    | None => None
    end
  else readText fs filename.

Section WithHasher.
Context `{Hasher}.

(** The callback of [files.forEach], with its [try]/[catch]. *)
Definition classify (existingDocs : list (string * existing)) (fs : fileSystem)
  (st : status) (filename : string) : status :=
  match fingerprintText fs filename with
  | Some content =>
      let currentChecksum := md5hex content in
      match mapGet filename existingDocs with
      | Some ex =>
          if bool_decide (currentChecksum ∈ checksums ex)
          then {| unchanged := unchanged st ++ [filename]; modified := modified st;
                  new := new st; deleted := deleted st |}
          else {| unchanged := unchanged st; modified := modified st ++ [filename];
                  new := new st; deleted := deleted st |}
      | None =>
          {| unchanged := unchanged st; modified := modified st;
             new := new st ++ [filename]; deleted := deleted st |}
      end
  | None =>
      {| unchanged := unchanged st; modified := modified st ++ [filename];
         new := new st; deleted := deleted st |}
  end.

(** The callback of [existingDocs.forEach]. *)
Definition markDeleted (files : list string) (st : status) (kv : string * existing)
  : status :=
  if negb (bool_decide (fst kv ∈ files))
  then {| unchanged := unchanged st; modified := modified st;
          new := new st; deleted := deleted st ++ [fst kv] |}
  else st.

(** [checkDocumentStatus(docsDir)] with meta.json holding [metaList]; [None]
    is the [null] of the outer [catch]. *)
Definition checkDocumentStatus (fs : fileSystem) (metaList : list chunkMeta)
  : option status :=
  let existingDocs := groupBySource metaList in
  match readdir fs with
  | None => None
  | Some names =>
      let files := List.filter isSourceFile names in
      let st0 := {| unchanged := []; modified := []; new := []; deleted := [] |} in
      let st1 := fold_left (classify existingDocs fs) files st0 in
      Some (fold_left (markDeleted files) existingDocs st1)
  end.

End WithHasher.

End Enhanced.

(** ** scripts/ingest-enhanced: one run of the ingestion script *)

Module Ingest.
Import Enhanced.

(** [inferTags(content, filename)]. *)
Definition inferTags (content filename : string) : list string :=
  let lowerContent := JS.toLowerCase content in
  let lowerFilename := JS.toLowerCase filename in
  let kw (word tag : string) : list string :=
    if JS.includes word lowerContent || JS.includes word lowerFilename
    then [tag] else [] in
  let ext (suffix tag : string) : list string :=
    if JS.endsWith suffix filename then [tag] else [] in
  let found :=
    kw "pricing" "pricing" ++ kw "retention" "retention" ++ kw "offer" "offers"
    ++ kw "conversion" "conversion" ++ kw "playbook" "playbook"
    ++ kw "strategy" "strategy" ++ kw "marketing" "marketing" ++ kw "sales" "sales"
    ++ ext ".pdf" "pdf" ++ ext ".txt" "text" ++ ext ".md" "markdown" in
  if (0 <? List.length found)%nat then found else ["business"; "document"].

(** How a run ends: [process.exit(code)], or the index [saveVectorStore]
    wrote. *)
Inductive outcome :=
| Exit (exitCode : nat)
| Saved (st : store).

(** The command line: the value of [--file=], when there is one and it is
    not empty, and the comma-separated values of [--tags=]. *)
Record cli := { targetFile : option string; cliTags : option (list string) }.

Definition inList (x : string) (l : list string) : bool := bool_decide (x ∈ l).

(** [filesToProcess], or the exit taken while choosing it.  A [null]
    status reads as empty lists through [status?.]. *)
Definition filesToProcess (args : cli) (st : option status) : nat + list string :=
  let field (f : status -> list string) : list string :=
    match st with Some s => f s | None => [] end in
  match targetFile args with
  | Some t =>
      if inList t (field new) || inList t (field modified) then inr [t]
      else if inList t (field unchanged) then inl 0 else inl 1
  | None =>
      let l := field new ++ field modified in
      if (List.length l =? 0)%nat then inl 0 else inr l
  end.

(** The body of the loop over [filesToProcess], with its [try]/[catch]: a
    file that cannot be read is skipped. *)
Definition loadDocument (args : cli) (fs : fileSystem) (documents : list inputDoc)
  (filename : string) : list inputDoc :=
  let content :=
    if JS.endsWith ".pdf" filename then pdfText fs filename else readText fs filename in
  match content with
  | None => documents
  | Some c =>
      let given := match cliTags args with Some t => t | None => [] end in
      let detectedTags :=
        if (List.length given =? 0)%nat then inferTags c filename else given in
      documents ++ [{| in_pageContent := c;
                       in_metadata := {| dm_source := filename; dm_tags := detectedTags;
                                         dm_section := ""; dm_checksum := "" |} |}]
  end.

Section WithModels.
Context `{Tokenizer} `{Embedder} `{Hasher}.
Variable now : nat -> string.

(** One run of the script against the directory [fs], with meta.json
    holding [metaList] when it starts. *)
Definition run (args : cli) (fs : fileSystem) (metaList : list chunkMeta) : outcome :=
  match filesToProcess args (checkDocumentStatus fs metaList) with
  | inl c => Exit c
  | inr files =>
      let documents := fold_left (loadDocument args fs) files [] in
      if (List.length documents =? 0)%nat then Exit 1
      else Saved (saveVectorStore now documents)
  end.

End WithModels.
End Ingest.

(** ** pages/api/ask.ts: the handler *)

Module Ask.
Import Enhanced.

Definition quote : string := String (ascii_of_nat 34) EmptyString.
Definition nl : string := Enhanced.newline.

(** An element of [formattedContexts]. *)
Record formattedContext := {
  fc_id : string;
  fc_text : string;
  fc_source : string;
  fc_score : string;
  fc_tags : list string;
  fc_pageSpan : string;
  fc_chunkIndex : nat;
  fc_totalChunks : nat
}.

(** The JSON body of a reply with status 200; [noContext] is [None] where
    the object has no such key. *)
Record body := {
  answer : string;
  contexts : list formattedContext;
  totalDocuments : nat;
  searchResults : nat;
  system : string;
  insufficient : bool;
  noContext : option bool
}.

(** The replies: status 200 with a body, status 400 from the [catch], and
    the reply sent when the scores are NaN, whose body is outside the
    model. *)
Inductive response :=
| Ok200 (b : body)
| Bad400
| NaNReply.

Record request := { query : string; systemPrompt : string; k : Z }.

(** [s || fallback] on strings: the empty string is falsy. *)
Definition orElse (s fallback : string) : string :=
  if (String.length s =? 0)%nat then fallback else s.

Definition insufficientResponse (q : string) (metaLength found : nat) : string :=
  "Insufficient corpus for query: " +:+ quote +:+ q +:+ quote +:+ nl +:+ nl
  +:+ "**Available documents:** " +:+ pretty metaLength +:+ " total" +:+ nl
  +:+ "**Relevant chunks found:** " +:+ pretty found +:+ nl +:+ nl
  +:+ "**Recommendation:** Upload more documents related to this topic or try a different query.".

Definition noContextResponse (q : string) (metaLength : nat) : string :=
  "No relevant content found for query: " +:+ quote +:+ q +:+ quote +:+ nl +:+ nl
  +:+ "**Available documents:** " +:+ pretty metaLength +:+ " total" +:+ nl
  +:+ "**Search results:** 0" +:+ nl +:+ nl
  +:+ "**Possible issues:**" +:+ nl
  +:+ "- Query doesn't match any document content" +:+ nl
  +:+ "- Documents may not be properly indexed" +:+ nl
  +:+ "- Try re-running ingestion with: npm run ingest" +:+ nl +:+ nl
  +:+ "**Recommendation:** Check your documents and try a different query or re-index your documents.".

Section WithRuntime.
Context `{Embedder}.

(** [score.toFixed(3)]. *)
Variable toFixed3 : R -> string.
(** [Math.random().toString()], read when a chunk has no id. *)
Variable randomString : string.
(** [generateEnhanced(systemPrompt, query, contexts)]: the call to the
    language model, with its fallback text. *)
Variable generateEnhanced : string -> string -> list (resultDoc * R) -> string.

Definition formatContext (c : resultDoc * R) : formattedContext :=
  let '(d, sc) := c in
  {| fc_id := orElse (id (r_metadata d)) randomString;
     fc_text := r_pageContent d;
     fc_source := orElse (source (r_metadata d)) "Unknown";
     fc_score := toFixed3 sc;
     fc_tags := tags (r_metadata d);
     fc_pageSpan := pageSpan (r_metadata d);
     fc_chunkIndex := chunkIndex (r_metadata d);
     fc_totalChunks := totalChunks (r_metadata d) |}.

(** The handler from the point where retrieval has returned [ctxs]: the
    three [if] statements in the order of the source. *)
Definition respond (req : request) (metaLength : nat) (ctxs : list (resultDoc * R))
  : body :=
  let formattedContexts := List.map formatContext ctxs in
  if (List.length ctxs <? 2)%nat then
    {| answer := insufficientResponse (query req) metaLength (List.length ctxs);
       contexts := formattedContexts;
       totalDocuments := metaLength;
       searchResults := List.length ctxs;
       system := "enhanced";
       insufficient := true;
       noContext := None |}
  else if (List.length ctxs =? 0)%nat then
    {| answer := noContextResponse (query req) metaLength;
       contexts := [];
       totalDocuments := metaLength;
       searchResults := 0;
       system := "enhanced";
       insufficient := true;
       noContext := Some true |}
  else
    {| answer := generateEnhanced (systemPrompt req) (query req) ctxs;
       contexts := formattedContexts;
       totalDocuments := metaLength;
       searchResults := List.length ctxs;
       system := "enhanced";
       insufficient := false;
       noContext := None |}.

(** [handler]: the body is validated ([query] of 3 characters or more,
    [systemPrompt] of 10 or more), the index is loaded ([None] when its
    files are missing) and searched; whatever throws ends in the [catch]. *)
Definition handler (req : request) (index : option store) : response :=
  if (String.length (query req) <? 3)%nat || (String.length (systemPrompt req) <? 10)%nat
  then Bad400
  else
    match index with
    | None => Bad400
    | Some st =>
        match similaritySearchWithScore st (query req) (k req) with
        | inl TypeError => Bad400
        | inl NotANumber => NaNReply
        | inr ctxs => Ok200 (respond req (List.length (meta st)) ctxs)
        end
    end.

End WithRuntime.
End Ask.

(** ** lib/stores.js: the plain cosine store *)

Module SimpleStore.
Import Enhanced.

(** The store reads vectors.json and docs.json as the enhanced store does;
    of an entry of docs.json it uses the text and the metadata. *)

(** The callback of [ids.map]: the object literal evaluates
    [cosSim(q, vectors[idx])] first, then reads [docsMap[id].text], which
    throws when [docsMap[id]] is undefined. *)
Definition scoredOf (st : store) (q : list R) (idx : nat) (i : string)
  : failure + scoredDoc :=
  match cosSimAt q (vectors st !! idx) with
  | inl TypeError => inl TypeError
  | vs =>
      match docsMap st !! i with
      | None => inl TypeError
      | Some e =>
          match vs with
          | inl f => inl f
          | inr v =>
              inr {| sd_id := i; score := v;
                     doc := {| r_pageContent := e_text e; r_metadata := e_metadata e |} |}
          end
      end
  end.

Fixpoint scoredFrom (st : store) (q : list R) (idx : nat) (l : list string)
  : failure + list scoredDoc :=
  match l with
  | [] => inr []
  | i :: l' =>
      match scoredOf st q idx i with
      | inl TypeError => inl TypeError
      | inl NotANumber =>
          match scoredFrom st q (S idx) l' with
          | inl TypeError => inl TypeError
          | _ => inl NotANumber
          end
      | inr s =>
          match scoredFrom st q (S idx) l' with
          | inl f => inl f
          | inr ss => inr (s :: ss)
          end
      end
  end.

Section WithEmbedder.
Context `{Embedder}.

Definition similaritySearchWithScore (st : store) (query : string) (k : Z)
  : failure + list (resultDoc * R) :=
  match scoredFrom st (embedOne query) 0 (ids st) with
  | inl f => inl f
  | inr scored =>
      inr (List.map (fun s => (doc s, (1 - score s)%R))
             (JS.sliceArr 0 k (sortDesc scored)))
  end.

End WithEmbedder.
End SimpleStore.

(** ** pages/api/status: the document status endpoint *)

Module StatusApi.
Import Enhanced.

Record summary := {
  total : nat;
  s_unchanged : nat;
  s_modified : nat;
  s_new : nat;
  s_deleted : nat
}.

(** The replies: status 200 with [status] and [summary], 405 for a method
    other than GET, 500 from the [catch]. *)
Inductive reply :=
| Json200 (st : status) (sm : summary)
| Error405
| Error500.

(** [handler]: [status] is what [checkDocumentStatus("./docs")] returned,
    [None] for [null]. *)
Definition handler (method : string) (st : option status) : reply :=
  if negb (String.eqb method "GET") then Error405
  else
    match st with
    | None =>
        Json200 {| unchanged := []; modified := []; new := []; deleted := [] |}
          {| total := 0; s_unchanged := 0; s_modified := 0; s_new := 0; s_deleted := 0 |}
    | Some s =>
        Json200 s
          {| total := List.length (unchanged s) + List.length (modified s)
                      + List.length (new s);
             s_unchanged := List.length (unchanged s);
             s_modified := List.length (modified s);
             s_new := List.length (new s);
             s_deleted := List.length (deleted s) |}
    end.

End StatusApi.

(** ** analyzeDocuments: statistics over the persisted index *)

Module Analyze.
Import Enhanced.

(** A value of the objects [analysis.tags] and [analysis.sourceBreakdown]:
    a count, or what [(x || 0) + 1] gives when [x] is not a number (a
    string). *)
Inductive tally := Count (n : nat) | NotCount.

(** The property names every object inherits from [Object.prototype]. *)
Definition inheritedNames : list string :=
  ["constructor"; "__defineGetter__"; "__defineSetter__"; "hasOwnProperty";
   "__lookupGetter__"; "__lookupSetter__"; "isPrototypeOf"; "propertyIsEnumerable";
   "toString"; "valueOf"; "__proto__"; "toLocaleString"].

Definition inherited (key : string) : bool := bool_decide (key ∈ inheritedNames).

(** [obj[key] = (obj[key] || 0) + 1] on an object that started as [{}]:
    an own count is incremented; a key that is not an own property reads
    as [undefined], unless it names an inherited property, which reads as
    a function or an object, so that the sum is a string; a string stays
    a string; the assignment to [__proto__] of a string is ignored. *)
Definition bump (obj : gmap string tally) (key : string) : gmap string tally :=
  match obj !! key with
  | Some (Count n) => <[ key := Count (n + 1) ]> obj
  | Some NotCount => obj
  | None =>
      if String.eqb key "__proto__" then obj
      else if inherited key then <[ key := NotCount ]> obj
      else <[ key := Count 1 ]> obj
  end.

(** [[...new Set(xs)]]: the distinct elements in the order of their first
    occurrence. *)
Definition distinct (xs : list string) : list string :=
  fold_left (fun seen x => if bool_decide (x ∈ seen) then seen else seen ++ [x]) xs [].

(** [Math.round(total / n)] on counts; [None] is NaN, for [0 / 0]. *)
Definition roundedMean (total n : nat) : option nat :=
  if (n =? 0)%nat then None else Some ((2 * total + n) / (2 * n))%nat.

(** The object [analysis]; [tagCounts] is its field [tags]. *)
Record analysis := {
  totalDocuments : nat;
  sources : list string;
  totalChunks : nat;
  averageChunkSize : option nat;
  tagCounts : gmap string tally;
  sourceBreakdown : gmap string tally;
  needsReingestion : list string
}.

(** The callback of [meta.forEach]; the state is [totalTextLength],
    [analysis.tags] and [analysis.sourceBreakdown].  [docsMap[m.id]?.text]
    is undefined when docs.json has no entry under the id, so that 0 is
    added. *)
Definition visit (docs : gmap string docEntry)
  (st : nat * gmap string tally * gmap string tally) (m : chunkMeta)
  : nat * gmap string tally * gmap string tally :=
  let '(totalTextLength, tagObj, srcObj) := st in
  let len := match docs !! id m with
             | Some e => String.length (e_text e)
             | None => 0%nat
             end in
  ((totalTextLength + len)%nat, fold_left bump (tags m) tagObj, bump srcObj (source m)).

(** [analyzeDocuments()], with meta.json holding [metaList] ([[]] when the
    file cannot be read) and docs.json holding [docs]; [None] is the [null]
    of the [catch], taken when docs.json cannot be read. *)
Definition analyzeDocuments (metaList : list chunkMeta)
  (docs : option (gmap string docEntry)) : option analysis :=
  match docs with
  | None => None
  | Some dm =>
      let '(totalTextLength, tagObj, srcObj) :=
        fold_left (visit dm) metaList (0%nat, ∅, ∅) in
      Some {| totalDocuments := List.length metaList;
              sources := distinct (List.map source metaList);
              totalChunks := List.length metaList;
              averageChunkSize := roundedMean totalTextLength (List.length metaList);
              tagCounts := tagObj;
              sourceBreakdown := srcObj;
              needsReingestion := [] |}
  end.

(** The replies of the analysis endpoint: status 200 with the analysis, 404
    when [analyzeDocuments] returned [null], 405 for a method other than
    GET, 500 from the [catch]. *)
Inductive reply :=
| Analysis200 (a : analysis)
| Error404
| Error405
| Error500.

Definition handler (method : string) (metaList : list chunkMeta)
  (docs : option (gmap string docEntry)) : reply :=
  if negb (String.eqb method "GET") then Error405
  else
    match analyzeDocuments metaList docs with
    | None => Error404
    | Some a => Analysis200 a
    end.

End Analyze.

(** ** Notions used to state the properties *)

Module Notions.
Import Enhanced.

(** *** Sentences and budgets *)

Definition nonBlank (s : string) : bool := negb (String.length (JS.trim s) =? 0)%nat.

(** The sentences the chunker meets, in order: the non-blank pieces of the
    non-blank paragraphs. *)
Definition sentencesOf (text : string) : list string :=
  flat_map (fun p => List.filter nonBlank (JS.split JS.sepTerminators p))
    (List.filter nonBlank (JS.split JS.sepBlankLine text)).

Fixpoint allChars (p : ascii -> bool) (s : string) : bool :=
  match s with
  | EmptyString => true
  | String c s' => p c && allChars p s'
  end.

Fixpoint hasNonSpace (s : string) : bool :=
  match s with
  | EmptyString => false
  | String c s' => negb (JS.isSpace c) || hasNonSpace s'
  end.

(** A character that ends neither a sentence nor a line. *)
Definition plainChar (c : ascii) : bool :=
  negb (JS.isTerminator c) && negb (JS.isNewline c).

(** A sentence as the chunker meets it: not blank, without terminator or
    line feed. *)
Definition plainSentence (s : string) : Prop :=
  allChars plainChar s = true /\ nonBlank s = true.

(** The text seeded into the chunk that follows a chunk holding the one
    sentence [s1]: [currentChunk.slice(-overlapTokens * 4)]. *)
Definition seedAfter (overlapTokens : nat) (s1 : string) : string :=
  JS.sliceFrom (- Z.of_nat overlapTokens * 4)%Z (s1 +:+ ". ").

Section WithTokenizer.
Context `{Tokenizer}.

(** A recorded count is accounted for when it is within the budget, or is
    the count of one sentence, alone or behind a seeded overlap text. *)
Definition accounted (m : nat) (sent : string -> Prop) (n : nat) : Prop :=
  (n <= m)%nat
  \/ exists s, sent s
       /\ (n = countTokens s \/ exists ov, n = (countTokens ov + countTokens s)%nat).

Definition accInv (m : nat) (sent : string -> Prop) (a : acc) : Prop :=
  Forall (fun c => accounted m sent (tokens c)) (chunks a)
  /\ accounted m sent (currentTokens a)
  /\ (String.length (currentChunk a) = 0%nat -> currentTokens a = 0%nat).

End WithTokenizer.

(** *** Scores and order *)

Open Scope R_scope.

(** The score as the specification words it: for one query token with
    [matchCount] matching chunk tokens out of [chunkTokenCount], the term
    [(matchCount / chunkTokenCount) * ln (1 + chunkTokenCount / matchCount)],
    and 0 when nothing matches. *)
Definition termOf (matchCount chunkTokenCount : nat) : R :=
  if (matchCount =? 0)%nat then 0
  else (INR matchCount / INR chunkTokenCount)
       * ln (1 + INR chunkTokenCount / INR matchCount).

Definition matchCount (token : string) (chunkTokens : list string) : nat :=
  List.length (List.filter (fun w => JS.includes token w) chunkTokens).

Definition lowerTokens (s : string) : list string :=
  JS.split JS.sepSpaces (JS.toLowerCase s).

(** The sum over the query tokens of three characters or more. *)
Definition textScoreSpec (query text : string) : R :=
  fold_right Rplus 0
    (List.map (fun token => termOf (matchCount token (lowerTokens text))
                                   (List.length (lowerTokens text)))
       (List.filter (fun token => (3 <=? String.length token)%nat) (lowerTokens query))).

Definition descending : list scoredDoc -> Prop :=
  StronglySorted (fun a b => score b <= score a).

(** The index is well formed for a query vector [q] when every id has a
    vector at its position, at least as long as [q], and an entry in
    [docsMap]. *)
Definition wellFormed (st : store) (q : list R) : Prop :=
  forall idx i, ids st !! idx = Some i ->
    (exists v, vectors st !! idx = Some v /\ (List.length q <= List.length v)%nat)
    /\ is_Some (docsMap st !! i).

(** The blend of two scores normalised over a set that holds only them. *)
Definition blendAlone (vs ts : R) : R :=
  (vs - vs) / (vs - vs + 1e-9) * 0.7 + (ts - ts) / (ts - ts + 1e-9) * 0.3.

Close Scope R_scope.

(** *** Records and verdicts *)

(** The file [f] has a record: some chunk of meta.json names it as its
    source. *)
Definition recorded (metaList : list chunkMeta) (f : string) : Prop :=
  exists m, In m metaList /\ source m = f.

(** A recorded fingerprint of [f] matches [c]. *)
Definition recordedChecksum (metaList : list chunkMeta) (f c : string) : Prop :=
  exists m, In m metaList /\ source m = f /\ checksum m = c.

(** The three branches of the callback of [files.forEach]. *)
Inductive verdict := Unchanged | Modified | New.

Section WithHasher.
Context `{Hasher}.

(** The branch the callback takes for a file. *)
Definition verdictOf (existingDocs : list (string * existing)) (fs : fileSystem)
  (filename : string) : verdict :=
  match fingerprintText fs filename with
  | Some content =>
      match mapGet filename existingDocs with
      | Some ex => if bool_decide (md5hex content ∈ checksums ex) then Unchanged else Modified
      | None => New
      end
  | None => Modified
  end.

Definition verdictIs (v : verdict) (existingDocs : list (string * existing)) (fs : fileSystem)
  (filename : string) : bool :=
  match verdictOf existingDocs fs filename, v with
  | Unchanged, Unchanged | Modified, Modified | New, New => true
  | _, _ => false
  end.

End WithHasher.

(** *** The content of an index *)

Section WithModels.
Context `{Tokenizer} `{Embedder} `{Hasher}.
Variable now : nat -> string.

(** The reference of the specification, a rebuild from every source file
    of the directory: the loading of the script and [saveVectorStore], over
    all the listed files. *)
Definition fullRebuild (args : Ingest.cli) (fs : fileSystem) : option store :=
  match readdir fs with
  | None => None
  | Some names =>
      Some (saveVectorStore now
              (fold_left (Ingest.loadDocument args fs)
                 (List.filter isSourceFile names) []))
  end.

End WithModels.

(** The ids, sources and texts an index holds, in the order of [ids]. *)
Definition contents (st : store) : list (string * option (string * string)) :=
  List.map (fun i => (i, match docsMap st !! i with
                         | Some e => Some (source (e_metadata e), e_text e)
                         | None => None
                         end)) (ids st).

End Notions.

(** ** Concrete collaborators, for closed instances of the theorems *)

Module Sample.
Import Enhanced Ingest.

(** A byte-level tokenizer: one token per character. *)
Definition byteTokenizer : Tokenizer :=
  {| encode := fun s => List.map nat_of_ascii (list_ascii_of_string s);
     decode := fun l => string_of_list_ascii (List.map ascii_of_nat l) |}.

(** An embedding model that places every text on the first axis. *)
Definition axisEmbedder : Embedder := {| embedOne := fun _ => [1%R; 0%R] |}.

(** A stand-in for MD5 without collisions: the text itself. *)
Definition textHasher : Hasher := {| md5hex := fun s => s |}.

Definition epoch (n : nat) : string := "t" +:+ pretty n.

(** A second presentation of the byte-level tokenizer. *)
Fixpoint bytesOf (s : string) : list nat :=
  match s with
  | EmptyString => []
  | String c s' => nat_of_ascii c :: bytesOf s'
  end.

Fixpoint ofBytes (l : list nat) : string :=
  match l with
  | [] => EmptyString
  | n :: l' => String (ascii_of_nat n) (ofBytes l')
  end.

Definition byteTokenizer' : Tokenizer := {| encode := bytesOf; decode := ofBytes |}.

Fixpoint replicate (n : nat) (c : ascii) : string :=
  match n with
  | O => EmptyString
  | S n' => String c (replicate n' c)
  end.

(** *** Indexes *)

Open Scope R_scope.

Definition metaOf (i src : string) : chunkMeta :=
  {| id := i; source := src; pageSpan := "Chunk 1/1"; section := ""; tags := ["pricing"];
     version := "v3"; chunkIndex := 0; totalChunks := 1; originalLength := 13;
     m_tokens := 13; dateIngested := "t1"; checksum := "c" |}.

Definition entryOf (i src txt : string) (v : list R) : docEntry :=
  {| e_text := txt; e_metadata := metaOf i src; e_vector := v |}.

(** An index of one chunk whose vector is the query vector of
    [Sample.axisEmbedder]: raw cosine similarity close to 1. *)
Definition oneChunk : store :=
  {| ids := ["1"];
     vectors := [[1; 0]];
     docsMap := {[ "1" := entryOf "1" "pricing.md" "pricing plans" [1; 0] ]};
     meta := [metaOf "1" "pricing.md"] |}.

(** An index of two chunks. *)
Definition twoChunks : store :=
  {| ids := ["1"; "2"];
     vectors := [[1; 0]; [0; 1]];
     docsMap := <[ "2" := entryOf "2" "sales.md" "sales calls" [0; 1] ]>
                  {[ "1" := entryOf "1" "pricing.md" "pricing plans" [1; 0] ]};
     meta := [metaOf "1" "pricing.md"; metaOf "2" "sales.md"] |}.

Close Scope R_scope.

(** *** Directories and records *)

Definition recordOf (src sum : string) : chunkMeta :=
  {| id := "1"; source := src; pageSpan := "Chunk 1/1"; section := ""; tags := [];
     version := "v3"; chunkIndex := 0; totalChunks := 1; originalLength := 5;
     m_tokens := 5; dateIngested := "t1"; checksum := sum |}.

(** A docs directory with one entry that cannot be read (a directory named
    notes.md, or a file without read permission), and no record yet. *)
Definition unreadableDir : fileSystem :=
  {| readdir := Some ["notes.md"];
     readText := fun _ => None;
     statOf := fun _ => None;
     pdfText := fun _ => None |}.

(** A directory with an unchanged, a modified and a new file, and records
    that also name a file that is gone. *)
Definition mixedDir : fileSystem :=
  {| readdir := Some ["a.md"; "b.txt"; "c.md"; "README"];
     readText := fun f =>
       if String.eqb f "a.md" then Some "alpha"
       else if String.eqb f "b.txt" then Some "beta, edited"
       else if String.eqb f "c.md" then Some "gamma"
       else None;
     statOf := fun _ => None;
     pdfText := fun _ => None |}.

Definition mixedRecords : list chunkMeta :=
  [recordOf "a.md" "alpha"; recordOf "b.txt" "beta"; recordOf "d.md" "delta"].

(** A directory with one PDF, and the records the ingestion script leaves
    for it. *)
Definition pdfDir : fileSystem :=
  {| readdir := Some ["deck.pdf"];
     readText := fun _ => None;
     statOf := fun f =>
       if String.eqb f "deck.pdf" then Some (2048%N, 1700000000000%Z) else None;
     pdfText := fun f => if String.eqb f "deck.pdf" then Some "Pricing deck" else None |}.

Definition pdfRecords : list chunkMeta :=
  match @run byteTokenizer axisEmbedder textHasher epoch
          {| targetFile := None; cliTags := None |} pdfDir [] with
  | Saved st => meta st
  | Exit _ => []
  end.

(** *** A directory before and after a file is added *)

Definition contentA : string := "Alpha pricing".
Definition contentB : string := "Beta sales".

Definition readAB (f : string) : option string :=
  if String.eqb f "a.md" then Some contentA
  else if String.eqb f "b.md" then Some contentB
  else None.

(** The docs directory when only a.md exists, and after b.md is added. *)
Definition dirA : fileSystem :=
  {| readdir := Some ["a.md"]; readText := readAB;
     statOf := fun _ => None; pdfText := fun _ => None |}.

Definition dirAB : fileSystem :=
  {| readdir := Some ["a.md"; "b.md"]; readText := readAB;
     statOf := fun _ => None; pdfText := fun _ => None |}.

(** [npm run ingest]: no [--file], no [--tags]. *)
Definition noArgs : cli := {| targetFile := None; cliTags := None |}.

Definition docA : inputDoc :=
  {| in_pageContent := contentA;
     in_metadata := {| dm_source := "a.md"; dm_tags := ["pricing"; "markdown"];
                       dm_section := ""; dm_checksum := "" |} |}.

Definition docB : inputDoc :=
  {| in_pageContent := contentB;
     in_metadata := {| dm_source := "b.md"; dm_tags := ["sales"; "markdown"];
                       dm_section := ""; dm_checksum := "" |} |}.

End Sample.

(** ** Notions for the further properties *)

Module SearchNotions.
Import Enhanced Notions.

(** The query tokens that count: lower-cased, of three characters or more. *)
Definition countedTokens (query : string) : list string :=
  List.filter (fun token => (3 <=? String.length token)%nat) (lowerTokens query).

(** The entry of the index behind a scored chunk. *)
Definition docOf (e : docEntry) : resultDoc :=
  {| r_pageContent := e_text e; r_metadata := e_metadata e |}.




End SearchNotions.

Module WindowNotions.

(** The tokens of the window of a chunk. *)
Definition windowOf (ids : list nat) (c : Chunker.chunk) : list nat :=
  JS.sliceArr (Chunker.start c) (Chunker.stop c) ids.

(** The token position [p] lies in the window of some chunk. *)
Definition covered (chunks : list Chunker.chunk) (p : Z) : Prop :=
  exists c, In c chunks /\ (Chunker.start c <= p < Chunker.stop c)%Z.

Section WithTokenizer.
Context `{Tokenizer}.

(** The chunk [c] is the [i]-th window over the tokens [ids]. *)
Definition windowAt (ids : list nat) (m o : nat) (i : nat) (c : Chunker.chunk) : Prop :=
  let len := Z.of_nat (List.length ids) in
  Chunker.start c = (Z.of_nat i * (Z.of_nat m - Z.of_nat o))%Z
  /\ Chunker.stop c = Z.min (Chunker.start c + Z.of_nat m) len
  /\ (Chunker.start c < len)%Z
  /\ Chunker.text c = decode (windowOf ids c).

End WithTokenizer.
End WindowNotions.

Module ChunkNotions.
Import Enhanced Notions.

(** What holds of the loop variables once the sentences [ss] have been
    met. *)
Definition shapeInv (ss : list string) (a : acc) : Prop :=
  (ss = [] -> chunks a = [] /\ currentTokens a = 0%nat
              /\ hasNonSpace (currentChunk a) = false)
  /\ (ss <> [] -> hasNonSpace (currentChunk a) = true)
  /\ (forall i c, chunks a !! i = Some c ->
        start c = i /\ stop c = S i
        /\ (text c = "" -> i = 0%nat /\ tokens c = 0%nat))
  /\ (List.length (chunks a) <= List.length ss)%nat.

(** Every recorded count, and the running one, is at most [b]. *)
Definition boundInv (b : nat) (a : acc) : Prop :=
  Forall (fun c => (tokens c <= b)%nat) (chunks a)
  /\ (currentTokens a <= b)%nat
  /\ (String.length (currentChunk a) = 0%nat -> currentTokens a = 0%nat).

End ChunkNotions.

Module SavedNotions.
Import Enhanced.

Section WithModels.
Context `{Tokenizer} `{Embedder} `{Hasher}.
Variable now : nat -> string.

(** The chunks [saveVectorStore] cuts a document into. *)
Definition chunksOf (doc : inputDoc) : list chunk :=
  chunkTextEnhanced (in_pageContent doc) 800 120.

(** The number of chunks of all documents. *)
Definition chunkCount (docs : list inputDoc) : nat :=
  list_sum (List.map (fun doc => List.length (chunksOf doc)) docs).

(** The processed document of the chunk [c], the [i]-th of [doc], when it
    is the [j]-th chunk overall (both from 0). *)
Definition chunkDocument (doc : inputDoc) (j i : nat) (c : chunk) : document :=
  {| pageContent := text c;
     metadata :=
       {| id := pretty (S j);
          source := dm_source (in_metadata doc);
          pageSpan := "Chunk " +:+ pretty (i + 1) +:+ "/"
                      +:+ pretty (List.length (chunksOf doc));
          section := dm_section (in_metadata doc);
          tags := dm_tags (in_metadata doc);
          version := "v3";
          chunkIndex := i;
          totalChunks := List.length (chunksOf doc);
          originalLength := String.length (in_pageContent doc);
          m_tokens := tokens c;
          dateIngested := now (S j);
          checksum := md5hex (in_pageContent doc) |} |}.

(** The entry of docs.json for a processed document. *)
Definition entryOfDocument (d : document) : docEntry :=
  {| e_text := pageContent d; e_metadata := metadata d;
     e_vector := embedOne (pageContent d) |}.

(** The processed documents of the chunks [cs] of [doc], the first of
    which is chunk [i] of the document and chunk [j] overall. *)
Fixpoint documentsOf (doc : inputDoc) (j i : nat) (cs : list chunk) : list document :=
  match cs with
  | [] => []
  | c :: cs' => chunkDocument doc j i c :: documentsOf doc (S j) (S i) cs'
  end.

Fixpoint documentsFrom (j : nat) (docs : list inputDoc) : list document :=
  match docs with
  | [] => []
  | doc :: docs' =>
      documentsOf doc j 0 (chunksOf doc)
      ++ documentsFrom (j + List.length (chunksOf doc)) docs'
  end.

End WithModels.
End SavedNotions.

Module RunNotions.
Import Enhanced Ingest.

(** The text the script reads from a file, [None] where reading throws. *)
Definition contentOf (fs : fileSystem) (filename : string) : option string :=
  if JS.endsWith ".pdf" filename then pdfText fs filename else readText fs filename.

(** The document the script builds for a file it could read. *)
Definition loadedDoc (args : cli) (fs : fileSystem) (filename : string) : list inputDoc :=
  fold_left (loadDocument args fs) [filename] [].

End RunNotions.

Module RunSample.
Import Enhanced Sample.

(** The index of the first run, over a.md alone, and the index of the run
    that follows once b.md is added. *)
Definition firstIndex : store :=
  @saveVectorStore byteTokenizer axisEmbedder textHasher epoch [docA].

Definition secondIndex : store :=
  @saveVectorStore byteTokenizer axisEmbedder textHasher epoch [docB].

End RunSample.

Module AnalyzeNotions.
Import Enhanced Analyze.

(** The number of occurrences of [key] in [keys]. *)
Definition occurrences (key : string) (keys : list string) : nat :=
  List.length (List.filter (String.eqb key) keys).

(** The total length of the texts docs.json holds for the records. *)
Definition textLength (docs : gmap string docEntry) (metaList : list chunkMeta) : nat :=
  list_sum (List.map (fun m => match docs !! id m with
                               | Some e => String.length (e_text e)
                               | None => 0%nat
                               end) metaList).

(** What [obj[key]] holds after the keys [keys] have been counted, for a
    key that is not an inherited name. *)
Definition counted (keys : list string) (obj : gmap string tally) : Prop :=
  forall key, inherited key = false ->
    obj !! key = match occurrences key keys with
                 | O => None
                 | S n => Some (Count (S n))
                 end.

End AnalyzeNotions.


(** * Properties *)

(** ** The token-window chunker: termination and divergence *)

Section ChunkerLoop.
Context `{Tokenizer}.

Lemma loop_terminates (ids : list nat) (maxTokens overlapTokens : nat) :
  (overlapTokens < maxTokens)%nat ->
  forall (n : nat) (start : Z) (chunks : list Chunker.chunk),
    (Z.of_nat (List.length ids) - start <= Z.of_nat n)%Z ->
    exists out, forall fuel, (n < fuel)%nat ->
      Chunker.loop fuel ids maxTokens overlapTokens (start, chunks) = Some out.
Proof.
  intros Hlt n; induction n as [|n IH]; intros start chunks Hm.
  - exists chunks; intros [|fuel] Hf; [lia|].
    simpl. destruct (Z.ltb_spec start (Z.of_nat (List.length ids))); [lia|reflexivity].
  - destruct (Z.ltb_spec start (Z.of_nat (List.length ids))) as [Hs|Hs].
    + set (stop := Z.min (start + Z.of_nat maxTokens) (Z.of_nat (List.length ids))).
      set (c := {| Chunker.text := decode (JS.sliceArr start stop ids);
                   Chunker.start := start; Chunker.stop := stop |}).
      destruct (Z.eqb_spec stop (Z.of_nat (List.length ids))) as [He|He].
      * exists (chunks ++ [c]); intros [|fuel] Hf; [lia|].
        simpl. destruct (Z.ltb_spec start (Z.of_nat (List.length ids))); [|lia].
        fold stop. destruct (Z.eqb_spec stop (Z.of_nat (List.length ids))); [|contradiction].
        reflexivity.
      * destruct (IH (start + (Z.of_nat maxTokens - Z.of_nat overlapTokens))%Z
                    (chunks ++ [c])) as [out Hout]; [lia|].
        exists out; intros [|fuel] Hf; [lia|].
        simpl. destruct (Z.ltb_spec start (Z.of_nat (List.length ids))); [|lia].
        fold stop. destruct (Z.eqb_spec stop (Z.of_nat (List.length ids))); [contradiction|].
        apply Hout; lia.
    + exists chunks; intros [|fuel] Hf; [lia|].
      simpl. destruct (Z.ltb_spec start (Z.of_nat (List.length ids))); [lia|reflexivity].
Qed.

Lemma loop_diverges (ids : list nat) (maxTokens overlapTokens : nat) :
  (maxTokens <= overlapTokens)%nat ->
  (maxTokens < List.length ids)%nat ->
  forall (fuel : nat) (start : Z) (chunks : list Chunker.chunk),
    (start <= 0)%Z ->
    Chunker.loop fuel ids maxTokens overlapTokens (start, chunks) = None.
Proof.
  intros Hge Hlen fuel; induction fuel as [|fuel IH]; intros start chunks Hs.
  - reflexivity.
  - simpl. destruct (Z.ltb_spec start (Z.of_nat (List.length ids))); [|lia].
    destruct (Z.eqb_spec (Z.min (start + Z.of_nat maxTokens) (Z.of_nat (List.length ids)))
                (Z.of_nat (List.length ids))); [lia|].
    apply IH; lia.
Qed.

(** Two runs that both return agree, whatever step budget each was given. *)
Lemma loop_functional (ids : list nat) (maxTokens overlapTokens : nat) :
  forall (f1 f2 : nat) (st : Z * list Chunker.chunk) (r1 r2 : list Chunker.chunk),
    Chunker.loop f1 ids maxTokens overlapTokens st = Some r1 ->
    Chunker.loop f2 ids maxTokens overlapTokens st = Some r2 ->
    r1 = r2.
Proof.
  intros f1; induction f1 as [|f1 IH]; intros f2 st r1 r2 H1 H2; [discriminate|].
  destruct f2 as [|f2]; [discriminate|].
  simpl in H1, H2.
  destruct (Chunker.step ids maxTokens overlapTokens st) as [st'|out].
  - eapply IH; eassumption.
  - congruence.
Qed.

(** C10. The token-window chunker terminates on every text when
    [overlapTokens < maxTokens]: some step budget suffices, and so does every
    larger one.  When [overlapTokens >= maxTokens] and the text has more than
    [maxTokens] tokens, no step budget suffices: the loop never ends. *)
Theorem chunkText_terminates_iff_overlap_below_max
  (text : string) (maxTokens overlapTokens : nat) :
  ((overlapTokens < maxTokens)%nat ->
     exists out, forall fuel, (List.length (encode text) < fuel)%nat ->
       Chunker.chunkText fuel text maxTokens overlapTokens = Some out)
  /\
  ((maxTokens <= overlapTokens)%nat ->
   (maxTokens < List.length (encode text))%nat ->
     forall fuel, Chunker.chunkText fuel text maxTokens overlapTokens = None).
Proof.
  split.
  - intros Hlt. unfold Chunker.chunkText.
    apply (loop_terminates _ _ _ Hlt (List.length (encode text)) 0%Z []). lia.
  - intros Hge Hlen fuel. unfold Chunker.chunkText.
    apply loop_diverges; [assumption|assumption|lia].
Qed.

End ChunkerLoop.

(** ** The sentence-accumulating chunker *)

Module EnhancedChunker.
Import Enhanced Notions.

Lemma allChars_app (p : ascii -> bool) (s t : string) :
  allChars p (s +:+ t) = allChars p s && allChars p t.
Proof.
  induction s as [|c s IH]; [reflexivity|].
  change (String c s +:+ t) with (String c (s +:+ t)). simpl.
  rewrite IH. now rewrite andb_assoc.
Qed.

Lemma allChars_impl (p q : ascii -> bool) (s : string) :
  (forall c, p c = true -> q c = true) -> allChars p s = true -> allChars q s = true.
Proof.
  intros Hpq. induction s as [|c s IH]; [reflexivity|].
  simpl. intros Hs. apply andb_true_iff in Hs as [Hc Hs].
  now rewrite (Hpq c Hc), IH.
Qed.

Section WithTokenizer.
Context `{Tokenizer}.

Lemma addSentence_blank (m o : nat) (a : acc) (s : string) :
  nonBlank s = false -> addSentence m o a s = a.
Proof.
  unfold nonBlank, addSentence. intros Hb.
  destruct (String.length (JS.trim s) =? 0)%nat; [reflexivity|discriminate].
Qed.

(** The branch that closes the current chunk and seeds the next one. *)
Lemma addSentence_close (m o : nat) (a : acc) (s : string) :
  nonBlank s = true ->
  (m < currentTokens a + countTokens s)%nat ->
  (0 < String.length (currentChunk a))%nat ->
  addSentence m o a s =
    {| chunks := chunks a ++ [closeChunk a];
       currentChunk := JS.sliceFrom (- Z.of_nat o * 4)%Z (currentChunk a) +:+ s +:+ ". ";
       currentTokens :=
         countTokens (JS.sliceFrom (- Z.of_nat o * 4)%Z (currentChunk a)) + countTokens s |}.
Proof.
  unfold nonBlank, addSentence. intros Hb Hm Hc.
  destruct (String.length (JS.trim s) =? 0)%nat; [discriminate|].
  cbv zeta.
  destruct (Nat.ltb_spec m (currentTokens a + countTokens s)); [|lia].
  destruct (Nat.ltb_spec 0 (String.length (currentChunk a))); [|lia].
  reflexivity.
Qed.

(** The branch that appends to the current chunk. *)
Lemma addSentence_append (m o : nat) (a : acc) (s : string) :
  nonBlank s = true ->
  (currentTokens a + countTokens s <= m)%nat \/ String.length (currentChunk a) = 0%nat ->
  addSentence m o a s =
    {| chunks := chunks a;
       currentChunk := currentChunk a +:+ s +:+ ". ";
       currentTokens := currentTokens a + countTokens s |}.
Proof.
  unfold nonBlank, addSentence. intros Hb Hm.
  destruct (String.length (JS.trim s) =? 0)%nat; [discriminate|].
  cbv zeta.
  destruct (Nat.ltb_spec m (currentTokens a + countTokens s));
    destruct (Nat.ltb_spec 0 (String.length (currentChunk a)));
    try reflexivity; simpl; lia.
Qed.

(** *** Two plain sentences *)

Lemma length_app (s t : string) :
  String.length (s +:+ t) = (String.length s + String.length t)%nat.
Proof.
  induction s as [|c s IH]; [reflexivity|].
  change (String c s +:+ t) with (String c (s +:+ t)). simpl. now rewrite IH.
Qed.

Lemma app_nil_r_str (s : string) : s +:+ "" = s.
Proof.
  induction s as [|c s IH]; [reflexivity|].
  change (String c s +:+ "") with (String c (s +:+ "")). now rewrite IH.
Qed.

Lemma revOnto_revOnto (s a b : string) :
  JS.revOnto (JS.revOnto s a) b = JS.revOnto a (s +:+ b).
Proof.
  revert a b; induction s as [|c s IH]; intros a b; [reflexivity|].
  simpl. now rewrite IH.
Qed.

Lemma reverse_revOnto (s : string) : JS.reverse (JS.revOnto s "") = s.
Proof. unfold JS.reverse. rewrite revOnto_revOnto. simpl. apply app_nil_r_str. Qed.

Lemma hasNonSpace_app (s t : string) :
  hasNonSpace (s +:+ t) = hasNonSpace s || hasNonSpace t.
Proof.
  induction s as [|c s IH]; [reflexivity|].
  change (String c s +:+ t) with (String c (s +:+ t)). simpl.
  rewrite IH. now rewrite orb_assoc.
Qed.

Lemma hasNonSpace_revOnto (s a : string) :
  hasNonSpace (JS.revOnto s a) = hasNonSpace s || hasNonSpace a.
Proof.
  revert a; induction s as [|c s IH]; intros a; [reflexivity|].
  simpl. rewrite IH. simpl. destruct (JS.isSpace c), (hasNonSpace s); reflexivity.
Qed.

Lemma hasNonSpace_dropWhile (s : string) :
  hasNonSpace (JS.dropWhile JS.isSpace s) = hasNonSpace s.
Proof.
  induction s as [|c s IH]; [reflexivity|].
  simpl. destruct (JS.isSpace c) eqn:Hc; simpl; [exact IH|now rewrite Hc].
Qed.

(** A string with a character that is not white space is not blank. *)
Lemma hasNonSpace_nonBlank (s : string) : hasNonSpace s = true -> nonBlank s = true.
Proof.
  intros Hs. unfold nonBlank, JS.trim, JS.reverse.
  assert (Ht : hasNonSpace
                 (JS.revOnto (JS.dropWhile JS.isSpace
                                (JS.revOnto (JS.dropWhile JS.isSpace s) "")) "") = true).
  { rewrite hasNonSpace_revOnto, hasNonSpace_dropWhile, hasNonSpace_revOnto,
      hasNonSpace_dropWhile, Hs. reflexivity. }
  destruct (JS.revOnto _ _) eqn:Hr in Ht |- *; [discriminate|reflexivity].
Qed.

(** Where the separator cannot start on any character of [s], the scan
    passes over [s]. *)
Lemma splitGo_pass (sep : string -> nat) (p : ascii -> bool) (s rest cur : string) :
  (forall c t, p c = true -> sep (String c t) = 0%nat) ->
  allChars p s = true ->
  JS.splitGo sep (s +:+ rest) 0 cur = JS.splitGo sep rest 0 (JS.revOnto s cur).
Proof.
  intros Hp. revert cur; induction s as [|c s IH]; intros cur Hs; [reflexivity|].
  simpl in Hs. apply andb_true_iff in Hs as [Hc Hs].
  change (String c s +:+ rest) with (String c (s +:+ rest)).
  cbn [JS.splitGo]. rewrite (Hp c _ Hc). now rewrite IH.
Qed.

Lemma runLen_plain (p q : ascii -> bool) (s : string) :
  (forall c, p c = true -> q c = false) ->
  allChars p s = true -> JS.runLen q s = 0%nat.
Proof.
  intros Hpq Hs. destruct s as [|c s]; [reflexivity|].
  simpl in *. apply andb_true_iff in Hs as [Hc _]. now rewrite (Hpq c Hc).
Qed.

Lemma plainChar_not_terminator (c : ascii) :
  plainChar c = true -> JS.isTerminator c = false.
Proof. unfold plainChar. now destruct (JS.isTerminator c). Qed.

Lemma plainChar_not_newline (c : ascii) :
  plainChar c = true -> JS.isNewline c = false.
Proof. unfold plainChar. destruct (JS.isNewline c); [now rewrite andb_false_r|reflexivity]. Qed.

Lemma split_terminators_two (s1 s2 : string) :
  allChars plainChar s1 = true -> allChars plainChar s2 = true ->
  JS.split JS.sepTerminators (s1 +:+ "." +:+ s2) = [s1; s2].
Proof.
  intros H1 H2. unfold JS.split.
  rewrite (splitGo_pass JS.sepTerminators plainChar s1 _ "");
    [|intros c t Hc; unfold JS.sepTerminators; simpl;
      now rewrite (plainChar_not_terminator c Hc)|exact H1].
  change ("." +:+ s2) with (String "." s2). cbn [JS.splitGo].
  assert (Hsep : JS.sepTerminators (String "." s2) = 1%nat).
  { unfold JS.sepTerminators. cbn [JS.runLen].
    change (JS.isTerminator ".") with true. cbv iota.
    now rewrite (runLen_plain plainChar JS.isTerminator s2 plainChar_not_terminator H2). }
  rewrite Hsep, reverse_revOnto.
  rewrite <- (app_nil_r_str s2) at 1.
  rewrite (splitGo_pass JS.sepTerminators plainChar s2 "" "");
    [|intros c t Hc; unfold JS.sepTerminators; simpl;
      now rewrite (plainChar_not_terminator c Hc)|exact H2].
  cbn [JS.splitGo]. now rewrite reverse_revOnto.
Qed.

Lemma split_blankLine_two (s1 s2 : string) :
  allChars plainChar s1 = true -> allChars plainChar s2 = true ->
  JS.split JS.sepBlankLine (s1 +:+ "." +:+ s2) = [s1 +:+ "." +:+ s2].
Proof.
  intros H1 H2. unfold JS.split.
  assert (Hp : forall c t, negb (JS.isNewline c) = true
                           -> JS.sepBlankLine (String c t) = 0%nat).
  { intros c t Hc. unfold JS.sepBlankLine. now destruct (JS.isNewline c). }
  rewrite <- (app_nil_r_str (s1 +:+ "." +:+ s2)) at 1.
  rewrite (splitGo_pass JS.sepBlankLine (fun c => negb (JS.isNewline c)) _ "" "" Hp).
  - cbn [JS.splitGo]. now rewrite reverse_revOnto.
  - rewrite !allChars_app. apply andb_true_iff. split; [|apply andb_true_iff; split].
    + eapply allChars_impl; [|exact H1].
      intros c Hc. now rewrite (plainChar_not_newline c Hc).
    + reflexivity.
    + eapply allChars_impl; [|exact H2].
      intros c Hc. now rewrite (plainChar_not_newline c Hc).
Qed.

Lemma two_sentences_chunks (m o : nat) (s1 s2 : string) :
  plainSentence s1 -> plainSentence s2 ->
  (m < countTokens s1 + countTokens s2)%nat ->
  chunkTextEnhanced (s1 +:+ "." +:+ s2) m o
  = [{| text := JS.trim (s1 +:+ ". "); start := 0; stop := 1;
        tokens := countTokens s1 |};
     {| text := JS.trim ((seedAfter o s1 +:+ s2 +:+ ". ") +:+ newline +:+ newline);
        start := 1; stop := 2;
        tokens := countTokens (seedAfter o s1) + countTokens s2 |}].
Proof.
  intros [H1 Hb1] [H2 Hb2] Hsum.
  unfold chunkTextEnhanced. rewrite (split_blankLine_two s1 s2 H1 H2).
  cbn [fold_left]. unfold addParagraph.
  assert (Hnb : nonBlank (s1 +:+ "." +:+ s2) = true).
  { apply hasNonSpace_nonBlank. rewrite !hasNonSpace_app.
    change (hasNonSpace ".") with true. apply orb_true_r. }
  unfold nonBlank in Hnb. apply negb_true_iff in Hnb. rewrite Hnb. cbv zeta.
  rewrite (split_terminators_two s1 s2 H1 H2). cbn [fold_left].
  rewrite (addSentence_append m o _ s1) by (auto).
  cbn [chunks currentChunk currentTokens].
  rewrite (addSentence_close m o _ s2);
    [ | exact Hb2 | cbn [currentTokens]; lia
      | cbn [currentChunk]; rewrite !length_app; simpl; lia ].
  cbn [chunks currentChunk currentTokens app].
  assert (Hlast : nonBlank ((JS.sliceFrom (- Z.of_nat o * 4) ("" +:+ s1 +:+ ". ")
                             +:+ s2 +:+ ". ") +:+ newline +:+ newline) = true).
  { apply hasNonSpace_nonBlank. rewrite !hasNonSpace_app.
    change (hasNonSpace ". ") with true. now rewrite !orb_true_r. }
  unfold nonBlank in Hlast. apply negb_true_iff in Hlast.
  destruct (Nat.ltb_spec 0 (String.length
              (JS.trim ((JS.sliceFrom (- Z.of_nat o * 4) ("" +:+ s1 +:+ ". ")
                         +:+ s2 +:+ ". ") +:+ newline +:+ newline)))) as [_|Hz].
  - reflexivity.
  - exfalso. apply Nat.eqb_neq in Hlast. lia.
Qed.

(** C3 (evaluation at the failing inputs). Take any text made of two plain
    sentences [s1] and [s2], each within [maxTokens], that do not fit in one
    chunk together.  The chunker emits two chunks; the second starts with the
    overlap text seeded from the first and records the tokens of that text
    plus those of [s2].  Whenever that sum exceeds [maxTokens], the recorded
    count of the second chunk exceeds the budget although no sentence
    does. *)
Theorem overlap_seeded_chunk_exceeds_budget (maxTokens overlapTokens : nat)
  (s1 s2 : string) :
  plainSentence s1 -> plainSentence s2 ->
  (countTokens s1 <= maxTokens)%nat -> (countTokens s2 <= maxTokens)%nat ->
  (maxTokens < countTokens s1 + countTokens s2)%nat ->
  (maxTokens < countTokens (seedAfter overlapTokens s1) + countTokens s2)%nat ->
  Forall (fun s => (countTokens s <= maxTokens)%nat) (sentencesOf (s1 +:+ "." +:+ s2))
  /\ exists c1 c2,
       chunkTextEnhanced (s1 +:+ "." +:+ s2) maxTokens overlapTokens = [c1; c2]
       /\ tokens c1 = countTokens s1
       /\ tokens c2 = (countTokens (seedAfter overlapTokens s1) + countTokens s2)%nat
       /\ (maxTokens < tokens c2)%nat.
Proof.
  intros P1 P2 Hc1 Hc2 Hsum Hseed. split.
  - destruct P1 as [H1 Hb1], P2 as [H2 Hb2]. unfold sentencesOf.
    rewrite (split_blankLine_two s1 s2 H1 H2). cbn [List.filter].
    assert (Hnb : nonBlank (s1 +:+ "." +:+ s2) = true).
    { apply hasNonSpace_nonBlank. rewrite !hasNonSpace_app.
      change (hasNonSpace ".") with true. apply orb_true_r. }
    rewrite Hnb. cbn [flat_map]. rewrite (split_terminators_two s1 s2 H1 H2).
    cbn [List.filter]. rewrite Hb1, Hb2. cbn [app].
    constructor; [exact Hc1|]. constructor; [exact Hc2|]. constructor.
  - rewrite (two_sentences_chunks maxTokens overlapTokens s1 s2 P1 P2 Hsum).
    eexists _, _. split; [reflexivity|]. cbn [tokens]. auto.
Qed.

(** *** What the budget check does guarantee *)

Lemma addSentence_inv (m o : nat) (sent : string -> Prop) (a : acc) (s : string) :
  (nonBlank s = true -> sent s) ->
  accInv m sent a -> accInv m sent (addSentence m o a s).
Proof.
  intros Hs (Hch & Hcur & Hz).
  destruct (nonBlank s) eqn:Hb; [|rewrite addSentence_blank; [repeat split|]; assumption].
  specialize (Hs eq_refl).
  destruct (Nat.eq_dec (String.length (currentChunk a)) 0) as [He|He].
  - rewrite addSentence_append by (auto).
    repeat split; cbn [chunks currentChunk currentTokens].
    + assumption.
    + right. exists s. split; [assumption|]. left. rewrite (Hz He). reflexivity.
    + rewrite !length_app. simpl. lia.
  - destruct (le_lt_dec (currentTokens a + countTokens s) m) as [Hle|Hgt].
    + rewrite addSentence_append by (auto).
      repeat split; cbn [chunks currentChunk currentTokens].
      * assumption.
      * left. assumption.
      * rewrite !length_app. simpl. lia.
    + rewrite addSentence_close by (auto; lia).
      repeat split; cbn [chunks currentChunk currentTokens].
      * apply Forall_app. split; [assumption|].
        constructor; [exact Hcur|constructor].
      * right. exists s. split; [assumption|]. right. eexists. reflexivity.
      * rewrite !length_app. simpl. lia.
Qed.

Lemma fold_addSentence_inv (m o : nat) (sent : string -> Prop) (l : list string) :
  forall a, (forall s, In s l -> nonBlank s = true -> sent s) ->
    accInv m sent a -> accInv m sent (fold_left (addSentence m o) l a).
Proof.
  induction l as [|s l IH]; intros a Hl Ha; [exact Ha|].
  simpl. apply IH.
  - intros s' Hin. apply Hl. now right.
  - apply addSentence_inv; [apply Hl; now left|exact Ha].
Qed.

Lemma addParagraph_inv (m o : nat) (sent : string -> Prop) (a : acc) (p : string) :
  (forall s, nonBlank p = true -> In s (JS.split JS.sepTerminators p) ->
             nonBlank s = true -> sent s) ->
  accInv m sent a -> accInv m sent (addParagraph m o a p).
Proof.
  intros Hp Ha. unfold addParagraph.
  destruct (String.length (JS.trim p) =? 0)%nat eqn:Hb; [exact Ha|].
  assert (Hnb : nonBlank p = true) by (unfold nonBlank; now rewrite Hb).
  destruct (fold_addSentence_inv m o sent (JS.split JS.sepTerminators p) a)
    as (Hch & Hcur & _); [intros s; apply Hp, Hnb|exact Ha|].
  repeat split; cbn [chunks currentChunk currentTokens]; try assumption.
  rewrite !length_app. unfold newline. simpl. lia.
Qed.

(** Every chunk the chunker emits records a count within [maxTokens],
    unless the chunk was started by one sentence (alone, or behind the
    overlap text) whose count, with that of the overlap text, is what it
    records. *)
Lemma chunk_tokens_accounted (text : string) (m o : nat) :
  Forall (fun c => accounted m (fun s => In s (sentencesOf text)) (tokens c))
    (chunkTextEnhanced text m o).
Proof.
  unfold chunkTextEnhanced.
  set (sent := fun s => In s (sentencesOf text)).
  assert (Hfold : forall l a,
             (forall p, In p l -> In p (JS.split JS.sepBlankLine text)) ->
             accInv m sent a -> accInv m sent (fold_left (addParagraph m o) l a)).
  { induction l as [|p l IH]; intros a Hl Ha; [exact Ha|].
    simpl. apply IH; [intros p' Hin; apply Hl; now right|].
    apply addParagraph_inv; [|exact Ha].
    intros s Hnb Hin Hs. unfold sent, sentencesOf.
    apply in_flat_map. exists p. split.
    - apply filter_In. split; [apply Hl; now left|exact Hnb].
    - apply filter_In. split; assumption. }
  destruct (Hfold (JS.split JS.sepBlankLine text)
              {| chunks := []; currentChunk := ""; currentTokens := 0 |})
    as (Hch & Hcur & _).
  - auto.
  - unfold accInv. cbn [chunks currentChunk currentTokens].
    split; [constructor|]. split; [left; lia|reflexivity].
  - cbv zeta. destruct (0 <? _)%nat; [|exact Hch].
    apply Forall_app. split; [exact Hch|]. constructor; [exact Hcur|constructor].
Qed.

End WithTokenizer.

(** *** Determinism *)

Lemma bytesOf_encode (s : string) : @encode Sample.byteTokenizer s = @encode Sample.byteTokenizer' s.
Proof. induction s as [|c s IH]; [reflexivity|]. simpl in *. now rewrite IH. Qed.

Lemma ofBytes_decode (l : list nat) : @decode Sample.byteTokenizer l = @decode Sample.byteTokenizer' l.
Proof. induction l as [|n l IH]; [reflexivity|]. simpl in *. now rewrite IH. Qed.

Section TwoRuns.
Variables T1 T2 : Tokenizer.
Hypothesis same_encode : forall s, @encode T1 s = @encode T2 s.
Hypothesis same_decode : forall l, @decode T1 l = @decode T2 l.

Lemma addSentence_same (m o : nat) (a : acc) (s : string) :
  @addSentence T1 m o a s = @addSentence T2 m o a s.
Proof. unfold addSentence, countTokens. now rewrite !same_encode. Qed.

Lemma fold_addSentence_same (m o : nat) (l : list string) :
  forall a, fold_left (@addSentence T1 m o) l a = fold_left (@addSentence T2 m o) l a.
Proof.
  induction l as [|s l IH]; intros a; [reflexivity|].
  simpl. now rewrite addSentence_same, IH.
Qed.

Lemma addParagraph_same (m o : nat) (a : acc) (p : string) :
  @addParagraph T1 m o a p = @addParagraph T2 m o a p.
Proof. unfold addParagraph. now rewrite fold_addSentence_same. Qed.

Lemma chunkTextEnhanced_same (text : string) (m o : nat) :
  @chunkTextEnhanced T1 text m o = @chunkTextEnhanced T2 text m o.
Proof.
  unfold chunkTextEnhanced.
  assert (Hf : forall l a, fold_left (@addParagraph T1 m o) l a
                           = fold_left (@addParagraph T2 m o) l a).
  { induction l as [|p l IH]; intros a; [reflexivity|].
    simpl. now rewrite addParagraph_same, IH. }
  now rewrite Hf.
Qed.

Lemma step_same (ids : list nat) (m o : nat) (st : Z * list Chunker.chunk) :
  @Chunker.step T1 ids m o st = @Chunker.step T2 ids m o st.
Proof. unfold Chunker.step. destruct st as [start chunks]. now rewrite same_decode. Qed.

Lemma loop_same (ids : list nat) (m o : nat) (fuel : nat) :
  forall st, @Chunker.loop T1 fuel ids m o st = @Chunker.loop T2 fuel ids m o st.
Proof.
  induction fuel as [|fuel IH]; intros st; [reflexivity|].
  simpl. rewrite step_same. destruct (Chunker.step ids m o st); [apply IH|reflexivity].
Qed.

(** C8. Chunking is deterministic.  Take two runs with the same arguments,
    each with its own handle on the tokenizer (the two handles encode and
    decode alike) and, for the token-window chunker, its own step budget.
    The sentence-accumulating chunker returns the same list of chunks (same
    texts, positions and token counts) in both; and whenever both runs of
    the token-window chunker return, they return the same list of chunks. *)
Theorem chunking_is_deterministic (text : string) (maxTokens overlapTokens : nat) :
  @chunkTextEnhanced T1 text maxTokens overlapTokens
    = @chunkTextEnhanced T2 text maxTokens overlapTokens
  /\ forall (fuel1 fuel2 : nat) (r1 r2 : list Chunker.chunk),
       @Chunker.chunkText T1 fuel1 text maxTokens overlapTokens = Some r1 ->
       @Chunker.chunkText T2 fuel2 text maxTokens overlapTokens = Some r2 ->
       r1 = r2.
Proof.
  split; [apply chunkTextEnhanced_same|].
  intros fuel1 fuel2 r1 r2 H1 H2. unfold Chunker.chunkText in *.
  rewrite loop_same, same_encode in H1.
  eapply (@loop_functional T2); eassumption.
Qed.

End TwoRuns.
End EnhancedChunker.

(** ** The hybrid search *)

Module Search.
Import Enhanced Notions.

Open Scope R_scope.

(** *** The lexical score *)

Lemma addWord_fold (textWords : list string) (l : list string) :
  forall acc0,
    fold_left (addWord textWords) l acc0
    = acc0 + fold_right Rplus 0
               (List.map (fun token => termOf (matchCount token textWords)
                                              (List.length textWords))
                  (List.filter (fun token => (3 <=? String.length token)%nat) l)).
Proof.
  induction l as [|w l IH]; intros acc0;
    cbn [fold_left List.filter List.map fold_right]; [lra|].
  rewrite IH. unfold addWord at 1.
  destruct (Nat.ltb_spec (String.length w) 3) as [Hs|Hs];
    destruct (Nat.leb_spec 3 (String.length w)) as [Hs'|Hs']; try lia.
  - reflexivity.
  - cbn [List.map fold_right]. unfold termOf, matchCount.
    destruct (List.length (List.filter (fun w0 => JS.includes w w0) textWords));
      cbn [Nat.ltb Nat.leb Nat.eqb]; lra.
Qed.

(** [split] returns at least one piece, so a chunk has a positive number of
    tokens and the division by it is a division by a positive number. *)
Lemma splitGo_nonempty (sep : string -> nat) (s : string) :
  forall skip cur, (0 < List.length (JS.splitGo sep s skip cur))%nat.
Proof.
  induction s as [|c s IH]; intros skip cur; simpl; [lia|].
  destruct skip; [destruct (sep (String c s)); simpl; [apply IH|lia]|apply IH].
Qed.

(** C6. The lexical score is the sum, over the lower-cased white-space-split
    query tokens of length at least 3, of
    [(matchCount / chunkTokenCount) * ln (1 + chunkTokenCount / matchCount)],
    where [matchCount] counts the lower-cased chunk tokens that contain the
    query token; a token that matches nothing contributes 0; the chunk token
    count is never 0 and the division by [matchCount] is made only when it
    is not 0. *)
Theorem calculateTextRelevance_formula (query text : string) :
  calculateTextRelevance query text = textScoreSpec query text
  /\ (0 < INR (List.length (lowerTokens text)))
  /\ (forall token, matchCount token (lowerTokens text) = 0%nat ->
        termOf (matchCount token (lowerTokens text))
               (List.length (lowerTokens text)) = 0).
Proof.
  split; [|split].
  - unfold calculateTextRelevance, textScoreSpec, lowerTokens.
    rewrite addWord_fold. lra.
  - apply lt_0_INR. unfold lowerTokens, JS.split. apply splitGo_nonempty.
  - intros token Hz. unfold termOf. now rewrite Hz.
Qed.

(** *** Lengths *)

Lemma scoresFrom_length (st : store) (query : string) (q : list R) (l : list string) :
  forall idx ss, scoresFrom st query q idx l = inr ss -> List.length ss = List.length l.
Proof.
  induction l as [|i l IH]; intros idx ss Hs; simpl in Hs.
  - now inversion Hs.
  - destruct (scoreOf st query q idx i) as [[|]|s];
      destruct (scoresFrom st query q (S idx) l) as [[|]|ss'] eqn:Hr;
      try discriminate.
    inversion Hs; subst. simpl. f_equal. eapply IH; eassumption.
Qed.

Lemma insertDesc_perm (x : scoredDoc) (l : list scoredDoc) :
  Permutation (insertDesc x l) (x :: l).
Proof.
  induction l as [|y l IH]; simpl; [reflexivity|].
  destruct (Rlt_dec (score x) (score y)); [|reflexivity].
  rewrite IH. apply perm_swap.
Qed.

Lemma sortDesc_perm (l : list scoredDoc) : Permutation (sortDesc l) l.
Proof.
  induction l as [|x l IH]; simpl; [reflexivity|].
  rewrite insertDesc_perm. now constructor.
Qed.

Lemma sliceArr_prefix {A} (k : Z) (l : list A) :
  JS.sliceArr 0 k l = firstn (Z.to_nat (JS.relIndex (Z.of_nat (List.length l)) k)) l.
Proof.
  unfold JS.sliceArr. cbv zeta.
  replace (JS.relIndex (Z.of_nat (List.length l)) 0) with 0%Z
    by (unfold JS.relIndex; simpl; lia).
  simpl. now rewrite Z.sub_0_r.
Qed.

Lemma sliceArr_length {A} (k : Z) (l : list A) :
  Z.of_nat (List.length (JS.sliceArr 0 k l))
  = JS.relIndex (Z.of_nat (List.length l)) k.
Proof.
  rewrite sliceArr_prefix, List.length_firstn. unfold JS.relIndex.
  destruct (Z.ltb_spec k 0); lia.
Qed.

(** *** Order *)

Lemma insertDesc_sorted (x : scoredDoc) (l : list scoredDoc) :
  descending l -> descending (insertDesc x l).
Proof.
  unfold descending. induction l as [|y l IH]; intros Hl; simpl.
  - repeat constructor.
  - apply StronglySorted_inv in Hl as [Hl Hy].
    destruct (Rlt_dec (score x) (score y)) as [Hlt|Hge].
    + constructor; [apply IH, Hl|].
      eapply Permutation_Forall; [symmetry; apply insertDesc_perm|].
      constructor; [lra|exact Hy].
    + constructor; [constructor; assumption|].
      constructor; [lra|].
      eapply List.Forall_impl; [|exact Hy]. simpl. intros; lra.
Qed.

Lemma sortDesc_sorted (l : list scoredDoc) : descending (sortDesc l).
Proof.
  induction l as [|x l IH]; simpl; [constructor|]. now apply insertDesc_sorted.
Qed.

Lemma firstn_sorted {A} (R0 : A -> A -> Prop) (n : nat) (l : list A) :
  StronglySorted R0 l -> StronglySorted R0 (firstn n l).
Proof.
  revert n; induction l as [|x l IH]; intros n Hl; destruct n; simpl; try constructor.
  - apply IH. now apply StronglySorted_inv in Hl.
  - apply StronglySorted_inv in Hl as [_ Hx].
    rewrite List.Forall_forall in *. intros y Hy. apply Hx.
    rewrite <- (firstn_skipn n l). apply in_or_app. now left.
Qed.

Lemma map_sorted {A B} (P : A -> A -> Prop) (Q : B -> B -> Prop) (f : A -> B)
  (l : list A) :
  (forall a b, P a b -> Q (f a) (f b)) ->
  StronglySorted P l -> StronglySorted Q (List.map f l).
Proof.
  intros Hf Hl; induction Hl as [|x l Hl IH Hx]; simpl; constructor; [exact IH|].
  rewrite List.Forall_forall in *. intros y Hy.
  apply List.in_map_iff in Hy as (a & <- & Ha). apply Hf, Hx, Ha.
Qed.

(** *** The search, step by step *)

Section WithEmbedder.
Context `{Embedder}.

(** What a search that returns has computed: one scored entry per indexed
    chunk, sorted, cut by [slice(0, k)], turned into distances. *)
Lemma search_shape (st : store) (query : string) (k : Z) (res : list (resultDoc * R)) :
  similaritySearchWithScore st query k = inr res ->
  exists sc, List.length sc = List.length (ids st)
    /\ res = List.map (fun s => (doc s, 1 - score s)) (JS.sliceArr 0 k (sortDesc sc)).
Proof.
  unfold similaritySearchWithScore. cbv zeta.
  destruct (scoresFrom st query (embedOne query) 0 (ids st)) as [f|scores] eqn:Hs;
    [discriminate|].
  apply scoresFrom_length in Hs.
  destruct scores as [|s0 scores].
  - simpl. intros Hr; inversion Hr; subst. exists []. split; [exact Hs|reflexivity].
  - cbn [List.map mathMin mathMax].
    match goal with
    | |- context [mapM ?f ?l] => destruct (mapM f l) as [sc|] eqn:Hm
    end; [|discriminate].
    intros Hr; inversion Hr; subst. exists sc. split; [|reflexivity].
    apply length_mapM in Hm. congruence.
Qed.

Lemma search_length (st : store) (query : string) (k : Z) (res : list (resultDoc * R)) :
  similaritySearchWithScore st query k = inr res ->
  Z.of_nat (List.length res) = JS.relIndex (Z.of_nat (List.length (ids st))) k.
Proof.
  intros Hr. apply search_shape in Hr as (sc & Hlen & ->).
  rewrite List.length_map, sliceArr_length.
  now rewrite (Permutation_length (sortDesc_perm sc)), Hlen.
Qed.

Lemma search_sorted (st : store) (query : string) (k : Z) (res : list (resultDoc * R)) :
  similaritySearchWithScore st query k = inr res ->
  StronglySorted Rle (List.map snd res).
Proof.
  intros Hr. apply search_shape in Hr as (sc & _ & ->).
  rewrite List.map_map. cbn [snd]. rewrite sliceArr_prefix.
  apply (map_sorted (fun a b => score b <= score a)); [intros a b Hab; lra|].
  apply firstn_sorted, sortDesc_sorted.
Qed.

(** For a negative [k], [slice(0, k)] drops the last [-k] results. *)
Lemma search_length_negative_k
  (st : store) (query : string) (k : Z) (res : list (resultDoc * R)) :
  (k < 0)%Z ->
  similaritySearchWithScore st query k = inr res ->
  List.length res = (List.length (ids st) - Z.to_nat (- k))%nat.
Proof.
  intros Hk Hr. apply search_length in Hr. unfold JS.relIndex in Hr.
  destruct (Z.ltb_spec k 0); lia.
Qed.

(** C7. On an index with no chunk the search returns the empty sequence,
    for every query and every [k]: it does not throw, and the minima and
    maxima of the empty score sets are never used. *)
Theorem search_empty_index
  (vecs : list (list R)) (dm : gmap string docEntry) (mt : list chunkMeta)
  (query : string) (k : Z) :
  similaritySearchWithScore
    {| ids := []; vectors := vecs; docsMap := dm; meta := mt |} query k = inr [].
Proof.
  unfold similaritySearchWithScore.
  cbn [ids scoresFrom List.map mathMin mathMax sortDesc fold_right].
  rewrite sliceArr_prefix. now rewrite firstn_nil.
Qed.

(** *** When the search returns *)

Lemma cosLoop_total (a : list R) :
  forall b dot na nb, (List.length a <= List.length b)%nat ->
    is_Some (cosLoop a b dot na nb).
Proof.
  induction a as [|x a IH]; intros b dot na nb Hl; simpl; [eauto|].
  destruct b as [|y b]; simpl in Hl; [lia|]. apply IH. lia.
Qed.

Lemma scoresFrom_total (st : store) (query : string) (q : list R) (l : list string) :
  forall idx,
    (forall j i, l !! j = Some i ->
       (exists v, vectors st !! (idx + j)%nat = Some v
                  /\ (List.length q <= List.length v)%nat)
       /\ is_Some (docsMap st !! i)) ->
    exists ss, scoresFrom st query q idx l = inr ss
      /\ Forall (fun s => is_Some (docsMap st !! s_id s)) ss.
Proof.
  induction l as [|i l IH]; intros idx Hwf; simpl.
  - exists []. split; [reflexivity|constructor].
  - destruct (Hwf 0%nat i eq_refl) as ((v & Hv & Hlen) & (e & He)).
    rewrite Nat.add_0_r in Hv. unfold scoreOf. rewrite Hv, He. cbn [cosSimAt].
    unfold cosSim. destruct (cosLoop_total q v 0 0 0 Hlen) as (((dot & na) & nb) & ->).
    destruct (IH (S idx)) as (ss & -> & Hss).
    { intros j i' Hj. specialize (Hwf (S j) i' Hj).
      now replace (S idx + j)%nat with (idx + S j)%nat by lia. }
    eexists. split; [reflexivity|]. constructor; [simpl; eauto|exact Hss].
Qed.

Lemma search_total (st : store) (query : string) (k : Z) :
  wellFormed st (embedOne query) ->
  exists res, similaritySearchWithScore st query k = inr res.
Proof.
  intros Hwf. unfold similaritySearchWithScore. cbv zeta.
  destruct (scoresFrom_total st query (embedOne query) (ids st) 0) as (ss & -> & Hss).
  { intros j i Hj. simpl. now apply Hwf. }
  destruct ss as [|s0 ss]; [eexists; reflexivity|].
  cbn [List.map mathMin mathMax].
  match goal with
  | |- context [mapM ?f ?l] => destruct (mapM_is_Some_2 f l) as (sc & ->)
  end; [|eexists; reflexivity].
  eapply List.Forall_impl; [|exact Hss].
  intros s (e & He). unfold compose, combine1. rewrite He. eauto.
Qed.

(** C5 (amended). For every query and every [k >= 0]: on a well-formed
    index the search returns, and whenever it returns it gives [min k n]
    pairs, [n] the number of indexed chunks, in order of non-decreasing
    distance. *)
Theorem search_length_and_order (st : store) (query : string) (k : Z) :
  (0 <= k)%Z ->
  (wellFormed st (embedOne query) ->
     exists res, similaritySearchWithScore st query k = inr res)
  /\ (forall res, similaritySearchWithScore st query k = inr res ->
        List.length res = Nat.min (Z.to_nat k) (List.length (ids st))
        /\ StronglySorted Rle (List.map snd res)).
Proof.
  intros Hk. split; [apply search_total|].
  intros res Hr. split; [|eapply search_sorted; eassumption].
  apply search_length in Hr. unfold JS.relIndex in Hr.
  destruct (Z.ltb_spec k 0); lia.
Qed.

Lemma blendAlone_zero (vs ts : R) : blendAlone vs ts = 0.
Proof.
  unfold blendAlone.
  replace (vs - vs) with 0 by lra. replace (ts - ts) with 0 by lra.
  unfold Rdiv. lra.
Qed.

(** What the search computes on an index of one chunk: the raw cosine
    similarity [vs] and the lexical score enter only through their blend
    normalised over the singleton. *)
Lemma single_chunk_shape
  (st : store) (i query : string) (k : Z) (res : list (resultDoc * R)) :
  ids st = [i] ->
  (1 <= k)%Z ->
  similaritySearchWithScore st query k = inr res ->
  exists e vs,
    docsMap st !! i = Some e
    /\ cosSimAt (embedOne query) (vectors st !! 0%nat) = inr vs
    /\ res = [({| r_pageContent := e_text e; r_metadata := e_metadata e |},
               1 - blendAlone vs (calculateTextRelevance query (e_text e)))].
Proof.
  intros Hi Hk. unfold similaritySearchWithScore. cbv zeta. rewrite Hi.
  cbn [scoresFrom]. unfold scoreOf.
  destruct (cosSimAt (embedOne query) (vectors st !! 0%nat)) as [[|]|vs];
    [discriminate|destruct (docsMap st !! i); discriminate|].
  destruct (docsMap st !! i) as [e|] eqn:He; [|discriminate].
  cbn [List.map mathMin mathMax fold_left vectorScore textScore].
  cbn [mapM mbind option_bind mret option_ret]. unfold combine1. cbn [s_id].
  rewrite He. cbn [mapM mbind option_bind mret option_ret vectorScore textScore].
  cbn [sortDesc fold_right insertDesc]. rewrite sliceArr_prefix.
  cbn [List.length].
  replace (Z.to_nat (JS.relIndex (Z.of_nat 1) k)) with 1%nat
    by (unfold JS.relIndex; destruct (Z.ltb_spec k 0); lia).
  cbn [firstn List.map doc score].
  intros Hr; inversion Hr; subst. exists e, vs. repeat split.
Qed.

(** C2 (amended). With a single indexed chunk the search has no separate
    path: normalisation and blending are applied as for any index, both
    normalised scores are 0, and for [k >= 1] the one pair returned has
    distance 1 whatever the raw cosine similarity of the chunk.  On a
    well-formed index the search does return. *)
Theorem single_chunk_distance_is_one (st : store) (i query : string) (k : Z) :
  ids st = [i] ->
  (1 <= k)%Z ->
  (wellFormed st (embedOne query) ->
     exists res, similaritySearchWithScore st query k = inr res)
  /\ (forall res, similaritySearchWithScore st query k = inr res ->
        exists e dist,
          docsMap st !! i = Some e
          /\ res = [({| r_pageContent := e_text e; r_metadata := e_metadata e |}, dist)]
          /\ dist = 1).
Proof.
  intros Hi Hk. split; [apply search_total|]. intros res Hres.
  destruct (single_chunk_shape st i query k res Hi Hk Hres) as (e & vs & He & _ & ->).
  exists e. eexists. split; [exact He|]. split; [reflexivity|].
  rewrite blendAlone_zero. lra.
Qed.

End WithEmbedder.

(** *** The indexes [saveVectorStore] writes *)

Section Written.
Context `{Tokenizer} `{Embedder} `{Hasher}.
Variable now : nat -> string.

Lemma putDoc_keeps (idsArr : list string) (vecs : list (list R))
  (l : list (nat * document)) :
  forall (m : gmap string docEntry) (key : string),
    is_Some (m !! key) -> is_Some (fold_left (putDoc idsArr vecs) l m !! key).
Proof.
  induction l as [|[j d] l IH]; intros m key Hm; [exact Hm|].
  cbn [fold_left]. apply IH. unfold putDoc.
  destruct (idsArr !! j) as [key'|]; [|exact Hm].
  destruct (vecs !! j) as [v|]; [|exact Hm].
  apply lookup_insert_is_Some. destruct (decide (key' = key)); [now left|now right].
Qed.

Lemma putDoc_puts (idsArr : list string) (vecs : list (list R))
  (l : list (nat * document)) (j : nat) (d : document) (key : string) (v : list R) :
  In (j, d) l -> idsArr !! j = Some key -> vecs !! j = Some v ->
  forall m, is_Some (fold_left (putDoc idsArr vecs) l m !! key).
Proof.
  intros Hin Hkey Hv. induction l as [|[j' d'] l IH]; intros m; [destruct Hin|].
  cbn [fold_left]. destruct Hin as [Heq|Hin]; [|now apply IH].
  inversion Heq; subst. apply putDoc_keeps. unfold putDoc. rewrite Hkey, Hv.
  apply lookup_insert_is_Some. now left.
Qed.

Lemma in_combine_seq {A} (l : list A) (idx : nat) (x : A) :
  l !! idx = Some x ->
  forall k, In ((k + idx)%nat, x) (combine (seq k (List.length l)) l).
Proof.
  revert idx; induction l as [|y l IH]; intros idx Hx k; [discriminate|].
  destruct idx as [|idx]; simpl in *.
  - inversion Hx; subst. left. f_equal. lia.
  - right. replace (k + S idx)%nat with (S k + idx)%nat by lia. now apply IH.
Qed.

Lemma lookup_map {A B} (f : A -> B) (l : list A) (idx : nat) :
  List.map f l !! idx = option_map f (l !! idx).
Proof.
  revert idx; induction l as [|x l IH]; intros [|idx]; try reflexivity. apply IH.
Qed.

(** With an embedding model of fixed dimension, every index that
    [saveVectorStore] writes is well formed for every query: a search over
    it returns. *)
Lemma saveVectorStore_wellFormed (docs : list inputDoc) (query : string) :
  (forall s t, List.length (embedOne s) = List.length (embedOne t)) ->
  wellFormed (saveVectorStore now docs) (embedOne query).
Proof.
  intros Hdim idx i Hi. unfold saveVectorStore in *. cbn [ids vectors docsMap] in *.
  set (pd := processDocs now docs) in *.
  rewrite lookup_map in Hi.
  destruct (pd !! idx) as [d|] eqn:Hd; [|discriminate]. inversion Hi; subst i.
  assert (Hv : embed (List.map pageContent pd) !! idx = Some (embedOne (pageContent d))).
  { unfold embed. now rewrite !lookup_map, Hd. }
  split.
  - eexists. split; [exact Hv|]. rewrite (Hdim query (pageContent d)). lia.
  - eapply putDoc_puts.
    + apply (in_combine_seq pd idx d Hd 0%nat).
    + cbn [Nat.add]. rewrite lookup_map, Hd. reflexivity.
    + exact Hv.
Qed.

End Written.

End Search.

(** *** Closed instances *)

Module SearchExamples.
Import Enhanced Notions Search Sample.

Open Scope R_scope.

Lemma oneChunk_wellFormed (query : string) :
  wellFormed oneChunk (@embedOne Sample.axisEmbedder query).
Proof.
  intros idx i Hi. destruct idx as [|idx]; [|discriminate].
  inversion Hi; subst. split; [exists [1; 0]; split; [reflexivity|simpl; lia]|].
  eexists. reflexivity.
Qed.

Lemma twoChunks_wellFormed (query : string) :
  wellFormed twoChunks (@embedOne Sample.axisEmbedder query).
Proof.
  intros idx i Hi. destruct idx as [|[|idx]]; [| |discriminate];
    inversion Hi; subst; (split; [eexists; split; [reflexivity|simpl; lia]|]);
    eexists; reflexivity.
Qed.

Lemma raw_cosine_positive :
  exists c, cosSim (@embedOne Sample.axisEmbedder "pricing") [1; 0] = inr c /\ 0 < c.
Proof.
  eexists. split; [reflexivity|].
  apply Rdiv_lt_0_compat; [lra|].
  apply Rplus_le_lt_0_compat; [|lra].
  apply Rmult_le_pos; apply sqrt_pos.
Qed.

(** C2 (counterexample). On the one-chunk index, for the query "pricing"
    and [k = 8], the search returns one pair whose distance is 1, while the
    raw cosine similarity [c] of the chunk is positive: the distance is not
    [1 - c]. *)
Lemma single_chunk_distance_not_raw_cosine :
  exists d dist c,
    @similaritySearchWithScore Sample.axisEmbedder oneChunk "pricing" 8 = inr [(d, dist)]
    /\ cosSim (@embedOne Sample.axisEmbedder "pricing") [1; 0] = inr c
    /\ dist <> 1 - c.
Proof.
  destruct (@search_total Sample.axisEmbedder oneChunk "pricing" 8
              (oneChunk_wellFormed "pricing")) as (res & Hres).
  destruct (@single_chunk_shape Sample.axisEmbedder oneChunk "1" "pricing" 8 res
              eq_refl ltac:(lia) Hres) as (e & vs & _ & Hvs & ->).
  destruct raw_cosine_positive as (c & Hc & Hpos).
  change (cosSimAt (@embedOne Sample.axisEmbedder "pricing") (vectors oneChunk !! 0%nat))
    with (cosSim (@embedOne Sample.axisEmbedder "pricing") [1; 0]) in Hvs.
  eexists _, _, c. split; [exact Hres|]. split; [exact Hc|].
  rewrite blendAlone_zero. lra.
Qed.

(** The amended C2 at the same input. *)
Lemma single_chunk_distance_is_one_witness :
  (exists res, @similaritySearchWithScore Sample.axisEmbedder oneChunk "pricing" 8 = inr res)
  /\ (forall res,
        @similaritySearchWithScore Sample.axisEmbedder oneChunk "pricing" 8 = inr res ->
        exists e dist,
          docsMap oneChunk !! "1" = Some e
          /\ res = [({| r_pageContent := e_text e; r_metadata := e_metadata e |}, dist)]
          /\ dist = 1).
Proof.
  destruct (@single_chunk_distance_is_one Sample.axisEmbedder oneChunk "1" "pricing" 8
              eq_refl ltac:(lia)) as [Hret Hres].
  split; [exact (Hret (oneChunk_wellFormed "pricing"))|exact Hres].
Defined.

(** C5 (counterexample). On the two-chunk index with [k = -1] the search
    returns one pair: its length is not [min k n = -1]. *)
Lemma search_negative_k_length :
  exists res,
    @similaritySearchWithScore Sample.axisEmbedder twoChunks "pricing" (-1) = inr res
    /\ List.length res = 1%nat
    /\ Z.of_nat (List.length res) <> Z.min (-1) (Z.of_nat (List.length (ids twoChunks))).
Proof.
  destruct (@search_total Sample.axisEmbedder twoChunks "pricing" (-1)
              (twoChunks_wellFormed "pricing")) as (res & Hres).
  exists res. split; [exact Hres|].
  pose proof (@search_length_negative_k Sample.axisEmbedder twoChunks "pricing" (-1)%Z res
                ltac:(lia) Hres) as Hl.
  simpl in Hl. split; [exact Hl|]. rewrite Hl. simpl. lia.
Qed.

(** The amended C5 at [k = 1] on the same index. *)
Lemma search_length_and_order_witness :
  (exists res, @similaritySearchWithScore Sample.axisEmbedder twoChunks "pricing" 1 = inr res)
  /\ (forall res,
        @similaritySearchWithScore Sample.axisEmbedder twoChunks "pricing" 1 = inr res ->
        List.length res = Nat.min (Z.to_nat 1) (List.length (ids twoChunks))
        /\ StronglySorted Rle (List.map snd res)).
Proof.
  destruct (@search_length_and_order Sample.axisEmbedder twoChunks "pricing" 1
              ltac:(lia)) as [Hret Hres].
  split; [exact (Hret (twoChunks_wellFormed "pricing"))|exact Hres].
Defined.

End SearchExamples.

(** ** The checksum status check *)

Module Status.
Import Enhanced Notions.

(** *** Grouping the chunks by source *)

Lemma mapGet_groupChunk (m : chunkMeta) (docs : list (string * existing)) (f : string) :
  mapGet f (groupChunk m docs) =
    if String.eqb (source m) f then
      Some match mapGet f docs with
           | Some e => {| ex_chunks := ex_chunks e ++ [m];
                          checksums := checksums e ∪ {[ checksum m ]};
                          lastIngested := lastIngested e |}
           | None => {| ex_chunks := [m]; checksums := {[ checksum m ]};
                        lastIngested := dateIngested m |}
           end
    else mapGet f docs.
Proof.
  induction docs as [|[k' e] docs IH]; simpl.
  - destruct (String.eqb_spec (source m) f); reflexivity.
  - destruct (String.eqb_spec k' (source m)) as [->|Hk]; simpl.
    + destruct (String.eqb_spec (source m) f); reflexivity.
    + destruct (String.eqb_spec k' f) as [->|Hf].
      * destruct (String.eqb_spec (source m) f); [congruence|reflexivity].
      * exact IH.
Qed.

Lemma groupBySource_snoc (l : list chunkMeta) (m : chunkMeta) :
  groupBySource (l ++ [m]) = groupChunk m (groupBySource l).
Proof. unfold groupBySource. now rewrite fold_left_app. Qed.

(** The map holds a binding for exactly the recorded files, and its set of
    checksums is the set of the checksums recorded for the file. *)
Lemma mapGet_groupBySource (metaList : list chunkMeta) (f : string) :
  match mapGet f (groupBySource metaList) with
  | Some e => recorded metaList f
              /\ forall c, c ∈ checksums e <-> recordedChecksum metaList f c
  | None => ~ recorded metaList f
  end.
Proof.
  induction metaList as [|m l IH] using rev_ind.
  - simpl. intros (m & [] & _).
  - rewrite groupBySource_snoc, mapGet_groupChunk.
    destruct (String.eqb_spec (source m) f) as [Hm|Hm].
    + split; [exists m; split; [apply in_or_app; right; now left|exact Hm]|].
      intros c. destruct (mapGet f (groupBySource l)) as [e|].
      * destruct IH as [_ IH]. cbn [checksums]. rewrite elem_of_union, elem_of_singleton, IH.
        split.
        -- intros [(m' & Hin & Hs & Hc)| ->].
           ++ exists m'. split; [apply in_or_app; now left|now split].
           ++ exists m. split; [apply in_or_app; right; now left|now split].
        -- intros (m' & Hin & Hs & Hc). apply in_app_or in Hin as [Hin|[<-|[]]].
           ++ left. exists m'. now repeat split.
           ++ right. now symmetry.
      * cbn [checksums]. rewrite elem_of_singleton. split.
        -- intros ->. exists m. split; [apply in_or_app; right; now left|now split].
        -- intros (m' & Hin & Hs & Hc). apply in_app_or in Hin as [Hin|[<-|[]]].
           ++ exfalso. apply IH. exists m'. now split.
           ++ now symmetry.
    + destruct (mapGet f (groupBySource l)) as [e|].
      * destruct IH as [Hr IH]. split.
        -- destruct Hr as (m' & Hin & Hs). exists m'. split; [apply in_or_app; now left|exact Hs].
        -- intros c. rewrite IH. split.
           ++ intros (m' & Hin & Hs & Hc). exists m'. split; [apply in_or_app; now left|now split].
           ++ intros (m' & Hin & Hs & Hc). apply in_app_or in Hin as [Hin|[<-|[]]].
              ** exists m'. now repeat split.
              ** contradiction.
      * intros (m' & Hin & Hs). apply in_app_or in Hin as [Hin|[<-|[]]].
        -- apply IH. exists m'. now split.
        -- contradiction.
Qed.

Lemma mapGet_keys {V} (f : string) (m : list (string * V)) :
  In f (List.map fst m) <-> is_Some (mapGet f m).
Proof.
  induction m as [|[k' v] m IH]; simpl.
  - split; [intros []|intros (x & Hx); discriminate].
  - destruct (String.eqb_spec k' f) as [->|Hk].
    + split; [eauto|now left].
    + rewrite <- IH. split; [intros [?|?]; [contradiction|assumption]|now right].
Qed.

(** *** The two loops *)

Section WithHasher.
Context `{Hasher}.

Lemma classify_fold (ex : list (string * existing)) (fs : fileSystem) (files : list string) :
  forall st,
    let st' := fold_left (classify ex fs) files st in
    unchanged st' = unchanged st ++ List.filter (verdictIs Unchanged ex fs) files
    /\ modified st' = modified st ++ List.filter (verdictIs Modified ex fs) files
    /\ new st' = new st ++ List.filter (verdictIs New ex fs) files
    /\ deleted st' = deleted st.
Proof.
  induction files as [|f files IH]; intros st; cbn [fold_left List.filter].
  - cbv zeta. rewrite !app_nil_r. auto.
  - specialize (IH (classify ex fs st f)). cbv zeta in *.
    destruct IH as (-> & -> & -> & ->).
    unfold classify, verdictIs, verdictOf.
    destruct (fingerprintText fs f) as [content|];
      [destruct (mapGet f ex) as [e|]; [destruct (bool_decide _)|]|];
      cbn [unchanged modified new deleted]; rewrite <- ?app_assoc; auto.
Qed.

Lemma markDeleted_fold (files : list string) (ex : list (string * existing)) :
  forall st,
    let st' := fold_left (markDeleted files) ex st in
    unchanged st' = unchanged st /\ modified st' = modified st /\ new st' = new st
    /\ deleted st' = deleted st
         ++ List.filter (fun f => negb (bool_decide (f ∈ files))) (List.map fst ex).
Proof.
  induction ex as [|[k' e] ex IH]; intros st; cbn [fold_left List.filter List.map].
  - cbv zeta. rewrite app_nil_r. auto.
  - specialize (IH (markDeleted files st (k', e))). cbv zeta in *.
    destruct IH as (-> & -> & -> & ->).
    unfold markDeleted. cbn [fst]. destruct (negb (bool_decide (k' ∈ files)));
      cbn [unchanged modified new deleted]; rewrite <- ?app_assoc; auto.
Qed.

(** The four lists of a status check that returns. *)
Lemma checkDocumentStatus_lists (fs : fileSystem) (metaList : list chunkMeta)
  (names : list string) (st : status) :
  readdir fs = Some names ->
  checkDocumentStatus fs metaList = Some st ->
  let files := List.filter isSourceFile names in
  let ex := groupBySource metaList in
  unchanged st = List.filter (verdictIs Unchanged ex fs) files
  /\ modified st = List.filter (verdictIs Modified ex fs) files
  /\ new st = List.filter (verdictIs New ex fs) files
  /\ deleted st = List.filter (fun f => negb (bool_decide (f ∈ files))) (List.map fst ex).
Proof.
  intros Hdir. unfold checkDocumentStatus. rewrite Hdir. cbv zeta.
  intros Hst; inversion Hst as [Hst']; clear Hst.
  destruct (markDeleted_fold (List.filter isSourceFile names) (groupBySource metaList)
              (fold_left (classify (groupBySource metaList) fs)
                 (List.filter isSourceFile names)
                 {| unchanged := []; modified := []; new := []; deleted := [] |}))
    as (-> & -> & -> & ->).
  destruct (classify_fold (groupBySource metaList) fs (List.filter isSourceFile names)
              {| unchanged := []; modified := []; new := []; deleted := [] |})
    as (-> & -> & -> & ->).
  auto.
Qed.

Lemma checkDocumentStatus_members (fs : fileSystem) (metaList : list chunkMeta)
  (names : list string) (st : status) (f : string) :
  readdir fs = Some names ->
  checkDocumentStatus fs metaList = Some st ->
  let files := List.filter isSourceFile names in
  let ex := groupBySource metaList in
  (In f (unchanged st) <-> In f files /\ verdictOf ex fs f = Unchanged)
  /\ (In f (modified st) <-> In f files /\ verdictOf ex fs f = Modified)
  /\ (In f (new st) <-> In f files /\ verdictOf ex fs f = New)
  /\ (In f (deleted st) <-> is_Some (mapGet f ex) /\ ~ In f files).
Proof.
  intros Hdir Hst. cbv zeta.
  destruct (checkDocumentStatus_lists fs metaList names st Hdir Hst) as (-> & -> & -> & ->).
  set (files := List.filter isSourceFile names).
  set (ex := groupBySource metaList).
  rewrite !filter_In. unfold verdictIs.
  split; [|split; [|split]].
  - split; intros [Hin Hv]; (split; [exact Hin|]);
      destruct (verdictOf ex fs f); congruence.
  - split; intros [Hin Hv]; (split; [exact Hin|]);
      destruct (verdictOf ex fs f); congruence.
  - split; intros [Hin Hv]; (split; [exact Hin|]);
      destruct (verdictOf ex fs f); congruence.
  - rewrite mapGet_keys, negb_true_iff, bool_decide_eq_false, list_elem_of_In.
    reflexivity.
Qed.

Lemma ex_Some {A} (c : A) (P : A -> Prop) :
  (exists c', Some c = Some c' /\ P c') <-> P c.
Proof.
  split; [intros (c' & Hc & HP); inversion Hc; now subst|intros HP; now exists c].
Qed.

Lemma ex_None {A} (P : A -> Prop) :
  (exists c', @None A = Some c' /\ P c') <-> False.
Proof. split; [intros (c' & Hc & _); discriminate|intros []]. Qed.

Lemma is_Some_Some {A} (c : A) : is_Some (Some c) <-> True.
Proof. split; [trivial|intros _; now exists c]. Qed.

Lemma is_Some_None {A} : is_Some (@None A) <-> False.
Proof. split; [intros (c & Hc); discriminate|intros []]. Qed.

(** C4 (amended). For every set of records and every directory listing, a
    status check that returns classifies the file names as follows.  A listed
    file whose fingerprint text can be read is [new] when it has no record,
    [unchanged] when a recorded checksum of it equals its checksum, and
    [modified] when it has a record and no recorded checksum equals its
    checksum.  A listed file that cannot be read is [modified], with or
    without a record.  A recorded file that is not listed is [deleted].  No
    name is in two of the four lists, and every listed or recorded name is
    in one. *)
Theorem checkDocumentStatus_classification (fs : fileSystem) (metaList : list chunkMeta)
  (names : list string) (st : status) (f : string) :
  readdir fs = Some names ->
  checkDocumentStatus fs metaList = Some st ->
  let files := List.filter isSourceFile names in
  let U := In f (unchanged st) in
  let M := In f (modified st) in
  let N := In f (new st) in
  let D := In f (deleted st) in
  (N <-> In f files /\ ~ recorded metaList f /\ is_Some (fingerprintText fs f))
  /\ (U <-> In f files
            /\ exists c, fingerprintText fs f = Some c
                         /\ recordedChecksum metaList f (md5hex c))
  /\ (M <-> In f files
            /\ (fingerprintText fs f = None
                \/ exists c, fingerprintText fs f = Some c
                             /\ recorded metaList f
                             /\ ~ recordedChecksum metaList f (md5hex c)))
  /\ (D <-> recorded metaList f /\ ~ In f files)
  /\ ~ (U /\ M) /\ ~ (U /\ N) /\ ~ (U /\ D) /\ ~ (M /\ N) /\ ~ (M /\ D) /\ ~ (N /\ D)
  /\ (In f files \/ recorded metaList f -> U \/ M \/ N \/ D).
Proof.
  intros Hdir Hst. cbv zeta.
  destruct (checkDocumentStatus_members fs metaList names st f Hdir Hst)
    as (HU & HM & HN & HD).
  rewrite HU, HM, HN, HD. clear HU HM HN HD.
  set (files := List.filter isSourceFile names).
  pose proof (mapGet_groupBySource metaList f) as Hg.
  assert (Hrc : forall c, recordedChecksum metaList f c -> recorded metaList f)
    by (intros c (m & Hin & Hs & _); exists m; now split).
  unfold verdictOf.
  destruct (fingerprintText fs f) as [c|].
  - rewrite !ex_Some, is_Some_Some.
    destruct (mapGet f (groupBySource metaList)) as [e|].
    + destruct Hg as [Hrec Hsum]. rewrite is_Some_Some.
      destruct (bool_decide (md5hex c ∈ checksums e)) eqn:Hb.
      * apply bool_decide_eq_true in Hb. apply Hsum in Hb.
        destruct (in_dec string_dec f files);
          intuition (try discriminate; try congruence).
      * apply bool_decide_eq_false in Hb. rewrite Hsum in Hb.
        destruct (in_dec string_dec f files);
          intuition (try discriminate; try congruence).
    + rewrite is_Some_None. specialize (Hrc (md5hex c)).
      destruct (in_dec string_dec f files);
        intuition (try discriminate; try congruence).
  - rewrite !ex_None, is_Some_None.
    destruct (mapGet f (groupBySource metaList)) as [e|].
    + destruct Hg as [Hrec Hsum]. rewrite is_Some_Some.
      destruct (in_dec string_dec f files);
        intuition (try discriminate; try congruence).
    + rewrite is_Some_None.
      destruct (in_dec string_dec f files);
        intuition (try discriminate; try congruence).
Qed.

End WithHasher.
End Status.

Module StatusExamples.
Import Enhanced Notions Status Sample.

(** C4 (counterexample). notes.md is listed and has no record, yet the
    status check puts it in [modified], not in [new]. *)
Lemma unreadable_unrecorded_file_is_not_new :
  exists st,
    @checkDocumentStatus Sample.textHasher unreadableDir [] = Some st
    /\ readdir unreadableDir = Some ["notes.md"]
    /\ ~ recorded [] "notes.md"
    /\ ~ In "notes.md" (new st)
    /\ In "notes.md" (modified st).
Proof.
  eexists. split; [reflexivity|]. split; [reflexivity|]. cbn.
  split; [intros (m & [] & _)|]. split; [intros []|now left].
Qed.

Example mixedDir_status :
  @checkDocumentStatus Sample.textHasher mixedDir mixedRecords
  = Some {| unchanged := ["a.md"]; modified := ["b.txt"]; new := ["c.md"];
            deleted := ["d.md"] |}.
Proof. vm_compute. reflexivity. Qed.

(** What "matching fingerprint" means for a PDF: the record holds the
    checksum of the extracted text, the status check hashes the name, size
    and modification time, so a PDF that was just ingested and not touched
    since is read as [modified]. *)
Example ingested_pdf_is_read_as_modified :
  List.map checksum pdfRecords = ["Pricing deck"]
  /\ fingerprintText pdfDir "deck.pdf" = Some "deck.pdf-2048-1700000000000"
  /\ @checkDocumentStatus Sample.textHasher pdfDir pdfRecords
     = Some {| unchanged := []; modified := ["deck.pdf"]; new := []; deleted := [] |}.
Proof. vm_compute. repeat split. Qed.

(** The amended C4 at the file b.txt of that directory. *)
Lemma checkDocumentStatus_classification_witness :
  let st := {| unchanged := ["a.md"]; modified := ["b.txt"]; new := ["c.md"];
               deleted := ["d.md"] |} in
  let f := "b.txt" in
  let files := List.filter isSourceFile ["a.md"; "b.txt"; "c.md"; "README"] in
  let U := In f (unchanged st) in
  let M := In f (modified st) in
  let N := In f (new st) in
  let D := In f (deleted st) in
  (N <-> In f files /\ ~ recorded mixedRecords f /\ is_Some (fingerprintText mixedDir f))
  /\ (U <-> In f files
            /\ exists c, fingerprintText mixedDir f = Some c
                         /\ recordedChecksum mixedRecords f (@md5hex Sample.textHasher c))
  /\ (M <-> In f files
            /\ (fingerprintText mixedDir f = None
                \/ exists c, fingerprintText mixedDir f = Some c
                             /\ recorded mixedRecords f
                             /\ ~ recordedChecksum mixedRecords f (@md5hex Sample.textHasher c)))
  /\ (D <-> recorded mixedRecords f /\ ~ In f files)
  /\ ~ (U /\ M) /\ ~ (U /\ N) /\ ~ (U /\ D) /\ ~ (M /\ N) /\ ~ (M /\ D) /\ ~ (N /\ D)
  /\ (In f files \/ recorded mixedRecords f -> U \/ M \/ N \/ D).
Proof.
  exact (@checkDocumentStatus_classification Sample.textHasher mixedDir mixedRecords
           ["a.md"; "b.txt"; "c.md"; "README"] _ "b.txt" eq_refl mixedDir_status).
Defined.

End StatusExamples.

(** ** An ingestion run against a directory with an unchanged file *)

Module IngestRun.
Import Enhanced Ingest Notions Sample.

Section WithModels.
Context `{Tokenizer} `{Embedder} `{Hasher}.
Variable now : nat -> string.

Ltac one_sentence txt :=
  unfold chunkTextEnhanced;
  change (JS.split JS.sepBlankLine txt) with [txt];
  cbn [fold_left]; unfold addParagraph;
  change (String.length (JS.trim txt) =? 0)%nat with false; cbv iota zeta;
  change (JS.split JS.sepTerminators txt) with [txt];
  cbn [fold_left];
  rewrite (EnhancedChunker.addSentence_append 800 120 _ txt)
    by (try reflexivity; right; reflexivity);
  cbn [chunks currentChunk currentTokens]; unfold closeChunk;
  cbn [chunks currentChunk currentTokens List.length].

Lemma chunks_contentA :
  chunkTextEnhanced contentA 800 120
  = [{| text := "Alpha pricing."; start := 0; stop := 1; tokens := countTokens contentA |}].
Proof. one_sentence contentA. reflexivity. Qed.

Lemma chunks_contentB :
  chunkTextEnhanced contentB 800 120
  = [{| text := "Beta sales."; start := 0; stop := 1; tokens := countTokens contentB |}].
Proof. one_sentence contentB. reflexivity. Qed.

Lemma meta_first :
  meta (saveVectorStore now [docA])
  = [{| id := "1"; source := "a.md"; pageSpan := "Chunk 1/1"; section := "";
        tags := ["pricing"; "markdown"]; version := "v3"; chunkIndex := 0;
        totalChunks := 1; originalLength := 13; m_tokens := countTokens contentA;
        dateIngested := now 1%nat; checksum := md5hex contentA |}].
Proof.
  unfold saveVectorStore, processDocs. cbn [fold_left meta]. unfold pushDoc.
  cbn [in_pageContent docA]. rewrite chunks_contentA.
  reflexivity.
Qed.

Lemma first_run : run now noArgs dirA [] = Saved (saveVectorStore now [docA]).
Proof. reflexivity. Qed.

(** After the first run, with b.md added: a.md is unchanged, b.md is new. *)
Lemma second_status :
  checkDocumentStatus dirAB (meta (saveVectorStore now [docA]))
  = Some {| unchanged := ["a.md"]; modified := []; new := ["b.md"]; deleted := [] |}.
Proof.
  rewrite meta_first. unfold checkDocumentStatus.
  cbn [readdir dirAB].
  change (List.filter isSourceFile ["a.md"; "b.md"]) with ["a.md"; "b.md"].
  cbv zeta. unfold groupBySource. cbn [fold_left groupChunk source checksum dateIngested].
  unfold classify.
  change (fingerprintText dirAB "a.md") with (Some contentA).
  change (fingerprintText dirAB "b.md") with (Some contentB).
  cbn [mapGet String.eqb Ascii.eqb Bool.eqb checksums].
  rewrite bool_decide_true by (now apply elem_of_singleton).
  cbn [unchanged modified new deleted app].
  reflexivity.
Qed.

Lemma second_run :
  run now noArgs dirAB (meta (saveVectorStore now [docA]))
  = Saved (saveVectorStore now [docB]).
Proof. unfold run. rewrite second_status. reflexivity. Qed.

Lemma rebuild_all :
  fullRebuild now noArgs dirAB = Some (saveVectorStore now [docA; docB]).
Proof. reflexivity. Qed.

(** An unchanged file is not ingested again: the run ends before anything
    is written. *)
Lemma unchanged_file_is_skipped :
  run now {| targetFile := Some "a.md"; cliTags := None |} dirA
    (meta (saveVectorStore now [docA])) = Exit 0
  /\ run now noArgs dirA (meta (saveVectorStore now [docA])) = Exit 0.
Proof.
  assert (Hs : checkDocumentStatus dirA (meta (saveVectorStore now [docA]))
               = Some {| unchanged := ["a.md"]; modified := []; new := []; deleted := [] |}).
  { rewrite meta_first. unfold checkDocumentStatus.
    cbn [readdir dirA].
    change (List.filter isSourceFile ["a.md"]) with ["a.md"].
    cbv zeta. unfold groupBySource. cbn [fold_left groupChunk source checksum dateIngested].
    unfold classify.
    change (fingerprintText dirA "a.md") with (Some contentA).
    cbn [mapGet String.eqb Ascii.eqb Bool.eqb checksums].
    rewrite bool_decide_true by (now apply elem_of_singleton).
    reflexivity. }
  unfold run. rewrite Hs. split; reflexivity.
Qed.

(** C1 (evaluation at the failing input). First a.md is ingested; then
    b.md is added and the script is run again.  The status check finds a.md
    unchanged and b.md new, the run writes an index that holds the chunk of
    b.md only, and a rebuild from both files holds the chunks of both: the
    chunk of the unchanged a.md is gone from the persisted index. *)
Theorem incremental_run_drops_unchanged_file :
  let st1 := saveVectorStore now [docA] in
  let st2 := saveVectorStore now [docB] in
  let full := saveVectorStore now [docA; docB] in
  run now noArgs dirA [] = Saved st1
  /\ checkDocumentStatus dirAB (meta st1)
     = Some {| unchanged := ["a.md"]; modified := []; new := ["b.md"]; deleted := [] |}
  /\ run now noArgs dirAB (meta st1) = Saved st2
  /\ fullRebuild now noArgs dirAB = Some full
  /\ contents st1 = [("1", Some ("a.md", "Alpha pricing."))]
  /\ contents st2 = [("1", Some ("b.md", "Beta sales."))]
  /\ contents full = [("1", Some ("a.md", "Alpha pricing."));
                      ("2", Some ("b.md", "Beta sales."))]
  /\ st2 <> full.
Proof.
  cbv zeta.
  split; [exact first_run|]. split; [exact second_status|].
  split; [exact second_run|]. split; [exact rebuild_all|].
  assert (HA : contents (saveVectorStore now [docA])
               = [("1", Some ("a.md", "Alpha pricing."))]).
  { unfold contents, saveVectorStore, processDocs. cbn [fold_left]. unfold pushDoc.
    cbn [in_pageContent docA]. rewrite chunks_contentA. reflexivity. }
  assert (HB : contents (saveVectorStore now [docB])
               = [("1", Some ("b.md", "Beta sales."))]).
  { unfold contents, saveVectorStore, processDocs. cbn [fold_left]. unfold pushDoc.
    cbn [in_pageContent docB]. rewrite chunks_contentB. reflexivity. }
  assert (HAB : contents (saveVectorStore now [docA; docB])
                = [("1", Some ("a.md", "Alpha pricing."));
                   ("2", Some ("b.md", "Beta sales."))]).
  { unfold contents, saveVectorStore, processDocs. cbn [fold_left]. unfold pushDoc.
    cbn [in_pageContent docA docB]. rewrite chunks_contentA, chunks_contentB. reflexivity. }
  repeat split; try assumption.
  intros Heq. rewrite Heq, HAB in HB. discriminate.
Qed.

End WithModels.
End IngestRun.

(** ** The replies of the ask handler *)

Module AskReplies.
Import Enhanced Ask.

Section WithRuntime.
Context `{Embedder}.
Variable toFixed3 : R -> string.
Variable randomString : string.
Variable generateEnhanced : string -> string -> list (resultDoc * R) -> string.

Abbreviation respond := (Ask.respond toFixed3 randomString generateEnhanced).
Abbreviation handler := (Ask.handler toFixed3 randomString generateEnhanced).

(** The reply built for zero contexts is reachable: an index with no
    chunk. *)
Lemma handler_on_empty_index (req : request)
  (vecs : list (list R)) (dm : gmap string docEntry) (mt : list chunkMeta) :
  (3 <= String.length (query req))%nat ->
  (10 <= String.length (systemPrompt req))%nat ->
  handler req (Some {| ids := []; vectors := vecs; docsMap := dm; meta := mt |})
  = Ok200 (respond req (List.length mt) []).
Proof.
  intros Hq Hp. unfold Ask.handler.
  destruct (Nat.ltb_spec (String.length (query req)) 3); [lia|].
  destruct (Nat.ltb_spec (String.length (systemPrompt req)) 10); [lia|].
  cbn [orb]. unfold similaritySearchWithScore.
  cbn [ids scoresFrom List.map mathMin mathMax sortDesc fold_right meta].
  rewrite Search.sliceArr_prefix. now rewrite firstn_nil.
Qed.

(** The branch that sets [noContext] is never taken: the test
    [contexts.length < 2] before it has already returned. *)
Lemma noContext_never_set (req : request) (metaLength : nat)
  (ctxs : list (resultDoc * R)) :
  noContext (respond req metaLength ctxs) = None.
Proof.
  unfold Ask.respond. cbv zeta.
  destruct (Nat.ltb_spec (List.length ctxs) 2) as [Hlt|Hge]; [reflexivity|].
  destruct (Nat.eqb_spec (List.length ctxs) 0); [lia|reflexivity].
Qed.

(** C9 (evaluation at the failing input). With zero contexts the handler
    replies with the insufficient-corpus answer and [insufficient: true],
    without [noContext]: the same text template and the same markers as
    with one context.  The two replies differ only in the echoed count and
    in the list of contexts. *)
Theorem zero_contexts_reply_is_the_insufficient_reply
  (req : request) (metaLength : nat) (c : resultDoc * R) :
  let r0 := respond req metaLength [] in
  let r1 := respond req metaLength [c] in
  answer r0 = insufficientResponse (query req) metaLength 0
  /\ answer r1 = insufficientResponse (query req) metaLength 1
  /\ insufficient r0 = true /\ insufficient r1 = true
  /\ noContext r0 = None /\ noContext r1 = None
  /\ system r0 = system r1 /\ totalDocuments r0 = totalDocuments r1
  /\ searchResults r0 = 0%nat /\ searchResults r1 = 1%nat
  /\ answer r0 <> noContextResponse (query req) metaLength.
Proof.
  cbv zeta. unfold Ask.respond. cbn [List.length Nat.ltb Nat.leb List.map
    answer insufficient noContext system totalDocuments searchResults].
  repeat split.
  unfold insufficientResponse, noContextResponse. intros Heq.
  apply (f_equal (fun s => String.get 0 s)) in Heq. discriminate.
Qed.

End WithRuntime.
End AskReplies.

(** ** Closed instances for the chunkers *)

Module ChunkerExamples.
Import Enhanced Notions EnhancedChunker Sample.

(** With the byte-level tokenizer and the defaults of the program's
    arithmetic scaled down ([maxTokens = 10], [overlapTokens = 2]): the
    second chunk starts with the 8 characters seeded from the first and
    records 18 tokens. *)
Example byte_level_overlap_overflow :
  @chunkTextEnhanced Sample.byteTokenizer "aaaa bbbb. cccc dddd. e." 10 2
  = [{| text := "aaaa bbbb."; start := 0; stop := 1; tokens := 9 |};
     {| text := "a bbbb.  cccc dddd."; start := 1; stop := 2; tokens := 18 |};
     {| text := "c dddd.  e."; start := 2; stop := 3; tokens := 10 |}].
Proof. vm_compute. reflexivity. Qed.

(** With [overlapTokens = 0] the seed is [slice(-0)], the whole chunk just
    closed. *)
Example zero_overlap_seeds_whole_chunk :
  @chunkTextEnhanced Sample.byteTokenizer "aaaa. bbbb. cc." 6 0
  = [{| text := "aaaa."; start := 0; stop := 1; tokens := 4 |};
     {| text := "aaaa.  bbbb."; start := 1; stop := 2; tokens := 11 |};
     {| text := "aaaa.  bbbb.  cc."; start := 2; stop := 3; tokens := 16 |}].
Proof. vm_compute. reflexivity. Qed.

(** C3 at the parameters [saveVectorStore] passes, 800 and 120, with the
    byte-level tokenizer: two sentences of 700 tokens; the second chunk
    starts with the 480 characters seeded from the first and records
    480 + 700 tokens. *)
Lemma overlap_seeded_chunk_exceeds_budget_witness :
  let s1 := replicate 700 "a" in
  let s2 := replicate 700 "b" in
  Forall (fun s => (@countTokens Sample.byteTokenizer s <= 800)%nat)
    (sentencesOf (s1 +:+ "." +:+ s2))
  /\ exists c1 c2,
       @chunkTextEnhanced Sample.byteTokenizer (s1 +:+ "." +:+ s2) 800 120 = [c1; c2]
       /\ tokens c1 = @countTokens Sample.byteTokenizer s1
       /\ tokens c2 = (@countTokens Sample.byteTokenizer (seedAfter 120 s1)
                       + @countTokens Sample.byteTokenizer s2)%nat
       /\ (800 < tokens c2)%nat.
Proof.
  apply (@overlap_seeded_chunk_exceeds_budget Sample.byteTokenizer 800 120
           (replicate 700 "a") (replicate 700 "b"));
    try (split; vm_compute; reflexivity); vm_compute; lia.
Defined.

Example default_parameters_overflow :
  List.map tokens
    (@chunkTextEnhanced Sample.byteTokenizer
       (replicate 700 "a" +:+ "." +:+ replicate 700 "b") 800 120)
  = [700; 1180]%nat.
Proof. vm_compute. reflexivity. Qed.

(** C8 for two presentations of the byte-level tokenizer. *)
Lemma chunking_is_deterministic_witness :
  @chunkTextEnhanced Sample.byteTokenizer "One. Two! Three?" 800 120
    = @chunkTextEnhanced byteTokenizer' "One. Two! Three?" 800 120
  /\ forall (fuel1 fuel2 : nat) (r1 r2 : list Chunker.chunk),
       @Chunker.chunkText Sample.byteTokenizer fuel1 "One. Two! Three?" 800 120 = Some r1 ->
       @Chunker.chunkText byteTokenizer' fuel2 "One. Two! Three?" 800 120 = Some r2 ->
       r1 = r2.
Proof.
  exact (chunking_is_deterministic Sample.byteTokenizer byteTokenizer'
           bytesOf_encode ofBytes_decode "One. Two! Three?" 800 120).
Defined.

Example chunkText_window :
  @Chunker.chunkText Sample.byteTokenizer 11 "abcdefghij" 4 1
  = Some [{| Chunker.text := "abcd"; Chunker.start := 0; Chunker.stop := 4 |};
          {| Chunker.text := "defg"; Chunker.start := 3; Chunker.stop := 7 |};
          {| Chunker.text := "ghij"; Chunker.start := 6; Chunker.stop := 10 |}].
Proof. vm_compute. reflexivity. Qed.

(** C10 at a ten-token text: with [maxTokens = 4] and [overlapTokens = 1]
    every budget above 10 steps gives the chunks; with [overlapTokens = 4]
    no budget does. *)
Lemma chunkText_terminates_iff_overlap_below_max_witness :
  (exists out, forall fuel, (10 < fuel)%nat ->
     @Chunker.chunkText Sample.byteTokenizer fuel "abcdefghij" 4 1 = Some out)
  /\ (forall fuel, @Chunker.chunkText Sample.byteTokenizer fuel "abcdefghij" 4 4 = None).
Proof.
  destruct (@chunkText_terminates_iff_overlap_below_max Sample.byteTokenizer
              "abcdefghij" 4 1) as [Hterm _].
  destruct (@chunkText_terminates_iff_overlap_below_max Sample.byteTokenizer
              "abcdefghij" 4 4) as [_ Hdiv].
  split.
  - apply Hterm. lia.
  - apply Hdiv; [lia|vm_compute; lia].
Defined.

End ChunkerExamples.

(** * Further properties *)

(** ** Bounds on the scores *)

Module ScoreBounds.
Import Enhanced Notions SearchNotions.

Open Scope R_scope.

Lemma ln_1_plus_lt (x : R) : 0 < x -> 0 < ln (1 + x) < x.
Proof.
  intros Hx. split.
  - rewrite <- ln_1. apply ln_increasing; lra.
  - rewrite <- (ln_exp x) at 2. apply ln_increasing; [lra|].
    apply exp_ineq1. lra.
Qed.

Lemma termOf_bounds (c L : nat) : (0 < L)%nat -> 0 <= termOf c L <= 1.
Proof.
  intros HL. unfold termOf. destruct (Nat.eqb_spec c 0) as [->|Hc]; [lra|].
  assert (Hc' : 0 < INR c) by (apply lt_0_INR; lia).
  assert (HL' : 0 < INR L) by (apply lt_0_INR; lia).
  assert (Hx : 0 < INR L / INR c) by (apply Rdiv_lt_0_compat; assumption).
  destruct (ln_1_plus_lt _ Hx) as [Hl0 Hl1].
  assert (Hq : 0 < INR c / INR L) by (apply Rdiv_lt_0_compat; assumption).
  split.
  - apply Rmult_le_pos; lra.
  - apply Rle_trans with (INR c / INR L * (INR L / INR c)).
    + apply Rmult_le_compat_l; lra.
    + right. field. split; lra.
Qed.

Lemma termOf_pos (c L : nat) : (0 < L)%nat -> (0 < c)%nat -> 0 < termOf c L.
Proof.
  intros HL Hc. unfold termOf. destruct (Nat.eqb_spec c 0) as [->|_]; [lia|].
  assert (Hc' : 0 < INR c) by (apply lt_0_INR; lia).
  assert (HL' : 0 < INR L) by (apply lt_0_INR; lia).
  assert (Hx : 0 < INR L / INR c) by (apply Rdiv_lt_0_compat; assumption).
  destruct (ln_1_plus_lt _ Hx) as [Hl0 _].
  apply Rmult_lt_0_compat; [apply Rdiv_lt_0_compat; assumption|exact Hl0].
Qed.

Lemma sum_terms_bounds (f : string -> R) (l : list string) :
  (forall w, 0 <= f w <= 1) ->
  0 <= fold_right Rplus 0 (List.map f l) <= INR (List.length l).
Proof.
  intros Hf. induction l as [|w l IH].
  - simpl. lra.
  - cbn [List.map fold_right List.length]. rewrite S_INR. specialize (Hf w). lra.
Qed.

Lemma sum_terms_pos (f : string -> R) (l : list string) :
  (forall w, 0 <= f w) ->
  (0 < fold_right Rplus 0 (List.map f l) <-> exists w, In w l /\ 0 < f w).
Proof.
  intros Hf. induction l as [|w l IH].
  - simpl. split; [lra|intros (w & [] & _)].
  - cbn [List.map fold_right].
    assert (Hs : 0 <= fold_right Rplus 0 (List.map f l)).
    { clear IH. induction l as [|w' l IH']; simpl; [lra|]. specialize (Hf w'). lra. }
    split.
    + intros Hpos. destruct (Rlt_dec 0 (f w)) as [Hw|Hw].
      * exists w. split; [now left|exact Hw].
      * specialize (Hf w). destruct IH as [IH _].
        destruct IH as (w' & Hin & Hw'); [lra|]. exists w'. split; [now right|exact Hw'].
    + intros (w' & [<-|Hin] & Hw'); [lra|].
      destruct IH as [_ IH]. specialize (Hf w).
      assert (0 < fold_right Rplus 0 (List.map f l)) by (apply IH; eauto). lra.
Qed.

(** X1. The lexical score lies between 0 and the number of query tokens of
    three characters or more; it is positive exactly when one of these is
    contained in some token of the text. *)
Theorem calculateTextRelevance_bounds (query text : string) :
  0 <= calculateTextRelevance query text <= INR (List.length (countedTokens query))
  /\ (0 < calculateTextRelevance query text <->
      exists token w, In token (countedTokens query) /\ In w (lowerTokens text)
                      /\ JS.includes token w = true).
Proof.
  assert (HL : (0 < List.length (lowerTokens text))%nat)
    by (unfold lowerTokens, JS.split; apply Search.splitGo_nonempty).
  unfold calculateTextRelevance. rewrite Search.addWord_fold. rewrite Rplus_0_l.
  fold (lowerTokens text). fold (lowerTokens query). fold (countedTokens query).
  split.
  - apply sum_terms_bounds. intros w. now apply termOf_bounds.
  - rewrite sum_terms_pos by (intros w; now apply termOf_bounds).
    split.
    + intros (token & Hin & Hpos). exists token.
      unfold termOf in Hpos.
      destruct (Nat.eqb_spec (matchCount token (lowerTokens text)) 0) as [Hz|Hnz]; [lra|].
      unfold matchCount in Hnz.
      destruct (List.filter (fun w => JS.includes token w) (lowerTokens text))
        as [|w ws] eqn:Hf; [contradiction|].
      assert (Hw : In w (List.filter (fun w => JS.includes token w) (lowerTokens text)))
        by (rewrite Hf; now left).
      apply filter_In in Hw as [Hw Hi]. exists w. auto.
    + intros (token & w & Hin & Hw & Hi). exists token. split; [exact Hin|].
      apply termOf_pos; [exact HL|]. unfold matchCount.
      assert (Hf : In w (List.filter (fun w => JS.includes token w) (lowerTokens text)))
        by (apply filter_In; auto).
      destruct (List.filter _ _); [destruct Hf|simpl; lia].
Qed.

(** *** Cosine similarity *)






End ScoreBounds.

(** ** What the search returns *)

Module SearchResults.
Import Enhanced Notions SearchNotions.

Open Scope R_scope.

(** *** Minimum and maximum *)

Lemma fold_Rmin_le (t : list R) : forall x, fold_left Rmin t x <= x
  /\ Forall (fun y => fold_left Rmin t x <= y) t.
Proof.
  induction t as [|y t IH]; intros x; simpl; [split; [lra|constructor]|].
  destruct (IH (Rmin x y)) as [H1 H2].
  pose proof (Rmin_l x y). pose proof (Rmin_r x y).
  split; [lra|]. constructor; [lra|exact H2].
Qed.

Lemma fold_Rmax_ge (t : list R) : forall x, x <= fold_left Rmax t x
  /\ Forall (fun y => y <= fold_left Rmax t x) t.
Proof.
  induction t as [|y t IH]; intros x; simpl; [split; [lra|constructor]|].
  destruct (IH (Rmax x y)) as [H1 H2].
  pose proof (Rmax_l x y). pose proof (Rmax_r x y).
  split; [lra|]. constructor; [lra|exact H2].
Qed.

Lemma mathMin_le (xs : list R) (m x : R) :
  mathMin xs = Some m -> In x xs -> m <= x.
Proof.
  destruct xs as [|x0 t]; [discriminate|]. simpl. intros Hm; inversion Hm; subst m.
  destruct (fold_Rmin_le t x0) as [H1 H2]. intros [<-|Hin]; [exact H1|].
  rewrite List.Forall_forall in H2. now apply H2.
Qed.

Lemma mathMax_ge (xs : list R) (m x : R) :
  mathMax xs = Some m -> In x xs -> x <= m.
Proof.
  destruct xs as [|x0 t]; [discriminate|]. simpl. intros Hm; inversion Hm; subst m.
  destruct (fold_Rmax_ge t x0) as [H1 H2]. intros [<-|Hin]; [exact H1|].
  rewrite List.Forall_forall in H2. now apply H2.
Qed.

(** A score normalised between the minimum and the maximum of its set. *)
Lemma normalised_bounds (v lo hi : R) :
  lo <= v <= hi -> 0 <= (v - lo) / (hi - lo + 1e-9) < 1.
Proof.
  intros [H1 H2]. assert (Hd : 0 < hi - lo + 1e-9) by lra. split.
  - apply Rmult_le_pos; [lra|]. left. now apply Rinv_0_lt_compat.
  - apply Rmult_lt_reg_r with (hi - lo + 1e-9); [exact Hd|].
    unfold Rdiv. rewrite Rmult_assoc, Rinv_l by lra. lra.
Qed.

(** *** The stages of the search *)

Lemma scoresFrom_ids (st : store) (query : string) (q : list R) (l : list string) :
  forall idx ss, scoresFrom st query q idx l = inr ss ->
    Forall2 (fun i s => s_id s = i /\ is_Some (docsMap st !! i)) l ss.
Proof.
  induction l as [|i l IH]; intros idx ss Hs; simpl in Hs.
  - inversion Hs. constructor.
  - destruct (scoreOf st query q idx i) as [[|]|s] eqn:Hsc;
      destruct (scoresFrom st query q (S idx) l) as [[|]|ss'] eqn:Hr;
      try discriminate.
    inversion Hs; subst. constructor; [|eapply IH; eassumption].
    unfold scoreOf in Hsc.
    destruct (cosSimAt q (vectors st !! idx)) as [[|]|v];
      destruct (docsMap st !! i) as [e|] eqn:He; try discriminate;
      inversion Hsc; subst; simpl; eauto.
Qed.

Section WithEmbedder.
Context `{Embedder}.

(** A search that returns has scored every id in the order of [ids], each
    with a combined score in [0, 1); for every [k] it sorts the same scored
    chunks and cuts the list. *)
Lemma search_stages_all (st : store) (query : string) (k : Z) (res : list (resultDoc * R)) :
  similaritySearchWithScore st query k = inr res ->
  exists sc,
    Forall2 (fun i s => sd_id s = i
                        /\ (exists e, docsMap st !! i = Some e /\ doc s = docOf e)
                        /\ 0 <= score s < 1) (ids st) sc
    /\ forall k', similaritySearchWithScore st query k'
                  = inr (List.map (fun s => (doc s, 1 - score s))
                           (JS.sliceArr 0 k' (sortDesc sc))).
Proof.
  unfold similaritySearchWithScore. cbv zeta.
  destruct (scoresFrom st query (embedOne query) 0 (ids st)) as [f|scores] eqn:Hs0;
    [discriminate|].
  pose proof (scoresFrom_ids _ _ _ _ _ _ Hs0) as Hs.
  destruct scores as [|s0 scores].
  - intros _. exists []. split; [|reflexivity].
    inversion Hs; subst. constructor.
  - set (all := s0 :: scores) in *.
    destruct (mathMin (List.map vectorScore all)) as [minVec|] eqn:Hminv; [|discriminate].
    destruct (mathMax (List.map vectorScore all)) as [maxVec|] eqn:Hmaxv; [|discriminate].
    destruct (mathMin (List.map textScore all)) as [minTxt|] eqn:Hmint; [|discriminate].
    destruct (mathMax (List.map textScore all)) as [maxTxt|] eqn:Hmaxt; [|discriminate].
    destruct (mapM (combine1 st minVec maxVec minTxt maxTxt) all) as [sc|] eqn:Hm;
      [|discriminate].
    intros _. exists sc. split; [|reflexivity].
    apply mapM_Some_1 in Hm.
    assert (Hin : forall s, In s all ->
              minVec <= vectorScore s <= maxVec /\ minTxt <= textScore s <= maxTxt).
    { intros s Hs'. repeat split.
      - eapply mathMin_le; [exact Hminv|]. now apply in_map.
      - eapply mathMax_ge; [exact Hmaxv|]. now apply in_map.
      - eapply mathMin_le; [exact Hmint|]. now apply in_map.
      - eapply mathMax_ge; [exact Hmaxt|]. now apply in_map. }
    clearbody all. clear Hminv Hmaxv Hmint Hmaxt Hs0.
    revert sc Hm Hin. induction Hs as [|i s l ss [Hid _] Hs IH]; intros sc Hm Hin.
    + inversion Hm; subst. constructor.
    + destruct sc as [|sd sc']; [inversion Hm|].
      apply Forall2_cons_iff in Hm as [Hc Hm'].
      constructor; [|apply IH; [exact Hm'|intros s' Hs'; apply Hin; now right]].
      unfold combine1 in Hc. rewrite Hid in Hc.
      destruct (docsMap st !! i) as [e|] eqn:He; [|discriminate].
      inversion Hc; subst sd; clear Hc. cbn [sd_id score doc].
      split; [reflexivity|]. split; [exists e; split; reflexivity|].
      destruct (Hin s (or_introl eq_refl)) as [Hv Ht].
      pose proof (normalised_bounds _ _ _ Hv). pose proof (normalised_bounds _ _ _ Ht).
      lra.
Qed.

Lemma search_stages (st : store) (query : string) (k : Z) (res : list (resultDoc * R)) :
  similaritySearchWithScore st query k = inr res ->
  exists sc,
    Forall2 (fun i s => sd_id s = i
                        /\ (exists e, docsMap st !! i = Some e /\ doc s = docOf e)
                        /\ 0 <= score s < 1) (ids st) sc
    /\ res = List.map (fun s => (doc s, 1 - score s)) (JS.sliceArr 0 k (sortDesc sc)).
Proof.
  intros Hr. destruct (search_stages_all st query k res Hr) as (sc & Hsc & Hall).
  exists sc. split; [exact Hsc|]. rewrite (Hall k) in Hr. now inversion Hr.
Qed.

Lemma in_sliceArr {A} (k : Z) (l : list A) (x : A) : In x (JS.sliceArr 0 k l) -> In x l.
Proof.
  rewrite Search.sliceArr_prefix. intros Hx.
  rewrite <- (firstn_skipn (Z.to_nat (JS.relIndex (Z.of_nat (List.length l)) k)) l).
  apply in_or_app. now left.
Qed.

(** X3. Every pair a search returns holds the text and metadata that
    [docsMap] records for one of the ids of the index, and a distance above 0
    and at most 1. *)
Theorem search_results_are_index_entries
  (st : store) (query : string) (k : Z) (res : list (resultDoc * R)) :
  similaritySearchWithScore st query k = inr res ->
  Forall (fun p => (exists i e, In i (ids st) /\ docsMap st !! i = Some e
                                /\ fst p = docOf e)
                   /\ 0 < snd p <= 1) res.
Proof.
  intros Hr. apply search_stages in Hr as (sc & Hsc & ->).
  rewrite List.Forall_forall. intros p Hp.
  apply List.in_map_iff in Hp as (s & <- & Hs). apply in_sliceArr in Hs.
  apply (Permutation_in _ (Search.sortDesc_perm sc)) in Hs.
  clear k. induction Hsc as [|i s' l sc' (Hid & (e & He & Hd) & Hb) Hsc IH];
    [destruct Hs|].
  destruct Hs as [->|Hs].
  - cbn [fst snd]. split; [exists i, e; split; [now left|auto]|lra].
  - destruct (IH Hs) as [(i' & e' & Hi' & He' & Hd') Hb']. split; [|exact Hb'].
    exists i', e'. split; [now right|auto].
Qed.

(** X4. When [k] is at least the number of indexed chunks, the search
    returns every chunk once: its documents are a permutation of the
    documents of the index, taken in the order of [ids]. *)
Theorem search_returns_whole_index
  (st : store) (query : string) (k : Z) (res : list (resultDoc * R)) :
  (Z.of_nat (List.length (ids st)) <= k)%Z ->
  similaritySearchWithScore st query k = inr res ->
  exists docs,
    Forall2 (fun i d => exists e, docsMap st !! i = Some e /\ d = docOf e) (ids st) docs
    /\ Permutation (List.map fst res) docs.
Proof.
  intros Hk Hr. apply search_stages in Hr as (sc & Hsc & ->).
  exists (List.map doc sc). split.
  - clear Hk. induction Hsc as [|i s l sc' (_ & (e & He & Hd) & _) Hsc IH];
      simpl; constructor; eauto.
  - rewrite List.map_map. cbn [fst]. rewrite Search.sliceArr_prefix.
    assert (Hlen : List.length sc = List.length (ids st))
      by (symmetry; eapply Forall2_length; exact Hsc).
    rewrite firstn_all2.
    + apply Permutation_map, Search.sortDesc_perm.
    + rewrite (Permutation_length (Search.sortDesc_perm sc)).
      unfold JS.relIndex. destruct (Z.ltb_spec k 0); lia.
Qed.

End WithEmbedder.

(** *** Ties *)













Lemma combine_seq_lookup {A} (l : list A) (j : nat) (x : A) :
  In (j, x) (combine (seq 0 (List.length l)) l) -> l !! j = Some x.
Proof.
  assert (Hgen : forall k, In (j, x) (combine (seq k (List.length l)) l) ->
                           (k <= j)%nat /\ l !! (j - k)%nat = Some x).
  { induction l as [|y l IH]; intros k Hin; [destruct Hin|].
    cbn [List.length seq combine] in Hin. destruct Hin as [Heq|Hin].
    - inversion Heq; subst. split; [lia|]. now rewrite Nat.sub_diag.
    - destruct (IH _ Hin) as [Hle Hl]. split; [lia|].
      replace (j - k)%nat with (S (j - S k)) by lia. exact Hl. }
  intros Hin. destruct (Hgen 0%nat Hin) as [_ Hl]. now rewrite Nat.sub_0_r in Hl.
Qed.

Section Ties.
Context `{Embedder}.


Lemma sorted_app_inv {A} (P : A -> A -> Prop) (l1 l2 : list A) :
  StronglySorted P (l1 ++ l2) -> forall a b, In a l1 -> In b l2 -> P a b.
Proof.
  induction l1 as [|x l1 IH]; intros Hs a b Ha Hb; [destruct Ha|].
  cbn [List.app] in Hs. apply StronglySorted_inv in Hs as [Hs Hx].
  destruct Ha as [<-|Ha]; [|now apply IH].
  rewrite List.Forall_forall in Hx. apply Hx, in_or_app. now right.
Qed.

(** X6. What a search with [k >= 0] cuts off is no nearer than what it
    returns: the search for all [n] chunks of the index returns the same
    pairs followed by the others, and no pair of the rest has a smaller
    distance than a returned pair. *)
Theorem search_returns_the_nearest
  (st : store) (query : string) (k : Z) (res : list (resultDoc * R)) :
  (0 <= k)%Z ->
  similaritySearchWithScore st query k = inr res ->
  exists rest,
    similaritySearchWithScore st query (Z.of_nat (List.length (ids st))) = inr (res ++ rest)
    /\ forall p q, In p res -> In q rest -> snd p <= snd q.
Proof.
  intros Hk Hr. destruct (search_stages_all st query k res Hr) as (sc & Hsc & Hall).
  rewrite (Hall k) in Hr. inversion Hr as [Hres]. clear Hr.
  assert (Hlen : List.length (sortDesc sc) = List.length (ids st)).
  { rewrite (Permutation_length (Search.sortDesc_perm sc)).
    symmetry. eapply Forall2_length. exact Hsc. }
  set (m := Z.to_nat (JS.relIndex (Z.of_nat (List.length (sortDesc sc))) k)).
  exists (List.map (fun s => (doc s, 1 - score s)) (skipn m (sortDesc sc))).
  rewrite (Hall (Z.of_nat (List.length (ids st)))), !Search.sliceArr_prefix.
  fold m. split.
  - rewrite <- List.map_app, firstn_skipn. do 2 f_equal.
    apply firstn_all2. rewrite Hlen. unfold JS.relIndex.
    destruct (Z.ltb_spec (Z.of_nat (List.length (ids st))) 0); lia.
  - intros p q Hp Hq.
    apply List.in_map_iff in Hp as (a & <- & Ha).
    apply List.in_map_iff in Hq as (b & <- & Hb). cbn [snd].
    pose proof (Search.sortDesc_sorted sc) as Hsorted. unfold descending in Hsorted.
    rewrite <- (firstn_skipn m (sortDesc sc)) in Hsorted.
    pose proof (sorted_app_inv _ _ _ Hsorted a b Ha Hb) as Hab. cbn in Hab. lra.
Qed.

(** X7. Whether a search returns does not depend on [k], and asking for
    fewer results gives a prefix of what asking for more gives: for
    [0 <= k <= k'] the result for [k] is the first [k] pairs of the result
    for [k']. *)
Theorem search_smaller_k_is_prefix
  (st : store) (query : string) (k k' : Z) (res : list (resultDoc * R)) :
  similaritySearchWithScore st query k = inr res ->
  exists res',
    similaritySearchWithScore st query k' = inr res'
    /\ ((0 <= k <= k')%Z -> res = firstn (Z.to_nat k) res').
Proof.
  unfold similaritySearchWithScore. cbv zeta.
  destruct (scoresFrom st query (embedOne query) 0 (ids st)) as [f|scores];
    [discriminate|].
  match goal with
  | |- context [match ?scored with Some _ => _ | None => _ end] =>
      destruct scored as [sc|]; [|discriminate]
  end.
  intros Hr; inversion Hr; subst res; clear Hr.
  eexists. split; [reflexivity|]. intros Hk.
  rewrite !Search.sliceArr_prefix, <- !firstn_map, List.firstn_firstn.
  f_equal. unfold JS.relIndex.
  destruct (Z.ltb_spec k 0); [lia|]. destruct (Z.ltb_spec k' 0); lia.
Qed.

End Ties.

End SearchResults.

Module SearchResultExamples.
Import Enhanced Notions SearchNotions Sample ScoreBounds SearchResults.

Open Scope R_scope.

Lemma search_results_are_index_entries_witness :
  exists res,
    @similaritySearchWithScore Sample.axisEmbedder twoChunks "pricing" 8 = inr res
    /\ Forall (fun p => (exists i e, In i (ids twoChunks) /\ docsMap twoChunks !! i = Some e
                                     /\ fst p = docOf e)
                        /\ 0 < snd p <= 1) res.
Proof.
  destruct (@Search.search_total Sample.axisEmbedder twoChunks "pricing" 8
              (SearchExamples.twoChunks_wellFormed "pricing")) as (res & Hres).
  exists res. split; [exact Hres|].
  exact (@search_results_are_index_entries Sample.axisEmbedder twoChunks "pricing" 8 res Hres).
Defined.

Lemma search_returns_whole_index_witness :
  exists res docs,
    @similaritySearchWithScore Sample.axisEmbedder twoChunks "pricing" 8 = inr res
    /\ Forall2 (fun i d => exists e, docsMap twoChunks !! i = Some e /\ d = docOf e)
         (ids twoChunks) docs
    /\ Permutation (List.map fst res) docs.
Proof.
  destruct (@Search.search_total Sample.axisEmbedder twoChunks "pricing" 8
              (SearchExamples.twoChunks_wellFormed "pricing")) as (res & Hres).
  destruct (@search_returns_whole_index Sample.axisEmbedder twoChunks "pricing" 8 res
              ltac:(vm_compute; discriminate) Hres) as (docs & Hdocs & Hperm).
  exists res, docs. auto.
Defined.


Lemma search_returns_the_nearest_witness :
  exists res rest,
    @similaritySearchWithScore Sample.axisEmbedder twoChunks "pricing" 1 = inr res
    /\ @similaritySearchWithScore Sample.axisEmbedder twoChunks "pricing"
         (Z.of_nat (List.length (ids twoChunks))) = inr (res ++ rest)
    /\ forall p q, In p res -> In q rest -> snd p <= snd q.
Proof.
  destruct (@Search.search_total Sample.axisEmbedder twoChunks "pricing" 1
              (SearchExamples.twoChunks_wellFormed "pricing")) as (res & Hres).
  destruct (@search_returns_the_nearest Sample.axisEmbedder twoChunks "pricing" 1 res
              ltac:(lia) Hres) as (rest & Hfull & Hle).
  exists res, rest. auto.
Defined.

Lemma search_smaller_k_is_prefix_witness :
  exists res res',
    @similaritySearchWithScore Sample.axisEmbedder twoChunks "pricing" 1 = inr res
    /\ @similaritySearchWithScore Sample.axisEmbedder twoChunks "pricing" 8 = inr res'
    /\ res = firstn 1 res'.
Proof.
  destruct (@Search.search_total Sample.axisEmbedder twoChunks "pricing" 1
              (SearchExamples.twoChunks_wellFormed "pricing")) as (res & Hres).
  destruct (@search_smaller_k_is_prefix Sample.axisEmbedder twoChunks "pricing" 1 8 res
              Hres) as (res' & Hres' & Hpre).
  exists res, res'. split; [exact Hres|]. split; [exact Hres'|].
  apply Hpre. lia.
Defined.

End SearchResultExamples.

(** ** The windows of the token-window chunker *)

Module Windows.
Import WindowNotions.

Section WithTokenizer.
Context `{Tokenizer}.

Lemma sliceArr_window {A} (l : list A) (s e : Z) :
  (0 <= s)%Z -> (s <= e)%Z -> (e <= Z.of_nat (List.length l))%Z ->
  JS.sliceArr s e l = firstn (Z.to_nat (e - s)) (skipn (Z.to_nat s) l).
Proof.
  intros Hs He Hl. unfold JS.sliceArr, JS.relIndex. cbv zeta.
  destruct (Z.ltb_spec s 0); [lia|]. destruct (Z.ltb_spec e 0); [lia|].
  now rewrite !Z.min_l by lia.
Qed.

Lemma step_inl (ids : list nat) (m o : nat) (start : Z) (chunks : list Chunker.chunk)
  (st' : Z * list Chunker.chunk) :
  Chunker.step ids m o (start, chunks) = inl st' ->
  (start < Z.of_nat (List.length ids))%Z
  /\ (start + Z.of_nat m < Z.of_nat (List.length ids))%Z
  /\ st' = ((start + (Z.of_nat m - Z.of_nat o))%Z,
            chunks ++ [{| Chunker.text := decode (JS.sliceArr start (start + Z.of_nat m) ids);
                          Chunker.start := start;
                          Chunker.stop := (start + Z.of_nat m)%Z |}]).
Proof.
  unfold Chunker.step.
  destruct (Z.ltb_spec start (Z.of_nat (List.length ids))) as [Hs|Hs]; [|discriminate].
  destruct (Z.eqb_spec (Z.min (start + Z.of_nat m) (Z.of_nat (List.length ids)))
              (Z.of_nat (List.length ids))) as [He|He]; [discriminate|].
  intros Hst; inversion Hst; subst st'; clear Hst.
  assert (Hlt : (start + Z.of_nat m < Z.of_nat (List.length ids))%Z) by lia.
  rewrite Z.min_l by lia. auto.
Qed.

Lemma step_inr (ids : list nat) (m o : nat) (start : Z) (chunks out : list Chunker.chunk) :
  Chunker.step ids m o (start, chunks) = inr out ->
  (Z.of_nat (List.length ids) <= start)%Z /\ out = chunks
  \/ (start < Z.of_nat (List.length ids))%Z
     /\ (Z.of_nat (List.length ids) <= start + Z.of_nat m)%Z
     /\ out = chunks ++ [{| Chunker.text :=
                              decode (JS.sliceArr start (Z.of_nat (List.length ids)) ids);
                            Chunker.start := start;
                            Chunker.stop := Z.of_nat (List.length ids) |}].
Proof.
  unfold Chunker.step.
  destruct (Z.ltb_spec start (Z.of_nat (List.length ids))) as [Hs|Hs].
  - destruct (Z.eqb_spec (Z.min (start + Z.of_nat m) (Z.of_nat (List.length ids)))
                (Z.of_nat (List.length ids))) as [He|He]; [|discriminate].
    intros Hst; inversion Hst; subst out; clear Hst. right.
    rewrite He. repeat split; [exact Hs|lia].
  - intros Hst; inversion Hst; subst. now left.
Qed.

(** *** Every token is in a window *)

Lemma covered_app (chunks more : list Chunker.chunk) (p : Z) :
  covered chunks p -> covered (chunks ++ more) p.
Proof. intros (c & Hc & Hp). exists c. split; [apply in_or_app; now left|exact Hp]. Qed.

Lemma loop_covers (ids : list nat) (m o : nat) (fuel : nat) :
  forall start chunks cov out,
    Chunker.loop fuel ids m o (start, chunks) = Some out ->
    (start <= cov)%Z ->
    (forall p, (0 <= p < cov)%Z -> covered chunks p) ->
    forall p, (0 <= p < Z.of_nat (List.length ids))%Z -> covered out p.
Proof.
  induction fuel as [|fuel IH]; intros start chunks cov out Hl Hsc Hcov p Hp;
    [discriminate|].
  cbn [Chunker.loop] in Hl.
  destruct (Chunker.step ids m o (start, chunks)) as [st'|out'] eqn:Hst.
  - apply step_inl in Hst as (Hs & Hm & ->).
    eapply (IH _ _ (start + Z.of_nat m)%Z); [exact Hl|lia| |exact Hp].
    intros q Hq. destruct (Z.lt_ge_cases q cov) as [Hqc|Hqc].
    + apply covered_app, Hcov. lia.
    + eexists. split; [apply in_or_app; right; now left|]. cbn. lia.
  - inversion Hl; subst out'; clear Hl.
    apply step_inr in Hst as [[Hs ->]|(Hs & Hm & ->)].
    + apply Hcov. lia.
    + destruct (Z.lt_ge_cases p cov) as [Hqc|Hqc].
      * apply covered_app, Hcov. lia.
      * eexists. split; [apply in_or_app; right; now left|]. cbn. lia.
Qed.

(** *** The windows, one by one *)

Lemma loop_windows (ids : list nat) (m o : nat) (fuel : nat) :
  forall start chunks out,
    Chunker.loop fuel ids m o (start, chunks) = Some out ->
    start = (Z.of_nat (List.length chunks) * (Z.of_nat m - Z.of_nat o))%Z ->
    (forall i c, chunks !! i = Some c ->
                 windowAt ids m o i c
                 /\ (Chunker.stop c < Z.of_nat (List.length ids))%Z) ->
    (forall i c, out !! i = Some c ->
                 windowAt ids m o i c
                 /\ ((S i < List.length out)%nat ->
                     (Chunker.stop c < Z.of_nat (List.length ids))%Z)
                 /\ (S i = List.length out ->
                     Chunker.stop c = Z.of_nat (List.length ids))).
Proof.
  induction fuel as [|fuel IH]; intros start chunks out Hl Hstart Hch; [discriminate|].
  cbn [Chunker.loop] in Hl.
  destruct (Chunker.step ids m o _) as [st'|out'] eqn:Hst.
  - apply step_inl in Hst as (Hs & Hm & ->).
    eapply IH; [exact Hl| |].
    + rewrite List.length_app. cbn [List.length]. lia.
    + intros i c Hi. apply lookup_app_Some in Hi as [Hi|[Hlen Hi]]; [now apply Hch|].
      destruct (i - List.length chunks)%nat as [|j] eqn:Hj; [|destruct j; discriminate].
      inversion Hi; subst c; clear Hi.
      assert (i = List.length chunks) by lia. subst i.
      unfold windowAt, windowOf. cbn. repeat split; try lia.
  - inversion Hl; subst out'; clear Hl.
    apply step_inr in Hst as [[Hs ->]|(Hs & Hm & ->)].
    + intros i c Hi. destruct (Hch i c Hi) as [Hw Hlt]. split; [exact Hw|].
      split; [intros _; exact Hlt|]. intros Hlast.
      destruct Hw as (Hws & Hwe & _). lia.
    + intros i c Hi. rewrite List.length_app. cbn [List.length].
      apply lookup_app_Some in Hi as [Hi|[Hlen Hi]].
      * destruct (Hch i c Hi) as [Hw Hlt]. split; [exact Hw|].
        split; [intros _; exact Hlt|].
        apply lookup_lt_Some in Hi. intros Heq. lia.
      * destruct (i - List.length chunks)%nat as [|j] eqn:Hj; [|destruct j; discriminate].
        inversion Hi; subst c; clear Hi.
        assert (i = List.length chunks) by lia. subst i.
        split; [unfold windowAt, windowOf; cbn; repeat split; lia|].
        split; [intros Hlt; lia|]. intros _. reflexivity.
Qed.

(** X8. Whenever [chunkText] returns, its [i]-th chunk (from 0) is the
    window that starts at token [i * (maxTokens - overlapTokens)] and stops
    [maxTokens] tokens later or at the end of the token sequence, whichever
    comes first; its text is the decoding of exactly these tokens; and the
    window that reaches the end of the sequence is the last chunk and no
    other. *)
Theorem chunkText_windows (fuel : nat) (text : string) (maxTokens overlapTokens : nat)
  (out : list Chunker.chunk) :
  Chunker.chunkText fuel text maxTokens overlapTokens = Some out ->
  forall (i : nat) (c : Chunker.chunk), out !! i = Some c ->
    let len := Z.of_nat (List.length (encode text)) in
    Chunker.start c = (Z.of_nat i * (Z.of_nat maxTokens - Z.of_nat overlapTokens))%Z
    /\ Chunker.stop c = Z.min (Chunker.start c + Z.of_nat maxTokens) len
    /\ (Chunker.start c < len)%Z
    /\ Chunker.text c
       = decode (JS.sliceArr (Chunker.start c) (Chunker.stop c) (encode text))
    /\ (Chunker.stop c = len <-> S i = List.length out).
Proof.
  intros Hout i c Hi len. unfold Chunker.chunkText in Hout.
  destruct (loop_windows _ _ _ _ _ _ _ Hout) with (i := i) (c := c)
    as ((Hs & He & Hlt & Ht) & Hmid & Hlast).
  - cbn. lia.
  - intros j d Hj. destruct j; discriminate.
  - exact Hi.
  - repeat split; try assumption.
    + intros Hend. apply lookup_lt_Some in Hi.
      destruct (Nat.eq_dec (S i) (List.length out)) as [Heq|Hne]; [exact Heq|].
      fold len in Hmid. assert (Chunker.stop c < len)%Z by (apply Hmid; lia). lia.
Qed.

(** X9. Whenever [chunkText] returns, every token position of the text lies
    in the window of some chunk: no token is left out, whatever the
    parameters. *)
Theorem chunkText_covers_every_token (fuel : nat) (text : string)
  (maxTokens overlapTokens : nat) (out : list Chunker.chunk) :
  Chunker.chunkText fuel text maxTokens overlapTokens = Some out ->
  forall p : Z, (0 <= p < Z.of_nat (List.length (encode text)))%Z ->
    exists c, In c out /\ (Chunker.start c <= p < Chunker.stop c)%Z.
Proof.
  intros Hout p Hp. unfold Chunker.chunkText in Hout.
  eapply (loop_covers _ _ _ _ _ _ 0%Z _ Hout); [lia| |exact Hp].
  intros q Hq. lia.
Qed.

Lemma firstn_plus {A} (l : list A) (a b : nat) :
  firstn (a + b) l = firstn a l ++ firstn b (skipn a l).
Proof.
  revert l; induction a as [|a IH]; intros [|x l]; cbn; try reflexivity.
  - now destruct b.
  - now rewrite IH.
Qed.

Lemma loop_partition (ids : list nat) (m : nat) (fuel : nat) :
  forall start chunks out,
    Chunker.loop fuel ids m 0 (start, chunks) = Some out ->
    (0 <= start)%Z ->
    flat_map (windowOf ids) chunks = firstn (Z.to_nat start) ids ->
    flat_map (windowOf ids) out = ids.
Proof.
  induction fuel as [|fuel IH]; intros start chunks out Hl Hs Hinv; [discriminate|].
  cbn [Chunker.loop] in Hl.
  destruct (Chunker.step ids m 0 (start, chunks)) as [st'|out'] eqn:Hst.
  - apply step_inl in Hst as (Hlt & Hm & ->).
    eapply IH; [exact Hl|lia|].
    rewrite flat_map_app, Hinv. cbn [flat_map]. rewrite List.app_nil_r.
    unfold windowOf. cbn [Chunker.start Chunker.stop].
    rewrite sliceArr_window by lia.
    replace (Z.to_nat (start + (Z.of_nat m - Z.of_nat 0)))
      with (Z.to_nat start + m)%nat by lia.
    replace (Z.to_nat (start + Z.of_nat m - start)) with m by lia.
    now rewrite firstn_plus.
  - inversion Hl; subst out'; clear Hl.
    apply step_inr in Hst as [[Hge ->]|(Hlt & Hm & ->)].
    + rewrite Hinv. apply firstn_all2. lia.
    + rewrite flat_map_app, Hinv. cbn [flat_map]. rewrite List.app_nil_r.
      unfold windowOf. cbn [Chunker.start Chunker.stop].
      rewrite sliceArr_window by lia.
      rewrite (firstn_all2 (n := Z.to_nat (Z.of_nat (List.length ids) - start))).
      * apply firstn_skipn.
      * rewrite List.length_skipn. lia.
Qed.

(** X10. With [overlapTokens = 0] the windows of the chunks partition the
    token sequence: put one after the other in order they give back the
    encoding of the text, each token once. *)
Theorem chunkText_zero_overlap_partitions (fuel : nat) (text : string) (maxTokens : nat)
  (out : list Chunker.chunk) :
  Chunker.chunkText fuel text maxTokens 0 = Some out ->
  flat_map (fun c => JS.sliceArr (Chunker.start c) (Chunker.stop c) (encode text)) out
  = encode text.
Proof.
  intros Hout. unfold Chunker.chunkText in Hout.
  apply (loop_partition _ _ _ _ _ _ Hout); [lia|reflexivity].
Qed.

Lemma sliceArr_all {A} (l : list A) :
  JS.sliceArr 0 (Z.of_nat (List.length l)) l = l.
Proof.
  rewrite sliceArr_window by lia. cbn [Z.to_nat skipn].
  apply firstn_all2. lia.
Qed.

(** X11. A text of at most [maxTokens] tokens is never split, whatever the
    overlap: an empty token sequence gives no chunk, any other gives one
    chunk that spans all tokens, after a single pass through the loop.  (This
    holds also for [overlapTokens >= maxTokens], where longer texts make the
    loop run forever.) *)
Theorem chunkText_short_text (fuel : nat) (text : string) (maxTokens overlapTokens : nat) :
  (List.length (encode text) <= maxTokens)%nat ->
  Chunker.chunkText (S fuel) text maxTokens overlapTokens
  = Some (match encode text with
          | [] => []
          | _ :: _ => [{| Chunker.text := decode (encode text);
                          Chunker.start := 0;
                          Chunker.stop := Z.of_nat (List.length (encode text)) |}]
          end).
Proof.
  intros Hlen. unfold Chunker.chunkText. cbn [Chunker.loop]. unfold Chunker.step.
  destruct (encode text) as [|t ids] eqn:Hids; [reflexivity|].
  set (l := t :: ids) in *.
  destruct (Z.ltb_spec 0 (Z.of_nat (List.length l))) as [_|Hn]; [|cbn in Hn; lia].
  rewrite Z.min_r by lia. rewrite Z.eqb_refl, sliceArr_all. reflexivity.
Qed.

End WithTokenizer.
End Windows.

Module WindowExamples.
Import WindowNotions Windows.

(** The second of the three chunks of a ten-token text, with
    [maxTokens = 4] and [overlapTokens = 1]. *)
Lemma chunkText_windows_witness :
  let c := {| Chunker.text := "defg"; Chunker.start := 3; Chunker.stop := 7 |} in
  @Chunker.chunkText Sample.byteTokenizer 11 "abcdefghij" 4 1
  = Some [{| Chunker.text := "abcd"; Chunker.start := 0; Chunker.stop := 4 |}; c;
          {| Chunker.text := "ghij"; Chunker.start := 6; Chunker.stop := 10 |}]
  /\ Chunker.start c = (Z.of_nat 1 * (Z.of_nat 4 - Z.of_nat 1))%Z
  /\ Chunker.stop c = Z.min (Chunker.start c + Z.of_nat 4) 10
  /\ (Chunker.start c < 10)%Z
  /\ Chunker.text c
     = @decode Sample.byteTokenizer
         (JS.sliceArr (Chunker.start c) (Chunker.stop c)
            (@encode Sample.byteTokenizer "abcdefghij"))
  /\ (Chunker.stop c = 10%Z <-> 2%nat = 3%nat).
Proof.
  split; [reflexivity|].
  exact (@chunkText_windows Sample.byteTokenizer 11 "abcdefghij" 4 1 _ eq_refl
           1%nat _ eq_refl).
Defined.

Lemma chunkText_covers_every_token_witness :
  exists c,
    In c [{| Chunker.text := "abcd"; Chunker.start := 0; Chunker.stop := 4 |};
          {| Chunker.text := "defg"; Chunker.start := 3; Chunker.stop := 7 |};
          {| Chunker.text := "ghij"; Chunker.start := 6; Chunker.stop := 10 |}]
    /\ (Chunker.start c <= 5 < Chunker.stop c)%Z.
Proof.
  apply (@chunkText_covers_every_token Sample.byteTokenizer 11 "abcdefghij" 4 1 _ eq_refl).
  vm_compute. split; [discriminate|reflexivity].
Defined.

Lemma chunkText_zero_overlap_partitions_witness :
  flat_map (fun c => JS.sliceArr (Chunker.start c) (Chunker.stop c)
                       (@encode Sample.byteTokenizer "abcdefghij"))
    [{| Chunker.text := "abcd"; Chunker.start := 0; Chunker.stop := 4 |};
     {| Chunker.text := "efgh"; Chunker.start := 4; Chunker.stop := 8 |};
     {| Chunker.text := "ij"; Chunker.start := 8; Chunker.stop := 10 |}]
  = @encode Sample.byteTokenizer "abcdefghij".
Proof.
  exact (@chunkText_zero_overlap_partitions Sample.byteTokenizer 11 "abcdefghij" 4 _ eq_refl).
Defined.

Lemma chunkText_short_text_witness :
  @Chunker.chunkText Sample.byteTokenizer 1 "abcdefghij" 10 12
  = Some [{| Chunker.text := "abcdefghij"; Chunker.start := 0; Chunker.stop := 10 |}].
Proof.
  apply (@chunkText_short_text Sample.byteTokenizer 0 "abcdefghij" 10 12).
  vm_compute. lia.
Defined.

End WindowExamples.

(** ** The sentence-accumulating chunker: what it emits *)

Module EnhancedChunks.
Import Enhanced Notions ChunkNotions EnhancedChunker.

Lemma dropWhile_blank (s : string) :
  hasNonSpace s = false -> JS.dropWhile JS.isSpace s = "".
Proof.
  induction s as [|c s IH]; [reflexivity|]. simpl.
  destruct (JS.isSpace c); simpl; [exact IH|discriminate].
Qed.

Lemma trim_blank (s : string) : hasNonSpace s = false -> JS.trim s = "".
Proof. intros Hs. unfold JS.trim. now rewrite (dropWhile_blank s Hs). Qed.

Lemma nonBlank_hasNonSpace (s : string) : nonBlank s = hasNonSpace s.
Proof.
  destruct (hasNonSpace s) eqn:Hs; [now apply hasNonSpace_nonBlank|].
  unfold nonBlank. now rewrite (trim_blank s Hs).
Qed.

Lemma length_drop (n : nat) (s : string) :
  String.length (JS.drop n s) = (String.length s - n)%nat.
Proof.
  revert s; induction n as [|n IH]; intros s; [simpl; lia|].
  destruct s as [|c s]; [reflexivity|]. simpl. apply IH.
Qed.

(** [slice(-n)] keeps at most [n] characters, when [n] is not 0. *)
Lemma length_sliceFrom_neg (n : nat) (s : string) :
  (0 < n)%nat -> (String.length (JS.sliceFrom (- Z.of_nat n) s) <= n)%nat.
Proof.
  intros Hn. unfold JS.sliceFrom, JS.relIndex.
  destruct (Z.ltb_spec (- Z.of_nat n) 0); [|lia].
  rewrite length_drop. lia.
Qed.

Section WithTokenizer.
Context `{Tokenizer}.

(** *** Positions and empty texts *)

Lemma addSentence_shape (m o : nat) (ss : list string) (a : acc) (s : string) :
  shapeInv ss a ->
  shapeInv (ss ++ (if nonBlank s then [s] else [])) (addSentence m o a s).
Proof.
  intros Ha. destruct (nonBlank s) eqn:Hb;
    [|rewrite addSentence_blank, List.app_nil_r; assumption].
  assert (Hdot : forall x, hasNonSpace (x +:+ s +:+ ". ") = true).
  { intros x. rewrite !hasNonSpace_app. cbn. now rewrite !orb_true_r. }
  assert (Hne : ss ++ [s] <> []) by (destruct ss; discriminate).
  destruct Ha as (Hnil & Hcons & Hch & Hlen).
  assert (Happend : (currentTokens a + countTokens s <= m)%nat
                    \/ String.length (currentChunk a) = 0%nat ->
                    shapeInv (ss ++ [s]) (addSentence m o a s)).
  { intros Hcase. rewrite addSentence_append by auto.
    split; [intros Hn; contradiction|]. split; [intros _; apply Hdot|].
    split; [exact Hch|]. cbn [chunks]. rewrite List.length_app. cbn. lia. }
  destruct (le_lt_dec (currentTokens a + countTokens s) m) as [Hle|Hgt];
    [apply Happend; now left|].
  destruct (Nat.eq_dec (String.length (currentChunk a)) 0) as [He|He];
    [apply Happend; now right|].
  rewrite addSentence_close by (auto; lia).
  split; [intros Hn; contradiction|]. split; [intros _; apply Hdot|].
  cbn [chunks]. split; [|rewrite !List.length_app; cbn; lia].
  intros i c Hi.
  apply lookup_app_Some in Hi as [Hi|[Hge Hi]]; [now apply Hch|].
  destruct (i - List.length (chunks a))%nat as [|j] eqn:Hj; [|destruct j; discriminate].
  inversion Hi; subst c; clear Hi. unfold closeChunk. cbn [start stop text tokens].
  split; [lia|]. split; [lia|]. intros Hempty.
  destruct ss as [|s' ss].
  - destruct (Hnil eq_refl) as (Hc & Ht & _). rewrite Hc in *. cbn in *. lia.
  - assert (Hns : nonBlank (currentChunk a) = true)
      by (apply hasNonSpace_nonBlank, Hcons; discriminate).
    unfold nonBlank in Hns. rewrite Hempty in Hns. discriminate.
Qed.

Lemma fold_addSentence_shape (m o : nat) (l : list string) :
  forall ss a, shapeInv ss a ->
    shapeInv (ss ++ List.filter nonBlank l) (fold_left (addSentence m o) l a).
Proof.
  induction l as [|s l IH]; intros ss a Ha; [now rewrite List.app_nil_r|].
  cbn [fold_left List.filter].
  specialize (IH _ _ (addSentence_shape m o ss a s Ha)).
  destruct (nonBlank s); [|rewrite List.app_nil_r in IH; exact IH].
  now rewrite <- List.app_assoc in IH.
Qed.

Lemma addParagraph_shape (m o : nat) (ss : list string) (a : acc) (p : string) :
  shapeInv ss a ->
  shapeInv (ss ++ (if nonBlank p
                   then List.filter nonBlank (JS.split JS.sepTerminators p) else []))
    (addParagraph m o a p).
Proof.
  intros Ha. unfold addParagraph, nonBlank.
  destruct (String.length (JS.trim p) =? 0)%nat; cbn [negb];
    [now rewrite List.app_nil_r|].
  destruct (fold_addSentence_shape m o (JS.split JS.sepTerminators p) ss a Ha)
    as (Hnil & Hcons & Hch & Hlen).
  assert (Hnl : forall x, hasNonSpace (x +:+ newline +:+ newline) = hasNonSpace x).
  { intros x. rewrite !hasNonSpace_app. cbn. now rewrite !orb_false_r. }
  split; [|split; [|split]]; cbn [chunks currentChunk currentTokens].
  - intros Hn. destruct (Hnil Hn) as (Hc & Ht & Hs). now rewrite Hnl.
  - intros Hn. rewrite Hnl. now apply Hcons.
  - exact Hch.
  - exact Hlen.
Qed.

Lemma fold_addParagraph_shape (m o : nat) (l : list string) :
  forall ss a, shapeInv ss a ->
    shapeInv (ss ++ flat_map (fun p => List.filter nonBlank (JS.split JS.sepTerminators p))
                      (List.filter nonBlank l))
      (fold_left (addParagraph m o) l a).
Proof.
  induction l as [|p l IH]; intros ss a Ha; [now rewrite List.app_nil_r|].
  cbn [fold_left List.filter].
  specialize (IH _ _ (addParagraph_shape m o ss a p Ha)).
  destruct (nonBlank p); cbn [flat_map].
  - now rewrite <- List.app_assoc in IH.
  - now rewrite List.app_nil_r in IH.
Qed.

Lemma final_shape (text : string) (m o : nat) :
  shapeInv (sentencesOf text)
    (fold_left (addParagraph m o) (JS.split JS.sepBlankLine text)
       {| chunks := []; currentChunk := ""; currentTokens := 0 |}).
Proof.
  apply (fold_addParagraph_shape m o (JS.split JS.sepBlankLine text) []).
  split; [intros _; repeat split|]. split; [intros Hn; contradiction|].
  split; [intros i c Hi; destruct i; discriminate|]. cbn. lia.
Qed.

(** X12. The [i]-th chunk (from 0) records [start = i] and [end = i + 1]:
    the two fields are the rank of the chunk, not offsets into the text.
    A chunk whose text is empty can only be the first one, and it records 0
    tokens: every later chunk has a text. *)
Theorem chunkTextEnhanced_positions (text : string) (maxTokens overlapTokens : nat) :
  forall (i : nat) (c : chunk),
    chunkTextEnhanced text maxTokens overlapTokens !! i = Some c ->
    start c = i /\ stop c = S i
    /\ (Enhanced.text c = "" -> i = 0%nat /\ tokens c = 0%nat).
Proof.
  intros i c. unfold chunkTextEnhanced. cbv zeta.
  pose proof (final_shape text maxTokens overlapTokens) as Hinv.
  set (a := fold_left _ _ _) in *.
  destruct (Nat.ltb_spec 0 (String.length (JS.trim (currentChunk a)))) as [Hlt|Hge].
  - intros Hi. destruct Hinv as (Hnil & Hcons & Hch & _).
    apply lookup_app_Some in Hi as [Hi|[Hlen Hi]]; [now apply Hch|].
    destruct (i - List.length (chunks a))%nat as [|j] eqn:Hj; [|destruct j; discriminate].
    inversion Hi; subst c; clear Hi. unfold closeChunk. cbn [start stop Enhanced.text tokens].
    split; [lia|]. split; [lia|]. intros Hempty. rewrite Hempty in Hlt. cbn in Hlt. lia.
  - destruct Hinv as (_ & _ & Hch & _). apply Hch.
Qed.

(** A text without a sentence gives no chunk, any other text gives one at
    least. *)
Lemma chunks_nil_iff (text : string) (m o : nat) :
  chunkTextEnhanced text m o = [] <-> sentencesOf text = [].
Proof.
  unfold chunkTextEnhanced. cbv zeta.
  destruct (final_shape text m o) as (Hnil & Hcons & _).
  set (a := fold_left _ _ _) in *.
  destruct (sentencesOf text) as [|s ss] eqn:Hss.
  - destruct (Hnil eq_refl) as (Hc & _ & Hs).
    rewrite (trim_blank _ Hs), Hc. cbn. tauto.
  - assert (Hns : nonBlank (currentChunk a) = true)
      by (apply hasNonSpace_nonBlank, Hcons; discriminate).
    unfold nonBlank in Hns.
    destruct (Nat.ltb_spec 0 (String.length (JS.trim (currentChunk a)))) as [Hlt|Hge].
    + split; [|discriminate]. intros Hn. now apply app_eq_nil in Hn as [_ Hn].
    + destruct (String.length (JS.trim (currentChunk a))); [discriminate|lia].
Qed.

(** X13. The chunker returns no chunk exactly when the text holds no
    sentence (no non-blank piece between sentence terminators in a
    non-blank paragraph), and it never returns more chunks than the text
    has sentences, plus one: a chunk is closed only when a sentence is met,
    and once at the end. *)
Theorem chunkTextEnhanced_count (text : string) (maxTokens overlapTokens : nat) :
  (chunkTextEnhanced text maxTokens overlapTokens = [] <-> sentencesOf text = [])
  /\ (List.length (chunkTextEnhanced text maxTokens overlapTokens)
      <= List.length (sentencesOf text) + 1)%nat.
Proof.
  split; [apply chunks_nil_iff|].
  unfold chunkTextEnhanced. cbv zeta.
  destruct (final_shape text maxTokens overlapTokens) as (_ & _ & _ & Hlen).
  set (a := fold_left _ _ _) in *.
  destruct (0 <? String.length (JS.trim (currentChunk a)))%nat.
  - rewrite List.length_app. cbn. lia.
  - lia.
Qed.

(** *** A bound on the recorded counts *)

Section Bound.
Variables (rate most m o : nat).
Hypothesis overlap_positive : (0 < o)%nat.
Hypothesis rate_bound : forall s, (countTokens s <= rate * String.length s)%nat.

Let b : nat := Nat.max m (rate * (4 * o) + most).

Lemma addSentence_bound (a : acc) (s : string) :
  (nonBlank s = true -> (countTokens s <= most)%nat) ->
  boundInv b a -> boundInv b (addSentence m o a s).
Proof.
  intros Hs (Hch & Hcur & Hz).
  destruct (nonBlank s) eqn:Hb; [|rewrite addSentence_blank; [repeat split|]; assumption].
  specialize (Hs eq_refl).
  destruct (Nat.eq_dec (String.length (currentChunk a)) 0) as [He|He].
  - rewrite addSentence_append by auto.
    repeat split; cbn [chunks currentChunk currentTokens].
    + assumption.
    + rewrite (Hz He). unfold b. lia.
    + rewrite !length_app. simpl. lia.
  - destruct (le_lt_dec (currentTokens a + countTokens s) m) as [Hle|Hgt].
    + rewrite addSentence_append by auto.
      repeat split; cbn [chunks currentChunk currentTokens].
      * assumption.
      * unfold b. lia.
      * rewrite !length_app. simpl. lia.
    + rewrite addSentence_close by (auto; lia).
      repeat split; cbn [chunks currentChunk currentTokens].
      * apply Forall_app. split; [assumption|].
        constructor; [exact Hcur|constructor].
      * pose proof (rate_bound (JS.sliceFrom (- Z.of_nat o * 4)%Z (currentChunk a))) as Hr.
        replace (- Z.of_nat o * 4)%Z with (- Z.of_nat (4 * o))%Z in * by lia.
        pose proof (length_sliceFrom_neg (4 * o) (currentChunk a) ltac:(lia)) as Hl.
        unfold b. nia.
      * rewrite !length_app. simpl. lia.
Qed.

Lemma fold_addSentence_bound (l : list string) :
  forall a, (forall s, In s l -> nonBlank s = true -> (countTokens s <= most)%nat) ->
    boundInv b a -> boundInv b (fold_left (addSentence m o) l a).
Proof.
  induction l as [|s l IH]; intros a Hl Ha; [exact Ha|].
  simpl. apply IH.
  - intros s' Hin. apply Hl. now right.
  - apply addSentence_bound; [apply Hl; now left|exact Ha].
Qed.

Lemma addParagraph_bound (a : acc) (p : string) :
  (forall s, nonBlank p = true -> In s (JS.split JS.sepTerminators p) ->
             nonBlank s = true -> (countTokens s <= most)%nat) ->
  boundInv b a -> boundInv b (addParagraph m o a p).
Proof.
  intros Hp Ha. unfold addParagraph.
  destruct (String.length (JS.trim p) =? 0)%nat eqn:Hb; [exact Ha|].
  assert (Hnb : nonBlank p = true) by (unfold nonBlank; now rewrite Hb).
  destruct (fold_addSentence_bound (JS.split JS.sepTerminators p) a)
    as (Hch & Hcur & _); [intros s; apply Hp, Hnb|exact Ha|].
  repeat split; cbn [chunks currentChunk currentTokens]; try assumption.
  rewrite !length_app. unfold newline. simpl. lia.
Qed.

(** X14. With a positive [overlapTokens] (here [o]), a tokenizer that
    gives at most [rate] tokens per character, and sentences of at most
    [most] tokens each, no chunk records more than
    [max m (rate * 4 * o + most)] tokens, [m] being [maxTokens]: a chunk
    can exceed the budget by the seeded overlap text and one sentence, and
    by no more. *)
Theorem chunk_tokens_bounded (text : string) :
  Forall (fun s => (countTokens s <= most)%nat) (sentencesOf text) ->
  Forall (fun c => (tokens c <= Nat.max m (rate * (4 * o) + most))%nat)
    (chunkTextEnhanced text m o).
Proof.
  intros Hsent. fold b. rewrite List.Forall_forall in Hsent. unfold chunkTextEnhanced.
  assert (Hfold : forall l a,
             (forall p, In p l -> In p (JS.split JS.sepBlankLine text)) ->
             boundInv b a -> boundInv b (fold_left (addParagraph m o) l a)).
  { induction l as [|p l IH]; intros a Hl Ha; [exact Ha|].
    simpl. apply IH; [intros p' Hin; apply Hl; now right|].
    apply addParagraph_bound; [|exact Ha].
    intros s Hnb Hin Hs. apply Hsent. unfold sentencesOf.
    apply in_flat_map. exists p. split.
    - apply filter_In. split; [apply Hl; now left|exact Hnb].
    - apply filter_In. split; assumption. }
  destruct (Hfold (JS.split JS.sepBlankLine text)
              {| chunks := []; currentChunk := ""; currentTokens := 0 |})
    as (Hch & Hcur & _).
  - auto.
  - unfold boundInv. cbn [chunks currentChunk currentTokens].
    split; [constructor|]. split; [lia|reflexivity].
  - cbv zeta. destruct (0 <? _)%nat; [|exact Hch].
    apply Forall_app. split; [exact Hch|]. constructor; [exact Hcur|constructor].
Qed.

End Bound.

End WithTokenizer.
End EnhancedChunks.

Module EnhancedChunkExamples.
Import Enhanced Notions EnhancedChunks Sample.

(** A paragraph made of a terminator alone, then a sentence above the
    budget: the first chunk has an empty text and 0 tokens. *)
Example empty_first_chunk :
  @chunkTextEnhanced Sample.byteTokenizer ("." +:+ newline +:+ newline +:+ "abcdef") 3 1
  = [{| text := ""; start := 0; stop := 1; tokens := 0 |};
     {| text := "abcdef."; start := 1; stop := 2; tokens := 8 |}].
Proof. vm_compute. reflexivity. Qed.

Lemma byteTokenizer_rate (s : string) :
  (@countTokens Sample.byteTokenizer s <= 1 * String.length s)%nat.
Proof.
  unfold countTokens. cbn [encode Sample.byteTokenizer].
  rewrite List.length_map. induction s as [|c s IH]; simpl in *; lia.
Qed.

(** The bound is reached: 18 = 1 * 4 * 2 + 10. *)
Lemma chunk_tokens_bounded_witness :
  Forall (fun c => (tokens c <= Nat.max 10 (1 * (4 * 2) + 10))%nat)
    (@chunkTextEnhanced Sample.byteTokenizer "aaaa bbbb. cccc dddd. e." 10 2).
Proof.
  apply (@chunk_tokens_bounded Sample.byteTokenizer 1 10 10 2 ltac:(lia)
           byteTokenizer_rate "aaaa bbbb. cccc dddd. e.").
  vm_compute. repeat constructor.
Defined.

Lemma chunkTextEnhanced_positions_witness :
  let c := {| text := "a bbbb.  cccc dddd."; start := 1; stop := 2; tokens := 18 |} in
  @chunkTextEnhanced Sample.byteTokenizer "aaaa bbbb. cccc dddd. e." 10 2 !! 1%nat = Some c
  /\ start c = 1%nat /\ stop c = 2%nat
  /\ (text c = "" -> 1%nat = 0%nat /\ tokens c = 0%nat).
Proof.
  split; [reflexivity|].
  exact (@chunkTextEnhanced_positions Sample.byteTokenizer "aaaa bbbb. cccc dddd. e." 10 2
           1%nat _ eq_refl).
Defined.

End EnhancedChunkExamples.

(** ** What saveVectorStore writes *)

Module Saved.
Import Enhanced Notions SavedNotions.

Section WithModels.
Context `{Tokenizer} `{Embedder} `{Hasher}.
Variable now : nat -> string.

Lemma chunkCount_cons (doc : inputDoc) (docs : list inputDoc) :
  chunkCount (doc :: docs) = (List.length (chunksOf doc) + chunkCount docs)%nat.
Proof. reflexivity. Qed.

Lemma documentsOf_length (doc : inputDoc) (cs : list chunk) :
  forall j i, List.length (documentsOf now doc j i cs) = List.length cs.
Proof. induction cs as [|c cs IH]; intros j i; simpl; [reflexivity|now rewrite IH]. Qed.

Lemma documentsOf_lookup (doc : inputDoc) (cs : list chunk) :
  forall j i n c, cs !! n = Some c ->
    documentsOf now doc j i cs !! n = Some (chunkDocument now doc (j + n) (i + n) c).
Proof.
  induction cs as [|c' cs IH]; intros j i n c Hn; [discriminate|].
  destruct n as [|n]; cbn [documentsOf].
  - inversion Hn; subst. now rewrite !Nat.add_0_r.
  - change (documentsOf now doc (S j) (S i) cs !! n
            = Some (chunkDocument now doc (j + S n) (i + S n) c)).
    rewrite (IH (S j) (S i) n c Hn). now rewrite !Nat.add_succ_comm.
Qed.

Lemma documentsOf_id (doc : inputDoc) (cs : list chunk) :
  forall j i n d, documentsOf now doc j i cs !! n = Some d ->
    id (metadata d) = pretty (S (j + n)).
Proof.
  induction cs as [|c' cs IH]; intros j i n d Hn; [discriminate|].
  destruct n as [|n]; cbn [documentsOf] in Hn.
  - inversion Hn; subst. cbn. now rewrite Nat.add_0_r.
  - rewrite (IH (S j) (S i) n d Hn). now rewrite Nat.add_succ_comm.
Qed.

Lemma pushChunk_fold (doc : inputDoc) (cs : list chunk) :
  forall i cnt pd,
    fold_left (pushChunk now doc (List.length (chunksOf doc)))
      (combine (seq i (List.length cs)) cs) (cnt, pd)
    = ((cnt + List.length cs)%nat, pd ++ documentsOf now doc cnt i cs).
Proof.
  induction cs as [|c cs IH]; intros i cnt pd.
  - cbn. now rewrite Nat.add_0_r, List.app_nil_r.
  - cbn [List.length seq combine fold_left pushChunk]. rewrite IH.
    cbn [documentsOf]. rewrite <- List.app_assoc. cbn [List.app].
    f_equal. lia.
Qed.

Lemma pushDoc_fold (docs : list inputDoc) :
  forall cnt pd,
    fold_left (pushDoc now) docs (cnt, pd)
    = ((cnt + chunkCount docs)%nat, pd ++ documentsFrom now cnt docs).
Proof.
  induction docs as [|doc docs IH]; intros cnt pd.
  - cbn. now rewrite Nat.add_0_r, List.app_nil_r.
  - cbn [fold_left]. unfold pushDoc at 2. fold (chunksOf doc).
    rewrite pushChunk_fold, IH. cbn [documentsFrom].
    rewrite <- List.app_assoc, chunkCount_cons. f_equal. lia.
Qed.

(** The two loops of [saveVectorStore] produce the processed documents
    document by document, chunk by chunk. *)
Lemma processDocs_documentsFrom (docs : list inputDoc) :
  processDocs now docs = documentsFrom now 0 docs.
Proof. unfold processDocs. now rewrite pushDoc_fold. Qed.

Lemma documentsFrom_length (docs : list inputDoc) :
  forall j, List.length (documentsFrom now j docs) = chunkCount docs.
Proof.
  induction docs as [|doc docs IH]; intros j; [reflexivity|].
  cbn [documentsFrom]. rewrite List.length_app, documentsOf_length, IH.
  reflexivity.
Qed.

Lemma documentsFrom_id (docs : list inputDoc) :
  forall j n d, documentsFrom now j docs !! n = Some d ->
    id (metadata d) = pretty (S (j + n)).
Proof.
  induction docs as [|doc docs IH]; intros j n d Hn; [discriminate|].
  cbn [documentsFrom] in Hn. apply lookup_app_Some in Hn as [Hn|[Hlen Hn]].
  - eapply documentsOf_id; exact Hn.
  - rewrite documentsOf_length in *. rewrite (IH _ _ _ Hn).
    replace (j + List.length (chunksOf doc) + (n - List.length (chunksOf doc)))%nat
      with (j + n)%nat by lia.
    reflexivity.
Qed.

Lemma documentsFrom_lookup (before after : list inputDoc) (doc : inputDoc)
  (i : nat) (c : chunk) :
  chunksOf doc !! i = Some c ->
  forall j,
    documentsFrom now j (before ++ doc :: after) !! (chunkCount before + i)%nat
    = Some (chunkDocument now doc (j + chunkCount before + i) i c).
Proof.
  intros Hi. induction before as [|doc' before IH]; intros j.
  - change (chunkCount [] + i)%nat with i. rewrite Nat.add_0_r.
    cbn [List.app documentsFrom].
    rewrite lookup_app_l
      by (rewrite documentsOf_length; apply lookup_lt_Some in Hi; exact Hi).
    now rewrite (documentsOf_lookup doc _ j 0 i c Hi).
  - cbn [List.app documentsFrom]. rewrite chunkCount_cons.
    rewrite lookup_app_r by (rewrite documentsOf_length; lia).
    rewrite documentsOf_length.
    replace (List.length (chunksOf doc') + chunkCount before + i
             - List.length (chunksOf doc'))%nat
      with (chunkCount before + i)%nat by lia.
    rewrite IH.
    replace (j + List.length (chunksOf doc') + chunkCount before + i)%nat
      with (j + (List.length (chunksOf doc') + chunkCount before) + i)%nat by lia.
    reflexivity.
Qed.

(** *** docs.json *)

Lemma putDoc_fold_inv (P : string -> docEntry -> Prop)
  (idsArr : list string) (vecs : list (list R)) (l : list (nat * document)) :
  (forall j d key v, In (j, d) l -> idsArr !! j = Some key -> vecs !! j = Some v ->
     P key {| e_text := pageContent d; e_metadata := metadata d; e_vector := v |}) ->
  forall m, (forall key e, m !! key = Some e -> P key e) ->
    forall key e, fold_left (putDoc idsArr vecs) l m !! key = Some e -> P key e.
Proof.
  induction l as [|[j d] l IH]; intros Hl m Hm; [exact Hm|].
  cbn [fold_left]. apply IH; [intros; eapply Hl; [right|..]; eassumption|].
  intros key e. unfold putDoc.
  destruct (idsArr !! j) as [key'|] eqn:Hk; [|apply Hm].
  destruct (vecs !! j) as [v|] eqn:Hv; [|apply Hm].
  destruct (decide (key' = key)) as [->|Hne].
  - rewrite lookup_insert_eq. intros He; inversion He; subst.
    eapply Hl; [now left|eassumption..].
  - rewrite lookup_insert_ne by exact Hne. apply Hm.
Qed.

Lemma putDoc_fold_lookup (idsArr : list string) (vecs : list (list R))
  (l : list (nat * document)) (j : nat) (d : document) (key : string) (v : list R) :
  idsArr !! j = Some key -> vecs !! j = Some v ->
  (forall j' d', In (j', d') l -> idsArr !! j' = Some key -> j' = j /\ d' = d) ->
  forall m,
    m !! key = Some {| e_text := pageContent d; e_metadata := metadata d; e_vector := v |}
    \/ In (j, d) l ->
    fold_left (putDoc idsArr vecs) l m !! key
    = Some {| e_text := pageContent d; e_metadata := metadata d; e_vector := v |}.
Proof.
  intros Hkey Hv. induction l as [|[j' d'] l IH]; intros Hl m Hm.
  - destruct Hm as [Hm|[]]. exact Hm.
  - cbn [fold_left]. apply IH; [intros; apply Hl; [now right|assumption]|].
    unfold putDoc.
    destruct (idsArr !! j') as [key'|] eqn:Hk'.
    + destruct (vecs !! j') as [v'|] eqn:Hv'.
      * destruct (decide (key' = key)) as [->|Hne].
        -- destruct (Hl j' d' (or_introl eq_refl) Hk') as [-> ->].
           left. rewrite lookup_insert_eq. congruence.
        -- rewrite lookup_insert_ne by exact Hne.
           destruct Hm as [Hm|[Heq|Hin]]; [now left| |now right].
           inversion Heq; subst. congruence.
      * destruct Hm as [Hm|[Heq|Hin]]; [now left| |now right].
        inversion Heq; subst. congruence.
    + destruct Hm as [Hm|[Heq|Hin]]; [now left| |now right].
      inversion Heq; subst. congruence.
Qed.

Lemma saved_ids_lookup (docs : list inputDoc) (j : nat) (key : string) :
  ids (saveVectorStore now docs) !! j = Some key -> key = pretty (S j).
Proof.
  cbn [saveVectorStore ids]. rewrite Search.lookup_map.
  destruct (processDocs now docs !! j) as [d|] eqn:Hd; [|discriminate].
  intros Hk; inversion Hk; subst key.
  rewrite processDocs_documentsFrom in Hd. exact (documentsFrom_id docs 0 j d Hd).
Qed.

(** The entry of docs.json behind the [j]-th processed document. *)
Lemma saved_entry (docs : list inputDoc) (j : nat) (d : document) :
  processDocs now docs !! j = Some d ->
  let st := saveVectorStore now docs in
  ids st !! j = Some (pretty (S j))
  /\ vectors st !! j = Some (embedOne (pageContent d))
  /\ meta st !! j = Some (metadata d)
  /\ docsMap st !! pretty (S j) = Some (entryOfDocument d).
Proof.
  intros Hd. cbv zeta.
  assert (Hid : ids (saveVectorStore now docs) !! j = Some (pretty (S j))).
  { cbn [saveVectorStore ids]. rewrite Search.lookup_map, Hd. cbn.
    rewrite processDocs_documentsFrom in Hd.
    now rewrite (documentsFrom_id docs 0 j d Hd). }
  assert (Hv : vectors (saveVectorStore now docs) !! j = Some (embedOne (pageContent d))).
  { cbn [saveVectorStore vectors]. unfold embed. now rewrite !Search.lookup_map, Hd. }
  split; [exact Hid|]. split; [exact Hv|].
  split; [cbn [saveVectorStore meta]; now rewrite Search.lookup_map, Hd|].
  cbn [saveVectorStore docsMap]. unfold entryOfDocument.
  apply (putDoc_fold_lookup _ _ _ j d); [exact Hid|exact Hv| |].
  - intros j' d' Hin Hk. apply SearchResults.combine_seq_lookup in Hin.
    apply saved_ids_lookup in Hk. apply (inj pretty) in Hk.
    assert (j' = j) by lia. subst j'. split; [reflexivity|congruence].
  - right. apply (Search.in_combine_seq _ j d Hd 0%nat).
Qed.

(** Every entry of docs.json comes from a processed document. *)
Lemma saved_entry_inv (docs : list inputDoc) (key : string) (e : docEntry) :
  docsMap (saveVectorStore now docs) !! key = Some e ->
  exists j d, processDocs now docs !! j = Some d
              /\ key = pretty (S j) /\ e = entryOfDocument d.
Proof.
  cbn [saveVectorStore docsMap]. revert key e.
  apply putDoc_fold_inv; [|intros key e He; rewrite lookup_empty in He; discriminate].
  intros j d key v Hin Hk Hv. apply SearchResults.combine_seq_lookup in Hin.
  destruct (saved_entry docs j d Hin) as (Hid & Hvec & _).
  assert (Hk' : ids (saveVectorStore now docs) !! j = Some key) by exact Hk.
  assert (Hv' : vectors (saveVectorStore now docs) !! j = Some v) by exact Hv.
  rewrite Hid in Hk'. rewrite Hvec in Hv'.
  inversion Hk'; inversion Hv'; subst. exists j, d. auto.
Qed.

Lemma documentsOf_inv (doc : inputDoc) (cs : list chunk) :
  forall j i n d, documentsOf now doc j i cs !! n = Some d ->
    exists c, cs !! n = Some c /\ d = chunkDocument now doc (j + n) (i + n) c.
Proof.
  induction cs as [|c' cs IH]; intros j i n d Hn; [discriminate|].
  destruct n as [|n]; cbn [documentsOf] in Hn.
  - inversion Hn; subst. exists c'. split; [reflexivity|]. now rewrite !Nat.add_0_r.
  - destruct (IH (S j) (S i) n d Hn) as (c & Hc & ->). exists c. split; [exact Hc|].
    now rewrite !Nat.add_succ_comm.
Qed.

Lemma documentsFrom_inv (docs : list inputDoc) :
  forall j n d, documentsFrom now j docs !! n = Some d ->
    exists doc i c, In doc docs /\ chunksOf doc !! i = Some c
                    /\ d = chunkDocument now doc (j + n) i c.
Proof.
  induction docs as [|doc docs IH]; intros j n d Hn; [discriminate|].
  cbn [documentsFrom] in Hn. apply lookup_app_Some in Hn as [Hn|[Hlen Hn]].
  - destruct (documentsOf_inv doc _ j 0 n d Hn) as (c & Hc & ->).
    exists doc, n, c. split; [now left|]. split; [exact Hc|reflexivity].
  - rewrite documentsOf_length in *.
    destruct (IH _ _ _ Hn) as (doc' & i & c & Hin & Hc & ->).
    exists doc', i, c. split; [now right|]. split; [exact Hc|].
    replace (j + List.length (chunksOf doc) + (n - List.length (chunksOf doc)))%nat
      with (j + n)%nat by lia.
    reflexivity.
Qed.

(** X15. [saveVectorStore] numbers the chunks from 1 in the order of the
    documents and of their chunks: the ids are the decimal numerals
    ["1"], ..., ["n"] for the [n] chunks of all documents, pairwise
    distinct, and vectors.json and meta.json hold [n] elements each. *)
Theorem saveVectorStore_ids (docs : list inputDoc) :
  let st := saveVectorStore now docs in
  ids st = List.map pretty (seq 1 (chunkCount docs))
  /\ List.length (vectors st) = chunkCount docs
  /\ List.length (meta st) = chunkCount docs
  /\ List.NoDup (ids st).
Proof.
  cbv zeta.
  assert (Hids : ids (saveVectorStore now docs) = List.map pretty (seq 1 (chunkCount docs))).
  { apply list_eq. intros j.
    pose proof (documentsFrom_length docs 0) as Hlen.
    cbn [saveVectorStore ids]. rewrite processDocs_documentsFrom, !Search.lookup_map.
    destruct (documentsFrom now 0 docs !! j) as [d|] eqn:Hd.
    - pose proof (lookup_lt_Some _ _ _ Hd) as Hlt. rewrite Hlen in Hlt.
      rewrite (lookup_seq_lt 1 (chunkCount docs) j Hlt). cbn.
      now rewrite (documentsFrom_id docs 0 j d Hd).
    - apply lookup_ge_None in Hd. rewrite Hlen in Hd.
      now rewrite (lookup_seq_ge 1 (chunkCount docs) j Hd). }
  split; [exact Hids|].
  cbn [saveVectorStore vectors meta]. unfold embed.
  rewrite !List.length_map, processDocs_documentsFrom, documentsFrom_length.
  split; [reflexivity|]. split; [reflexivity|].
  change (List.NoDup (ids (saveVectorStore now docs))). rewrite Hids.
  apply List.NoDup_map_NoDup_ForallPairs; [|apply List.seq_NoDup].
  intros a b _ _ Hab. exact (inj pretty a b Hab).
Qed.

(** X16. The [i]-th chunk of a document that follows [before] in the
    input is chunk number [chunkCount before + i] of the index: its id,
    its vector (the embedding of its text), its metadata record (source,
    chunk rank and count, tags, length and checksum of the whole document,
    token count of the chunk) and its entry of docs.json are the ones
    below. *)
Theorem saveVectorStore_layout (before after : list inputDoc) (doc : inputDoc)
  (i : nat) (c : chunk) :
  chunksOf doc !! i = Some c ->
  let st := saveVectorStore now (before ++ doc :: after) in
  let j := (chunkCount before + i)%nat in
  let d := chunkDocument now doc j i c in
  ids st !! j = Some (pretty (S j))
  /\ vectors st !! j = Some (embedOne (text c))
  /\ meta st !! j = Some (metadata d)
  /\ docsMap st !! pretty (S j) = Some (entryOfDocument d).
Proof.
  intros Hi. cbv zeta.
  apply (saved_entry (before ++ doc :: after) (chunkCount before + i)
           (chunkDocument now doc (chunkCount before + i) i c)).
  rewrite processDocs_documentsFrom.
  exact (documentsFrom_lookup before after doc i c Hi 0).
Qed.

(** X17. The three files agree: every id of vectors.json has an entry in
    docs.json, and every entry of docs.json stands under the id its
    metadata names, at a position where vectors.json holds its vector and
    meta.json its metadata; the vector is the embedding of the text. *)
Theorem saved_files_agree (docs : list inputDoc) :
  let st := saveVectorStore now docs in
  (forall j key, ids st !! j = Some key -> is_Some (docsMap st !! key))
  /\ (forall key e, docsMap st !! key = Some e ->
        id (e_metadata e) = key
        /\ e_vector e = embedOne (e_text e)
        /\ exists j, ids st !! j = Some key
                     /\ vectors st !! j = Some (e_vector e)
                     /\ meta st !! j = Some (e_metadata e)).
Proof.
  cbv zeta. split.
  - intros j key Hk. pose proof (saved_ids_lookup docs j key Hk) as ->.
    assert (Hd : is_Some (processDocs now docs !! j)).
    { cbn [saveVectorStore ids] in Hk. rewrite Search.lookup_map in Hk.
      destruct (processDocs now docs !! j); [eauto|discriminate]. }
    destruct Hd as [d Hd]. destruct (saved_entry docs j d Hd) as (_ & _ & _ & He).
    eauto.
  - intros key e He. cbn [saveVectorStore docsMap] in He. revert key e He.
    apply putDoc_fold_inv; [|intros key e He; rewrite lookup_empty in He; discriminate].
    intros j d key v Hin Hk Hv. apply SearchResults.combine_seq_lookup in Hin.
    destruct (saved_entry docs j d Hin) as (Hid & Hvec & Hmeta & _).
    assert (Hk' : ids (saveVectorStore now docs) !! j = Some key) by exact Hk.
    assert (Hv' : vectors (saveVectorStore now docs) !! j = Some v) by exact Hv.
    rewrite Hid in Hk'. rewrite Hvec in Hv'.
    inversion Hk'; inversion Hv'; subst. cbn [e_metadata e_vector e_text].
    split.
    + rewrite processDocs_documentsFrom in Hin.
      exact (documentsFrom_id docs 0 j d Hin).
    + split; [reflexivity|]. exists j. auto.
Qed.

(** X18. Ingestion followed by retrieval.  With an embedding model of
    fixed dimension, a search with [k >= 0] over the index
    [saveVectorStore] wrote for [docs] returns [min k n] pairs, [n] the
    number of chunks of all documents; each pair holds the text of a chunk
    of one of the documents, with the source of that document and the rank
    of the chunk in it, and a distance above 0 and at most 1. *)
Theorem search_after_save (docs : list inputDoc) (query : string) (k : Z) :
  (forall s t, List.length (embedOne s) = List.length (embedOne t)) ->
  (0 <= k)%Z ->
  exists res,
    similaritySearchWithScore (saveVectorStore now docs) query k = inr res
    /\ List.length res = Nat.min (Z.to_nat k) (chunkCount docs)
    /\ Forall (fun p => (exists doc i c,
                           In doc docs /\ chunksOf doc !! i = Some c
                           /\ r_pageContent (fst p) = text c
                           /\ source (r_metadata (fst p)) = dm_source (in_metadata doc)
                           /\ chunkIndex (r_metadata (fst p)) = i)
                        /\ (0 < snd p <= 1)%R) res.
Proof.
  intros Hdim Hk.
  destruct (Search.search_total (saveVectorStore now docs) query k
              (Search.saveVectorStore_wellFormed now docs query Hdim)) as (res & Hres).
  exists res. split; [exact Hres|]. split.
  - pose proof (Search.search_length _ _ _ _ Hres) as Hl.
    assert (Hn : List.length (ids (saveVectorStore now docs)) = chunkCount docs).
    { cbn [saveVectorStore ids].
      now rewrite List.length_map, processDocs_documentsFrom, documentsFrom_length. }
    rewrite Hn in Hl. unfold JS.relIndex in Hl. destruct (Z.ltb_spec k 0); lia.
  - destruct (SearchResults.search_stages _ _ _ _ Hres) as (sc & Hsc & ->).
    rewrite List.Forall_forall. intros p Hp.
    apply List.in_map_iff in Hp as (s & <- & Hs). apply SearchResults.in_sliceArr in Hs.
    apply (Permutation_in _ (Search.sortDesc_perm sc)) in Hs.
    assert (Hentry : exists i e, docsMap (saveVectorStore now docs) !! i = Some e
                                 /\ doc s = SearchNotions.docOf e
                                 /\ (0 <= score s < 1)%R).
    { clear Hres. induction Hsc as [|i s' l sc' (_ & (e & He & Hd) & Hb) Hsc IH];
        [destruct Hs|].
      destruct Hs as [->|Hs]; [exists i, e; auto|exact (IH Hs)]. }
    destruct Hentry as (i & e & He & Hd & Hb).
    destruct (saved_entry_inv docs i e He) as (j & d & Hj & _ & ->).
    rewrite processDocs_documentsFrom in Hj.
    destruct (documentsFrom_inv docs 0 j d Hj) as (doc' & n & c & Hin & Hc & ->).
    cbn [fst snd]. rewrite Hd. split; [|lra].
    exists doc', n, c. repeat split; assumption.
Qed.

End WithModels.
End Saved.

Module SavedExamples.
Import Enhanced Notions SavedNotions Saved Sample.

Lemma search_after_save_witness :
  exists res,
    @similaritySearchWithScore axisEmbedder
      (@saveVectorStore byteTokenizer axisEmbedder textHasher epoch [docA; docB])
      "pricing" 1 = inr res
    /\ List.length res = Nat.min (Z.to_nat 1) (@chunkCount byteTokenizer [docA; docB])
    /\ Forall (fun p => (exists doc i c,
                           In doc [docA; docB] /\ @chunksOf byteTokenizer doc !! i = Some c
                           /\ r_pageContent (fst p) = text c
                           /\ source (r_metadata (fst p)) = dm_source (in_metadata doc)
                           /\ chunkIndex (r_metadata (fst p)) = i)
                        /\ (0 < snd p <= 1)%R) res.
Proof.
  apply (@search_after_save byteTokenizer axisEmbedder textHasher epoch [docA; docB]
           "pricing" 1); [reflexivity|lia].
Defined.

(** The one chunk of b.md, ingested behind a.md: chunk number 1 of the
    index, under the id "2". *)
Lemma saveVectorStore_layout_witness :
  let c := {| text := "Beta sales."; start := 0; stop := 1; tokens := 10 |} in
  let st := @saveVectorStore byteTokenizer axisEmbedder textHasher epoch [docA; docB] in
  let d := @chunkDocument byteTokenizer textHasher epoch docB 1 0 c in
  @chunksOf byteTokenizer docB !! 0%nat = Some c
  /\ ids st !! 1%nat = Some "2"
  /\ vectors st !! 1%nat = Some (@embedOne axisEmbedder (text c))
  /\ meta st !! 1%nat = Some (metadata d)
  /\ docsMap st !! "2" = Some (@entryOfDocument axisEmbedder d).
Proof.
  split; [reflexivity|].
  exact (@saveVectorStore_layout byteTokenizer axisEmbedder textHasher epoch
           [docA] [] docB 0
           {| text := "Beta sales."; start := 0; stop := 1; tokens := 10 |} eq_refl).
Defined.

End SavedExamples.

(** ** The four lists of a status check, as a whole *)

Module StatusLists.
Import Enhanced Notions Status.

Lemma verdict_filters_perm {A} (v : A -> verdict) (l : list A) :
  Permutation
    (List.filter (fun x => match v x with Unchanged => true | _ => false end) l
     ++ List.filter (fun x => match v x with Modified => true | _ => false end) l
     ++ List.filter (fun x => match v x with New => true | _ => false end) l) l.
Proof.
  induction l as [|x l IH]; [constructor|].
  cbn [List.filter]. destruct (v x).
  - cbn [List.app]. now constructor.
  - cbn [List.app]. rewrite <- Permutation_middle. now constructor.
  - rewrite List.app_assoc, <- Permutation_middle, <- List.app_assoc. now constructor.
Qed.

Lemma groupChunk_keys (m : chunkMeta) (docs : list (string * existing)) :
  List.map fst (groupChunk m docs)
  = if bool_decide (source m ∈ List.map fst docs) then List.map fst docs
    else List.map fst docs ++ [source m].
Proof.
  induction docs as [|[k' e] docs IH]; [reflexivity|].
  cbn [groupChunk List.map fst].
  destruct (String.eqb_spec k' (source m)) as [->|Hk].
  - rewrite bool_decide_true by (left). reflexivity.
  - cbn [List.map fst]. rewrite IH.
    destruct (bool_decide (source m ∈ List.map fst docs)) eqn:Hb.
    + apply bool_decide_eq_true in Hb. rewrite bool_decide_true by (now right).
      reflexivity.
    + apply bool_decide_eq_false in Hb.
      rewrite bool_decide_false; [reflexivity|].
      intros Hin. apply elem_of_cons in Hin as [Heq|Hin]; [congruence|contradiction].
Qed.

(** The keys of the map of existing documents are pairwise distinct. *)
Lemma groupBySource_NoDup (metaList : list chunkMeta) :
  List.NoDup (List.map fst (groupBySource metaList)).
Proof.
  induction metaList as [|m l IH] using rev_ind; [constructor|].
  rewrite groupBySource_snoc, groupChunk_keys.
  destruct (bool_decide (source m ∈ List.map fst (groupBySource l))) eqn:Hb;
    [exact IH|].
  apply bool_decide_eq_false in Hb. rewrite list_elem_of_In in Hb.
  apply List.NoDup_app; [exact IH|repeat constructor; intros []|].
  intros a Ha [<-|[]]. contradiction.
Qed.

Lemma NoDup_filter {A} (p : A -> bool) (l : list A) :
  List.NoDup l -> List.NoDup (List.filter p l).
Proof.
  induction 1 as [|x l Hx Hl IH]; [constructor|].
  cbn [List.filter]. destruct (p x); [|exact IH].
  constructor; [|exact IH]. rewrite filter_In. tauto.
Qed.

Section WithHasher.
Context `{Hasher}.

Lemma status_lists_perm (fs : fileSystem) (metaList : list chunkMeta)
  (names : list string) (st : status) :
  readdir fs = Some names ->
  checkDocumentStatus fs metaList = Some st ->
  Permutation (unchanged st ++ modified st ++ new st) (List.filter isSourceFile names).
Proof.
  intros Hdir Hst.
  destruct (checkDocumentStatus_lists fs metaList names st Hdir Hst)
    as (HU & HM & HN & HD). cbv zeta in *.
  rewrite HU, HM, HN. unfold verdictIs.
  exact (verdict_filters_perm (verdictOf (groupBySource metaList) fs)
           (List.filter isSourceFile names)).
Qed.

(** X19. The lists [unchanged], [modified] and [new] of a status check
    hold the source files of the directory, each as often as it is
    listed, and nothing else; [deleted] holds no name twice; and when the
    listing holds no name twice, no name stands twice in the four lists
    together. *)
Theorem status_lists_partition (fs : fileSystem) (metaList : list chunkMeta)
  (names : list string) (st : status) :
  readdir fs = Some names ->
  checkDocumentStatus fs metaList = Some st ->
  Permutation (unchanged st ++ modified st ++ new st) (List.filter isSourceFile names)
  /\ List.NoDup (deleted st)
  /\ (List.NoDup names ->
      List.NoDup (unchanged st ++ modified st ++ new st ++ deleted st)).
Proof.
  intros Hdir Hst.
  destruct (checkDocumentStatus_lists fs metaList names st Hdir Hst)
    as (HU & HM & HN & HD). cbv zeta in *.
  set (files := List.filter isSourceFile names) in *.
  set (ex := groupBySource metaList) in *.
  pose proof (status_lists_perm fs metaList names st Hdir Hst) as Hperm.
  fold files in Hperm.
  assert (Hdel : List.NoDup (deleted st)).
  { rewrite HD. apply NoDup_filter, groupBySource_NoDup. }
  split; [exact Hperm|]. split; [exact Hdel|].
  intros Hnames. rewrite !List.app_assoc. apply List.NoDup_app; [|exact Hdel|].
  - rewrite <- List.app_assoc.
    apply (Permutation_NoDup (Permutation_sym Hperm)), NoDup_filter, Hnames.
  - intros f Hf Hd. rewrite <- List.app_assoc in Hf.
    apply (Permutation_in _ Hperm) in Hf.
    rewrite HD in Hd. apply filter_In in Hd as [_ Hd].
    apply negb_true_iff, bool_decide_eq_false in Hd. rewrite list_elem_of_In in Hd.
    contradiction.
Qed.

(** X20. The status endpoint answers a GET with status 200 in every
    case: its [total] is the number of source files (.pdf, .txt, .md) of
    the docs directory, deleted files not counted, and 0, with four empty
    lists, when the directory cannot be listed. *)
Theorem status_endpoint_total (fs : fileSystem) (metaList : list chunkMeta) :
  exists st sm,
    StatusApi.handler "GET" (checkDocumentStatus fs metaList) = StatusApi.Json200 st sm
    /\ StatusApi.total sm
       = match readdir fs with
         | Some names => List.length (List.filter isSourceFile names)
         | None => 0%nat
         end
    /\ StatusApi.total sm
       = (StatusApi.s_unchanged sm + StatusApi.s_modified sm + StatusApi.s_new sm)%nat
    /\ (readdir fs = None ->
        st = {| unchanged := []; modified := []; new := []; deleted := [] |}
        /\ StatusApi.s_deleted sm = 0%nat).
Proof.
  destruct (checkDocumentStatus fs metaList) as [st|] eqn:Hst.
  - eexists _, _. split; [reflexivity|]. cbn [StatusApi.total StatusApi.s_unchanged
      StatusApi.s_modified StatusApi.s_new StatusApi.s_deleted].
    destruct (readdir fs) as [names|] eqn:Hdir.
    + pose proof (status_lists_perm fs metaList names st Hdir Hst) as Hperm.
      apply Permutation_length in Hperm. rewrite !List.length_app in Hperm.
      split; [lia|]. split; [reflexivity|discriminate].
    + unfold checkDocumentStatus in Hst. rewrite Hdir in Hst. discriminate.
  - eexists _, _. split; [reflexivity|]. cbn.
    unfold checkDocumentStatus in Hst.
    destruct (readdir fs); [discriminate|]. auto.
Qed.

End WithHasher.
End StatusLists.

Module StatusListExamples.
Import Enhanced Notions Sample StatusLists.

Lemma status_lists_partition_witness :
  let st := {| unchanged := ["a.md"]; modified := ["b.txt"]; new := ["c.md"];
               deleted := ["d.md"] |} in
  let names := ["a.md"; "b.txt"; "c.md"; "README"] in
  Permutation (unchanged st ++ modified st ++ new st) (List.filter isSourceFile names)
  /\ List.NoDup (deleted st)
  /\ (List.NoDup names ->
      List.NoDup (unchanged st ++ modified st ++ new st ++ deleted st)).
Proof.
  exact (@status_lists_partition Sample.textHasher mixedDir mixedRecords
           ["a.md"; "b.txt"; "c.md"; "README"] _ eq_refl StatusExamples.mixedDir_status).
Defined.

End StatusListExamples.

(** ** The tags of an ingested file *)

Module IngestTags.
Import Enhanced Ingest Notions.

(** A source file always gets the tag of its type. *)
Lemma inferTags_type_tag (content filename : string) :
  isSourceFile filename = true ->
  exists tag, In tag ["pdf"; "text"; "markdown"] /\ In tag (inferTags content filename).
Proof.
  unfold isSourceFile, inferTags. cbv zeta. intros Hsrc.
  set (kws := _ ++ _ ++ _ ++ _ ++ _ ++ _ ++ _ ++ _ ++ _).
  assert (Hfound : exists tag, In tag ["pdf"; "text"; "markdown"] /\ In tag kws).
  { unfold kws. clear kws.
    destruct (JS.endsWith ".pdf" filename) eqn:Hpdf.
    - exists "pdf". split; [now left|]. rewrite !in_app_iff. do 8 right. left. now left.
    - destruct (JS.endsWith ".txt" filename) eqn:Htxt.
      + exists "text". split; [right; now left|].
        rewrite !in_app_iff. do 9 right. left. now left.
      + destruct (JS.endsWith ".md" filename) eqn:Hmd; [|discriminate].
        exists "markdown". split; [right; right; now left|].
        rewrite !in_app_iff. do 10 right. now left. }
  destruct Hfound as (tag & Htag & Hin). exists tag. split; [exact Htag|].
  destruct kws as [|t kws']; [destruct Hin|exact Hin].
Qed.

End IngestTags.

(** ** What a run of the ingestion script leaves behind *)

Module RunEffects.
Import Enhanced Ingest Notions SavedNotions RunNotions.

Lemma loadDocument_app (args : cli) (fs : fileSystem) (docs : list inputDoc) (f : string) :
  loadDocument args fs docs f = docs ++ loadedDoc args fs f.
Proof.
  unfold loadedDoc, loadDocument. cbn [fold_left].
  destruct (if JS.endsWith ".pdf" f then pdfText fs f else readText fs f);
    [reflexivity|now rewrite List.app_nil_r].
Qed.

Lemma loadedDoc_tags (args : cli) (fs : fileSystem) (f : string) (doc : inputDoc) :
  In doc (loadedDoc args fs f) ->
  dm_source (in_metadata doc) = f
  /\ dm_tags (in_metadata doc)
     = match cliTags args with
       | Some (t :: ts) => t :: ts
       | _ => inferTags (in_pageContent doc) f
       end.
Proof.
  unfold loadedDoc, loadDocument. cbn [fold_left].
  destruct (if JS.endsWith ".pdf" f then pdfText fs f else readText fs f) as [c|];
    [|intros []].
  intros [<-|[]]. cbn. split; [reflexivity|].
  destruct (cliTags args) as [[|t ts]|]; reflexivity.
Qed.

Lemma loadDocument_fold (args : cli) (fs : fileSystem) (files : list string) :
  forall docs,
    fold_left (loadDocument args fs) files docs
    = docs ++ flat_map (loadedDoc args fs) files.
Proof.
  induction files as [|f files IH]; intros docs; cbn [fold_left flat_map].
  - now rewrite List.app_nil_r.
  - now rewrite IH, loadDocument_app, <- List.app_assoc.
Qed.

Lemma loadedDoc_In (args : cli) (fs : fileSystem) (f : string) (doc : inputDoc) :
  In doc (loadedDoc args fs f) <->
  exists c, contentOf fs f = Some c
            /\ in_pageContent doc = c /\ dm_source (in_metadata doc) = f
            /\ loadedDoc args fs f = [doc].
Proof.
  unfold loadedDoc, loadDocument, contentOf. cbn [fold_left].
  destruct (if JS.endsWith ".pdf" f then pdfText fs f else readText fs f) as [c|].
  - cbn [List.app]. split.
    + intros [<-|[]]. exists c. cbn. auto.
    + intros (c' & _ & _ & _ & Hd). inversion Hd. now left.
  - split; [intros []|intros (c' & Hc & _); discriminate].
Qed.

Section WithModels.
Context `{Tokenizer} `{Embedder} `{Hasher}.
Variable now : nat -> string.

Lemma documentsOf_In (doc : inputDoc) (cs : list chunk) (d : document) :
  forall j i, In d (documentsOf now doc j i cs) ->
    source (metadata d) = dm_source (in_metadata doc)
    /\ checksum (metadata d) = md5hex (in_pageContent doc)
    /\ tags (metadata d) = dm_tags (in_metadata doc).
Proof.
  induction cs as [|c cs IH]; intros j i Hd; [destruct Hd|].
  destruct Hd as [<-|Hd]; [repeat split|exact (IH _ _ Hd)].
Qed.

Lemma documentsFrom_In (docs : list inputDoc) (d : document) :
  forall j, In d (documentsFrom now j docs) ->
    exists doc, In doc docs /\ chunksOf doc <> []
                /\ source (metadata d) = dm_source (in_metadata doc)
                /\ checksum (metadata d) = md5hex (in_pageContent doc)
                /\ tags (metadata d) = dm_tags (in_metadata doc).
Proof.
  induction docs as [|doc docs IH]; intros j Hd; [destruct Hd|].
  cbn [documentsFrom] in Hd. apply in_app_or in Hd as [Hd|Hd].
  - exists doc. split; [now left|]. split.
    + intros Hn. rewrite Hn in Hd. destruct Hd.
    + exact (documentsOf_In doc _ d _ _ Hd).
  - destruct (IH _ Hd) as (doc' & Hin & Hrest). exists doc'. split; [now right|exact Hrest].
Qed.

Lemma documentsFrom_source (docs : list inputDoc) (doc : inputDoc) :
  In doc docs -> chunksOf doc <> [] ->
  forall j, exists d, In d (documentsFrom now j docs)
                      /\ source (metadata d) = dm_source (in_metadata doc)
                      /\ checksum (metadata d) = md5hex (in_pageContent doc).
Proof.
  intros Hin Hne. induction docs as [|doc' docs IH]; intros j; [destruct Hin|].
  cbn [documentsFrom]. destruct Hin as [->|Hin].
  - destruct (chunksOf doc) as [|c cs] eqn:Hcs; [contradiction|].
    eexists. split; [apply in_or_app; left; now left|]. split; reflexivity.
  - destruct (IH Hin (j + List.length (chunksOf doc'))%nat) as (d & Hd & Hrest).
    exists d. split; [apply in_or_app; now right|exact Hrest].
Qed.

(** The records of an index [saveVectorStore] wrote: a file is recorded with
    a checksum exactly when a document of that source and content, with at
    least one chunk, was handed over. *)
Lemma saved_records (docs : list inputDoc) (f c : string) :
  recordedChecksum (meta (saveVectorStore now docs)) f c <->
  exists doc, In doc docs /\ chunksOf doc <> []
              /\ dm_source (in_metadata doc) = f /\ md5hex (in_pageContent doc) = c.
Proof.
  cbn [saveVectorStore meta]. rewrite Saved.processDocs_documentsFrom.
  unfold recordedChecksum. split.
  - intros (m & Hm & Hs & Hc). apply List.in_map_iff in Hm as (d & <- & Hd).
    destruct (documentsFrom_In docs d 0 Hd) as (doc & Hin & Hne & Hsrc & Hsum & _).
    exists doc. repeat split; [assumption..|congruence|congruence].
  - intros (doc & Hin & Hne & Hs & Hc).
    destruct (documentsFrom_source docs doc Hin Hne 0) as (d & Hd & Hsrc & Hsum).
    exists (metadata d). split; [now apply in_map|]. split; congruence.
Qed.

Lemma recorded_checksum (metaList : list chunkMeta) (f : string) :
  recorded metaList f <-> exists c, recordedChecksum metaList f c.
Proof.
  split.
  - intros (m & Hm & Hs). exists (checksum m), m. auto.
  - intros (c & m & Hm & Hs & _). exists m. auto.
Qed.

(** What a run that saved went through. *)
Lemma run_saved (args : cli) (fs : fileSystem) (metaList : list chunkMeta) (st : store) :
  run now args fs metaList = Saved st ->
  exists s files,
    checkDocumentStatus fs metaList = Some s
    /\ filesToProcess args (Some s) = inr files
    /\ (forall f, In f files -> In f (new s) \/ In f (modified s))
    /\ st = saveVectorStore now (flat_map (loadedDoc args fs) files).
Proof.
  unfold run.
  destruct (checkDocumentStatus fs metaList) as [s|] eqn:Hs.
  - destruct (filesToProcess args (Some s)) as [code|files] eqn:Hf; [discriminate|].
    rewrite loadDocument_fold. cbn [List.app].
    destruct (List.length _ =? 0)%nat; [discriminate|].
    intros Hst; inversion Hst; subst st. exists s, files.
    split; [reflexivity|]. split; [exact Hf|]. split; [|reflexivity].
    unfold filesToProcess in Hf. destruct (targetFile args) as [t|].
    + unfold inList in Hf.
      destruct (bool_decide (t ∈ new s)) eqn:Hn.
      * inversion Hf; subst. intros f [<-|[]]. left.
        apply bool_decide_eq_true in Hn. now apply list_elem_of_In.
      * destruct (bool_decide (t ∈ modified s)) eqn:Hm.
        -- inversion Hf; subst. intros f [<-|[]]. right.
           apply bool_decide_eq_true in Hm. now apply list_elem_of_In.
        -- cbn in Hf. destruct (bool_decide (t ∈ unchanged s)); discriminate.
    + destruct (List.length (new s ++ modified s) =? 0)%nat; [discriminate|].
      inversion Hf; subst. intros f Hin. now apply in_app_or in Hin.
  - unfold filesToProcess.
    destruct (targetFile args) as [t|]; cbn; discriminate.
Qed.

Lemma run_recorded (args : cli) (fs : fileSystem)
  (metaList : list chunkMeta) (st : store) :
  run now args fs metaList = Saved st ->
  exists s files,
    checkDocumentStatus fs metaList = Some s
    /\ filesToProcess args (Some s) = inr files
    /\ (forall f, In f files -> In f (new s) \/ In f (modified s))
    /\ (forall f c, recordedChecksum (meta st) f c <->
          In f files
          /\ exists content, contentOf fs f = Some content
                             /\ sentencesOf content <> [] /\ c = md5hex content).
Proof.
  intros Hrun. destruct (run_saved args fs metaList st Hrun) as (s & files & Hs & Hf & Hsub & ->).
  exists s, files. split; [exact Hs|]. split; [exact Hf|]. split; [exact Hsub|].
  intros f c. rewrite saved_records. split.
  - intros (doc & Hin & Hne & Hsrc & Hsum).
    apply in_flat_map in Hin as (f' & Hf' & Hdoc).
    apply loadedDoc_In in Hdoc as (content & Hc & Hpc & Hds & _).
    rewrite <- Hsrc, <- Hsum, Hds. split; [exact Hf'|].
    exists content. split; [exact Hc|]. split; [|now rewrite Hpc].
    intros Hn. apply Hne. unfold chunksOf. rewrite Hpc.
    now apply EnhancedChunks.chunks_nil_iff.
  - intros (Hin & content & Hc & Hne & ->).
    destruct (loadedDoc args fs f) as [|doc l] eqn:Hl.
    + unfold loadedDoc, loadDocument in Hl. cbn [fold_left] in Hl.
      unfold contentOf in Hc. rewrite Hc in Hl. discriminate.
    + assert (Hdoc : In doc (loadedDoc args fs f)) by (rewrite Hl; now left).
      pose proof Hdoc as Hdoc'.
      apply loadedDoc_In in Hdoc' as (content' & Hc' & Hpc & Hds & _).
      assert (Hpc' : in_pageContent doc = content) by congruence.
      clear Hc' Hpc content'. rename Hpc' into Hpc.
      exists doc. split; [apply in_flat_map; exists f; now split|].
      split; [|split; [exact Hds|now rewrite Hpc]].
      unfold chunksOf. rewrite Hpc. intros Hn. apply Hne.
      now apply EnhancedChunks.chunks_nil_iff in Hn.
Qed.

(** A file found [unchanged] is neither [new] nor [modified]. *)
Lemma unchanged_apart (fs : fileSystem) (metaList : list chunkMeta) (s : status)
  (f : string) :
  checkDocumentStatus fs metaList = Some s ->
  In f (unchanged s) -> ~ (In f (new s) \/ In f (modified s)).
Proof.
  intros Hs Hu Hnm.
  destruct (readdir fs) as [names|] eqn:Hdir;
    [|unfold checkDocumentStatus in Hs; rewrite Hdir in Hs; discriminate].
  destruct (Status.checkDocumentStatus_members fs metaList names s f Hdir Hs)
    as (HU & HM & HN & _).
  apply HU in Hu as [_ Hv].
  destruct Hnm as [Hn|Hm].
  - apply HN in Hn as [_ Hv']. congruence.
  - apply HM in Hm as [_ Hv']. congruence.
Qed.

(** X21. After a run of the script that wrote an index, a file is
    recorded in the index exactly when it was processed in this run (it was
    [new] or [modified], or the file named by [--file]), could be read, and
    holds at least one sentence; its recorded checksum is that of the text
    read.  A file the status check found [unchanged] is therefore no longer
    recorded. *)
Theorem run_records_processed_files_only (args : cli) (fs : fileSystem)
  (metaList : list chunkMeta) (st : store) :
  run now args fs metaList = Saved st ->
  exists s files,
    checkDocumentStatus fs metaList = Some s
    /\ filesToProcess args (Some s) = inr files
    /\ (forall f, In f files -> In f (new s) \/ In f (modified s))
    /\ (forall f c, recordedChecksum (meta st) f c <->
          In f files
          /\ exists content, contentOf fs f = Some content
                             /\ sentencesOf content <> [] /\ c = md5hex content)
    /\ (forall f, In f (unchanged s) -> ~ recorded (meta st) f).
Proof.
  intros Hrun.
  destruct (run_recorded args fs metaList st Hrun) as (s & files & Hs & Hf & Hsub & Hrec).
  exists s, files. repeat (split; [assumption|]).
  intros f Hu Hr. apply recorded_checksum in Hr as (c & Hr).
  apply Hrec in Hr as (Hin & _).
  exact (unchanged_apart fs metaList s f Hs Hu (Hsub f Hin)).
Qed.

Lemma verdictOf_recorded (metaList : list chunkMeta) (fs : fileSystem) (f c : string) :
  fingerprintText fs f = Some c ->
  (recordedChecksum metaList f (md5hex c) ->
   verdictOf (groupBySource metaList) fs f = Unchanged)
  /\ (~ recorded metaList f -> verdictOf (groupBySource metaList) fs f = New).
Proof.
  intros Hfp. unfold verdictOf. rewrite Hfp.
  pose proof (Status.mapGet_groupBySource metaList f) as Hg.
  destruct (mapGet f (groupBySource metaList)) as [e|].
  - destruct Hg as [Hrec Hsum]. split; [|contradiction].
    intros Hr. apply Hsum in Hr. now rewrite bool_decide_true.
  - split; [|reflexivity]. intros (m & Hm & Hs & _). exfalso. apply Hg. exists m. auto.
Qed.

(** X22. The status check that follows a run, over the same directory:
    a file of text (not a PDF) that the run processed is [unchanged] when it
    holds a sentence and [new] again when it holds none; and every file
    that was [unchanged] before the run is now [new], because the run
    dropped its record. *)
Theorem status_after_run (args : cli) (fs : fileSystem)
  (metaList : list chunkMeta) (st : store) (s' : status) :
  run now args fs metaList = Saved st ->
  checkDocumentStatus fs (meta st) = Some s' ->
  exists s files,
    checkDocumentStatus fs metaList = Some s
    /\ filesToProcess args (Some s) = inr files
    /\ (forall f content, In f files -> JS.endsWith ".pdf" f = false ->
          readText fs f = Some content ->
          (sentencesOf content <> [] -> In f (unchanged s'))
          /\ (sentencesOf content = [] -> In f (new s')))
    /\ (forall f, In f (unchanged s) -> In f (new s')).
Proof.
  intros Hrun Hs'.
  destruct (run_recorded args fs metaList st Hrun) as (s & files & Hs & Hf & Hsub & Hrec).
  exists s, files. split; [exact Hs|]. split; [exact Hf|].
  destruct (readdir fs) as [names|] eqn:Hdir;
    [|unfold checkDocumentStatus in Hs; rewrite Hdir in Hs; discriminate].
  assert (Hlisted : forall f, In f (unchanged s) \/ In f (new s) \/ In f (modified s) ->
             In f (List.filter isSourceFile names)
             /\ (In f (unchanged s) -> is_Some (fingerprintText fs f))).
  { intros f Hf'.
    destruct (Status.checkDocumentStatus_members fs metaList names s f Hdir Hs)
      as (HU & HM & HN & _).
    split.
    - destruct Hf' as [Hu|[Hn|Hm]]; [apply HU in Hu|apply HN in Hn|apply HM in Hm]; tauto.
    - intros Hu. apply HU in Hu as [_ Hv]. unfold verdictOf in Hv.
      destruct (fingerprintText fs f); [eauto|discriminate]. }
  split.
  - intros f content Hin Hpdf Hread.
    destruct (Status.checkDocumentStatus_members fs (meta st) names s' f Hdir Hs')
      as (HU' & _ & HN' & _).
    destruct (Hlisted f) as [Hfile _]; [destruct (Hsub f Hin); auto|].
    assert (Hfp : fingerprintText fs f = Some content)
      by (unfold fingerprintText; now rewrite Hpdf).
    assert (Hco : contentOf fs f = Some content)
      by (unfold contentOf; now rewrite Hpdf).
    destruct (verdictOf_recorded (meta st) fs f content Hfp) as [Hunch Hnew].
    split.
    + intros Hne. apply HU'. split; [exact Hfile|]. apply Hunch.
      apply Hrec. split; [exact Hin|exists content; auto].
    + intros Hnil. apply HN'. split; [exact Hfile|]. apply Hnew.
      intros Hr. apply recorded_checksum in Hr as (c & Hr).
      apply Hrec in Hr as (_ & content' & Hc' & Hne & _).
      rewrite Hco in Hc'. inversion Hc'; subst content'. contradiction.
  - intros f Hu.
    destruct (Status.checkDocumentStatus_members fs (meta st) names s' f Hdir Hs')
      as (_ & _ & HN' & _).
    destruct (Hlisted f (or_introl Hu)) as [Hfile Hfp].
    destruct (Hfp Hu) as [c Hc].
    apply HN'. split; [exact Hfile|].
    apply (verdictOf_recorded (meta st) fs f c Hc).
    intros Hr. apply recorded_checksum in Hr as (c' & Hr).
    apply Hrec in Hr as (Hin & _).
    exact (unchanged_apart fs metaList s f Hs Hu (Hsub f Hin)).
Qed.

(** X23. Every record of an index the script wrote carries the tags of
    the command line when [--tags=] gave any, and otherwise inferred tags
    that include the tag of the file type ([pdf], [text] or [markdown]):
    the script processes only .pdf, .txt and .md files, so the fallback
    tags [business], [document] of [inferTags] are never used. *)
Theorem run_tags_every_record (args : cli) (fs : fileSystem)
  (metaList : list chunkMeta) (st : store) :
  run now args fs metaList = Saved st ->
  Forall (fun m =>
            match cliTags args with
            | Some (t :: ts) => tags m = t :: ts
            | _ => (exists c, contentOf fs (source m) = Some c
                              /\ tags m = inferTags c (source m))
                   /\ (exists tag, In tag ["pdf"; "text"; "markdown"] /\ In tag (tags m))
                   /\ tags m <> ["business"; "document"]
            end) (meta st).
Proof.
  intros Hrun. destruct (run_saved args fs metaList st Hrun) as (s & files & Hs & Hf & Hsub & ->).
  rewrite List.Forall_forall. intros m Hm.
  cbn [saveVectorStore meta] in Hm. rewrite Saved.processDocs_documentsFrom in Hm.
  apply List.in_map_iff in Hm as (d & <- & Hd).
  destruct (documentsFrom_In _ d 0 Hd) as (doc & Hin & _ & Hsrc & _ & Htags).
  apply in_flat_map in Hin as (f & Hfile & Hdoc).
  destruct (loadedDoc_tags args fs f doc Hdoc) as [Hds Hdt].
  apply loadedDoc_In in Hdoc as (c & Hc & Hpc & _).
  rewrite Htags, Hdt, Hsrc, Hds, Hpc.
  destruct (cliTags args) as [[|t ts]|]; [|reflexivity|].
  all: assert (Hsource : isSourceFile f = true).
  all: try (destruct (readdir fs) as [names|] eqn:Hdir;
            [|unfold checkDocumentStatus in Hs; rewrite Hdir in Hs; discriminate];
            destruct (Status.checkDocumentStatus_members fs metaList names s f Hdir Hs)
              as (_ & HM & HN & _);
            destruct (Hsub f Hfile) as [Hn|Hmod];
            [apply HN in Hn as [Hn _]|apply HM in Hmod as [Hn _]];
            apply filter_In in Hn as [_ Hn]; exact Hn).
  all: destruct (IngestTags.inferTags_type_tag c f Hsource) as (tag & Htag & Hin).
  all: split; [exists c; split; [exact Hc|reflexivity]|].
  all: split; [exists tag; split; assumption|].
  all: intros Heq; rewrite Heq in Hin;
       destruct Htag as [<-|[<-|[<-|[]]]];
       destruct Hin as [Hx|[Hx|[]]]; discriminate.
Qed.

End WithModels.
End RunEffects.

(** Closed instances: the run over a.md and b.md that follows the first run
    over a.md. *)

Module RunExamples.
Import Enhanced Ingest Notions RunNotions RunSample RunEffects Sample.

Lemma run_records_processed_files_only_witness :
  exists s files,
    @checkDocumentStatus textHasher dirAB (meta firstIndex) = Some s
    /\ filesToProcess noArgs (Some s) = inr files
    /\ (forall f, In f files -> In f (new s) \/ In f (modified s))
    /\ (forall f c, recordedChecksum (meta secondIndex) f c <->
          In f files
          /\ exists content, contentOf dirAB f = Some content
                             /\ sentencesOf content <> []
                             /\ c = @md5hex textHasher content)
    /\ (forall f, In f (unchanged s) -> ~ recorded (meta secondIndex) f).
Proof.
  exact (@run_records_processed_files_only byteTokenizer axisEmbedder textHasher epoch
           noArgs dirAB (meta firstIndex) secondIndex
           (@IngestRun.second_run byteTokenizer axisEmbedder textHasher epoch)).
Defined.

Lemma status_after_run_witness :
  let s' := {| unchanged := ["b.md"]; modified := []; new := ["a.md"]; deleted := [] |} in
  @checkDocumentStatus textHasher dirAB (meta secondIndex) = Some s'
  /\ exists s files,
       @checkDocumentStatus textHasher dirAB (meta firstIndex) = Some s
       /\ filesToProcess noArgs (Some s) = inr files
       /\ (forall f content, In f files -> JS.endsWith ".pdf" f = false ->
             readText dirAB f = Some content ->
             (sentencesOf content <> [] -> In f (unchanged s'))
             /\ (sentencesOf content = [] -> In f (new s')))
       /\ (forall f, In f (unchanged s) -> In f (new s')).
Proof.
  assert (Hs' : @checkDocumentStatus textHasher dirAB (meta secondIndex)
                = Some {| unchanged := ["b.md"]; modified := []; new := ["a.md"];
                          deleted := [] |})
    by (vm_compute; reflexivity).
  split; [exact Hs'|].
  exact (@status_after_run byteTokenizer axisEmbedder textHasher epoch
           noArgs dirAB (meta firstIndex) secondIndex _
           (@IngestRun.second_run byteTokenizer axisEmbedder textHasher epoch) Hs').
Defined.

Lemma run_tags_every_record_witness :
  Forall (fun m =>
            (exists c, contentOf dirAB (source m) = Some c
                       /\ tags m = inferTags c (source m))
            /\ (exists tag, In tag ["pdf"; "text"; "markdown"] /\ In tag (tags m))
            /\ tags m <> ["business"; "document"]) (meta secondIndex).
Proof.
  exact (@run_tags_every_record byteTokenizer axisEmbedder textHasher epoch
           noArgs dirAB (meta firstIndex) secondIndex
           (@IngestRun.second_run byteTokenizer axisEmbedder textHasher epoch)).
Defined.

End RunExamples.

(** ** The search of the plain cosine store *)

Module SimpleSearch.
Import Enhanced Notions SearchNotions ScoreBounds SearchResults.

Open Scope R_scope.




Section WithEmbedder.
Context `{Embedder}.


End WithEmbedder.
End SimpleSearch.

Module SimpleSearchExamples.
Import Enhanced Notions SearchNotions Sample SearchResults SimpleSearch.

Open Scope R_scope.


End SimpleSearchExamples.

(** ** The ask handler over an index *)

Module AskOverIndex.
Import Enhanced Ask Notions.

Section WithRuntime.
Context `{Embedder}.
Variable toFixed3 : R -> string.
Variable randomString : string.
Variable generateEnhanced : string -> string -> list (resultDoc * R) -> string.

(** X25. For a valid request with [k >= 0] over a well-formed index of
    [n] chunks the handler replies with status 200: it reports
    [min k n] search results and as many contexts, and the number of
    metadata records as [totalDocuments]; the reply is the
    insufficient-corpus answer exactly when [min k n < 2], so that a
    request with [k <= 1] or an index of one chunk never reaches the
    language model; otherwise the answer is the generated one. *)
Theorem handler_reply_by_count (req : request) (st : store) :
  (3 <= String.length (query req))%nat ->
  (10 <= String.length (systemPrompt req))%nat ->
  (0 <= k req)%Z ->
  wellFormed st (embedOne (query req)) ->
  let found := Nat.min (Z.to_nat (k req)) (List.length (ids st)) in
  exists b ctxs,
    Ask.handler toFixed3 randomString generateEnhanced req (Some st) = Ok200 b
    /\ similaritySearchWithScore st (query req) (k req) = inr ctxs
    /\ searchResults b = found
    /\ List.length (contexts b) = found
    /\ totalDocuments b = List.length (meta st)
    /\ noContext b = None
    /\ insufficient b = (found <? 2)%nat
    /\ answer b = if (found <? 2)%nat
                  then insufficientResponse (query req) (List.length (meta st)) found
                  else generateEnhanced (systemPrompt req) (query req) ctxs.
Proof.
  intros Hq Hp Hk Hwf found.
  destruct (Search.search_total st (query req) (k req) Hwf) as (ctxs & Hctx).
  assert (Hlen : List.length ctxs = found).
  { pose proof (Search.search_length st (query req) (k req) ctxs Hctx) as Hl.
    unfold JS.relIndex in Hl. destruct (Z.ltb_spec (k req) 0); unfold found; lia. }
  exists (Ask.respond toFixed3 randomString generateEnhanced req (List.length (meta st)) ctxs),
    ctxs.
  split.
  - unfold Ask.handler.
    destruct (Nat.ltb_spec (String.length (query req)) 3); [lia|].
    destruct (Nat.ltb_spec (String.length (systemPrompt req)) 10); [lia|].
    cbn [orb]. now rewrite Hctx.
  - split; [exact Hctx|]. unfold Ask.respond. cbv zeta. rewrite Hlen.
    destruct (Nat.ltb_spec found 2) as [Hlt|Hge].
    + cbn [searchResults contexts totalDocuments noContext insufficient answer].
      rewrite List.length_map, Hlen. repeat split.
    + destruct (Nat.eqb_spec found 0); [lia|].
      cbn [searchResults contexts totalDocuments noContext insufficient answer].
      rewrite List.length_map, Hlen. repeat split.
Qed.

End WithRuntime.
End AskOverIndex.

Module AskOverIndexExamples.
Import Enhanced Ask Notions Sample AskOverIndex.

(** A request with [k = 8] over the index of two chunks: two contexts, and
    the generated answer. *)
Lemma handler_reply_by_count_witness :
  let req := {| query := "pricing"; systemPrompt := "Answer from the passages.";
                k := 8 |} in
  let generate := fun (_ _ : string) (_ : list (resultDoc * R)) => "generated" in
  exists b ctxs,
    @Ask.handler axisEmbedder (fun _ => "0.000") "0.5" generate req (Some twoChunks)
    = Ok200 b
    /\ @similaritySearchWithScore axisEmbedder twoChunks "pricing" 8 = inr ctxs
    /\ searchResults b = 2%nat
    /\ List.length (contexts b) = 2%nat
    /\ totalDocuments b = 2%nat
    /\ noContext b = None
    /\ insufficient b = false
    /\ answer b = "generated".
Proof.
  exact (@handler_reply_by_count axisEmbedder (fun _ => "0.000") "0.5"
           (fun _ _ _ => "generated")
           {| query := "pricing"; systemPrompt := "Answer from the passages."; k := 8 |}
           twoChunks ltac:(vm_compute; lia) ltac:(vm_compute; lia) ltac:(vm_compute; discriminate)
           (SearchExamples.twoChunks_wellFormed "pricing")).
Defined.

End AskOverIndexExamples.

(** ** The counts of analyzeDocuments *)

Module AnalyzeCounts.
Import Enhanced Analyze AnalyzeNotions.

Lemma occurrences_app (key : string) (l1 l2 : list string) :
  occurrences key (l1 ++ l2) = (occurrences key l1 + occurrences key l2)%nat.
Proof. unfold occurrences. now rewrite List.filter_app, List.length_app. Qed.

Lemma occurrences_one (key x : string) :
  occurrences key [x] = if String.eqb key x then 1%nat else 0%nat.
Proof. unfold occurrences. cbn. now destruct (String.eqb key x). Qed.

Lemma bump_counted (keys : list string) (obj : gmap string tally) (x : string) :
  counted keys obj -> counted (keys ++ [x]) (bump obj x).
Proof.
  intros Hobj key Hkey. rewrite occurrences_app, occurrences_one.
  specialize (Hobj key Hkey). unfold bump.
  destruct (String.eqb_spec key x) as [<-|Hne].
  - rewrite Hobj. destruct (occurrences key keys) as [|n].
    + assert (Hp : String.eqb key "__proto__" = false).
      { destruct (String.eqb_spec key "__proto__") as [->|]; [discriminate Hkey|reflexivity]. }
      rewrite Hp, Hkey, lookup_insert_eq. reflexivity.
    + rewrite lookup_insert_eq. reflexivity.
  - rewrite Nat.add_0_r, <- Hobj.
    destruct (obj !! x) as [[n|]|]; [now rewrite lookup_insert_ne| reflexivity|].
    destruct (String.eqb x "__proto__"); [reflexivity|].
    destruct (inherited x); now rewrite lookup_insert_ne.
Qed.

Lemma fold_bump_counted (xs : list string) :
  forall keys obj, counted keys obj -> counted (keys ++ xs) (fold_left bump xs obj).
Proof.
  induction xs as [|x xs IH]; intros keys obj Hobj; [now rewrite List.app_nil_r|].
  cbn [fold_left]. replace (keys ++ x :: xs) with ((keys ++ [x]) ++ xs)
    by now rewrite <- List.app_assoc.
  apply IH, bump_counted, Hobj.
Qed.

Lemma visit_fold (dm : gmap string docEntry) (l : list chunkMeta) :
  forall done total tagObj srcObj,
    total = textLength dm done ->
    counted (flat_map tags done) tagObj ->
    counted (List.map source done) srcObj ->
    exists total' tagObj' srcObj',
      fold_left (visit dm) l (total, tagObj, srcObj) = (total', tagObj', srcObj')
      /\ total' = textLength dm (done ++ l)
      /\ counted (flat_map tags (done ++ l)) tagObj'
      /\ counted (List.map source (done ++ l)) srcObj'.
Proof.
  induction l as [|m l IH]; intros done total tagObj srcObj Ht Htag Hsrc.
  - rewrite List.app_nil_r. eexists _, _, _. split; [reflexivity|]. auto.
  - cbn [fold_left visit].
    replace (done ++ m :: l) with ((done ++ [m]) ++ l) by now rewrite <- List.app_assoc.
    apply IH.
    + subst total. unfold textLength. rewrite List.map_app, list_sum_app.
      f_equal. cbn. lia.
    + rewrite flat_map_app. cbn [flat_map]. rewrite List.app_nil_r.
      now apply fold_bump_counted.
    + rewrite List.map_app. cbn [List.map]. now apply bump_counted.
Qed.

Lemma distinct_spec (xs : list string) :
  List.NoDup (distinct xs) /\ forall x, In x (distinct xs) <-> In x xs.
Proof.
  unfold distinct.
  assert (Hgen : forall seen,
             List.NoDup seen ->
             let out := fold_left (fun seen x =>
                                     if bool_decide (x ∈ seen) then seen else seen ++ [x])
                          xs seen in
             List.NoDup out /\ forall x, In x out <-> In x seen \/ In x xs).
  { induction xs as [|y xs IH]; intros seen Hseen; cbn [fold_left].
    - split; [exact Hseen|]. intros x. cbn. tauto.
    - cbv zeta. destruct (bool_decide (y ∈ seen)) eqn:Hy.
      + apply bool_decide_eq_true in Hy. rewrite list_elem_of_In in Hy.
        destruct (IH seen Hseen) as [Hnd Hin]. split; [exact Hnd|].
        intros x. rewrite Hin. cbn. split; [tauto|].
        intros [Hx|[<-|Hx]]; auto.
      + apply bool_decide_eq_false in Hy. rewrite list_elem_of_In in Hy.
        destruct (IH (seen ++ [y])) as [Hnd Hin].
        * apply List.NoDup_app; [exact Hseen|repeat constructor; intros []|].
          intros a Ha [<-|[]]. contradiction.
        * split; [exact Hnd|]. intros x. rewrite Hin, in_app_iff. cbn. tauto. }
  destruct (Hgen [] (List.NoDup_nil _)) as [Hnd Hin]. split; [exact Hnd|].
  intros x. rewrite Hin. cbn. tauto.
Qed.

(** The occurrences of the distinct keys add up to the number of keys. *)
Lemma occurrences_sum (keys ds : list string) :
  List.NoDup ds -> (forall x, In x keys -> In x ds) ->
  list_sum (List.map (fun d => occurrences d keys) ds) = List.length keys.
Proof.
  intros Hnd. induction keys as [|k keys IH]; intros Hin.
  - clear Hin. unfold occurrences. cbn. clear Hnd. induction ds; [reflexivity|]. cbn.
    exact IHds.
  - assert (Hstep : forall l, List.NoDup l ->
              list_sum (List.map (fun d => occurrences d (k :: keys)) l)
              = ((if bool_decide (k ∈ l) then 1 else 0)
                 + list_sum (List.map (fun d => occurrences d keys) l))%nat).
    { induction l as [|d l IHl]; intros Hl; [reflexivity|].
      inversion Hl as [|? ? Hd Hl']; subst.
      change (list_sum (List.map (fun d => occurrences d (k :: keys)) (d :: l)))
        with (occurrences d (k :: keys)
              + list_sum (List.map (fun d => occurrences d (k :: keys)) l))%nat.
      change (list_sum (List.map (fun d => occurrences d keys) (d :: l)))
        with (occurrences d keys
              + list_sum (List.map (fun d => occurrences d keys) l))%nat.
      rewrite (IHl Hl'). change (k :: keys) with ([k] ++ keys).
      rewrite occurrences_app, occurrences_one.
      destruct (String.eqb_spec d k) as [->|Hne].
      - rewrite (bool_decide_true (k ∈ k :: l)) by (left).
        rewrite (bool_decide_false (k ∈ l)) by (now rewrite list_elem_of_In). lia.
      - destruct (bool_decide (k ∈ l)) eqn:Hk.
        + apply bool_decide_eq_true in Hk.
          rewrite (bool_decide_true (k ∈ d :: l)) by (now right). lia.
        + apply bool_decide_eq_false in Hk.
          rewrite (bool_decide_false (k ∈ d :: l)); [lia|].
          intros Hin'. apply elem_of_cons in Hin' as [Heq|Hin']; congruence. }
    rewrite (Hstep ds Hnd), IH by (intros x Hx; apply Hin; now right).
    rewrite bool_decide_true by (apply list_elem_of_In, Hin; now left).
    reflexivity.
Qed.

(** The mean rounded half up: within one half of the exact mean. *)
Lemma roundedMean_bounds (total n avg : nat) :
  roundedMean total n = Some avg ->
  (n <> 0 /\ 2 * n * avg <= 2 * total + n < 2 * n * (avg + 1))%nat.
Proof.
  unfold roundedMean. destruct (Nat.eqb_spec n 0) as [Hn|Hn]; [discriminate|].
  intros Havg.
  assert (Heq : avg = ((2 * total + n) / (2 * n))%nat) by congruence.
  subst avg. clear Havg. split; [exact Hn|].
  pose proof (Nat.div_mod (2 * total + n) (2 * n) ltac:(lia)) as Hd.
  pose proof (Nat.mod_upper_bound (2 * total + n) (2 * n) ltac:(lia)) as Hm.
  set (q := ((2 * total + n) / (2 * n))%nat) in *.
  set (r := ((2 * total + n) mod (2 * n))%nat) in *.
  clearbody q r. nia.
Qed.

(** X26. What [analyzeDocuments] reports, and the analysis endpoint
    sends, when docs.json can be read.  [totalDocuments] and [totalChunks]
    are both the number of chunk records.  [sources] lists every recorded
    source once.  For a source or a tag that is not the name of a property
    objects inherit, [sourceBreakdown] and [tags] hold its number of
    records, and no entry when there is none; the counts of the listed
    sources add up to [totalChunks].  [averageChunkSize] is NaN exactly on
    an empty index, and otherwise within one half of the mean text
    length. *)
Theorem analyzeDocuments_counts (metaList : list chunkMeta) (dm : gmap string docEntry) :
  exists a,
    analyzeDocuments metaList (Some dm) = Some a
    /\ Analyze.handler "GET" metaList (Some dm) = Analysis200 a
    /\ totalDocuments a = List.length metaList
    /\ totalChunks a = List.length metaList
    /\ List.NoDup (sources a)
    /\ (forall src, In src (sources a) <-> exists m, In m metaList /\ source m = src)
    /\ (forall src, inherited src = false ->
          sourceBreakdown a !! src
          = match occurrences src (List.map source metaList) with
            | O => None
            | S n => Some (Count (S n))
            end)
    /\ (forall tag, inherited tag = false ->
          tagCounts a !! tag
          = match occurrences tag (flat_map tags metaList) with
            | O => None
            | S n => Some (Count (S n))
            end)
    /\ list_sum (List.map (fun src => occurrences src (List.map source metaList))
                   (sources a)) = totalChunks a
    /\ match averageChunkSize a with
       | None => metaList = []
       | Some avg =>
           let n := List.length metaList in
           (2 * n * avg <= 2 * textLength dm metaList + n < 2 * n * (avg + 1))%nat
       end.
Proof.
  unfold Analyze.handler, analyzeDocuments.
  change (negb (String.eqb "GET" "GET")) with false. cbv iota.
  destruct (visit_fold dm metaList [] 0%nat ∅ ∅) as (total & tagObj & srcObj & -> & Ht & Htag & Hsrc).
  - reflexivity.
  - intros key _. cbn. apply lookup_empty.
  - intros key _. cbn. apply lookup_empty.
  - cbn [List.app] in *. eexists. split; [reflexivity|]. split; [reflexivity|].
    cbn [totalDocuments totalChunks sources sourceBreakdown tagCounts averageChunkSize].
    destruct (distinct_spec (List.map source metaList)) as [Hnd Hin].
    split; [reflexivity|]. split; [reflexivity|]. split; [exact Hnd|].
    split.
    { intros src. rewrite Hin, List.in_map_iff. split; intros (m & H1 & H2); eauto. }
    split; [exact Hsrc|]. split; [exact Htag|]. split.
    + rewrite occurrences_sum; [now rewrite List.length_map|exact Hnd|].
      intros x Hx. now apply Hin.
    + rewrite Ht.
      destruct (roundedMean (textLength dm metaList) (List.length metaList))
        as [avg|] eqn:Havg.
      * exact (proj2 (roundedMean_bounds _ _ _ Havg)).
      * unfold roundedMean in Havg.
        destruct (Nat.eqb_spec (List.length metaList) 0) as [Hn|Hn]; [|discriminate].
        now apply length_zero_iff_nil.
Qed.

End AnalyzeCounts.
